(** * multicast-events: a shallow embedding of [index.js]

    The module maps every event name to a UDP port and every group name to
    a multicast address, keeps one receive socket per event with listeners,
    and frames datagrams as an optional origin tag followed by the (possibly
    encrypted) AMP payload.  JavaScript strings are Rocq strings (one
    character per byte), Buffers are lists of bytes, numbers are integers
    of [Z], and the mutable emitter object is threaded explicitly. *)

From Stdlib Require Import ZArith Lia Bool Ascii String List DecimalString
  DecimalPos.
From Stdlib.Strings Require Import Byte.
From stdpp Require Import base option list strings gmap.

Import ListNotations.
Local Open Scope string_scope.
Local Open Scope Z_scope.
Local Open Scope list_scope.

(** ** The MD5 digest used by [md5(value)]

    [crypto.createHash('md5')] is the RFC 1321 function.  Words are 32-bit
    integers with the wrap-around written out. *)

Module MD5.

Definition w32 (x : Z) : Z := x mod 4294967296.

Definition rotl (x : Z) (c : Z) : Z :=
  w32 (Z.lor (Z.shiftl x c) (Z.shiftr x (32 - c))).

Definition not32 (x : Z) : Z := Z.lxor x 4294967295.

Definition shifts : list Z :=
  [ 7; 12; 17; 22; 7; 12; 17; 22; 7; 12; 17; 22; 7; 12; 17; 22;
    5;  9; 14; 20; 5;  9; 14; 20; 5;  9; 14; 20; 5;  9; 14; 20;
    4; 11; 16; 23; 4; 11; 16; 23; 4; 11; 16; 23; 4; 11; 16; 23;
    6; 10; 15; 21; 6; 10; 15; 21; 6; 10; 15; 21; 6; 10; 15; 21 ].

Definition sines : list Z :=
  [ 3614090360; 3905402710; 606105819; 3250441966; 4118548399; 1200080426;
    2821735955; 4249261313; 1770035416; 2336552879; 4294925233; 2304563134;
    1804603682; 4254626195; 2792965006; 1236535329; 4129170786; 3225465664;
    643717713; 3921069994; 3593408605; 38016083; 3634488961; 3889429448;
    568446438; 3275163606; 4107603335; 1163531501; 2850285829; 4243563512;
    1735328473; 2368359562; 4294588738; 2272392833; 1839030562; 4259657740;
    2763975236; 1272893353; 4139469664; 3200236656; 681279174; 3936430074;
    3572445317; 76029189; 3654602809; 3873151461; 530742520; 3299628645;
    4096336452; 1126891415; 2878612391; 4237533241; 1700485571; 2399980690;
    4293915773; 2240044497; 1873313359; 4264355552; 2734768916; 1309151649;
    4149444226; 3174756917; 718787259; 3951481745 ].

Record regs := Regs { ra : Z; rb : Z; rc : Z; rd : Z }.

Definition iv : regs :=
  Regs 1732584193 4023233417 2562383102 271733878.

(** Little-endian word of four bytes, and back. *)
Definition word_of (b0 b1 b2 b3 : Z) : Z :=
  b0 + 256 * b1 + 65536 * b2 + 16777216 * b3.

Definition bytes_of (x : Z) : list Z :=
  [ x mod 256; (x / 256) mod 256; (x / 65536) mod 256;
    (x / 16777216) mod 256 ].

Fixpoint words (n : nat) (bs : list Z) : list Z :=
  match n with
  | O => []
  | S n' =>
      match bs with
      | b0 :: b1 :: b2 :: b3 :: rest => word_of b0 b1 b2 b3 :: words n' rest
      | _ => []
      end
  end.

(** One of the 64 operations of a block. *)
Definition round (m : list Z) (i : nat) (r : regs) : regs :=
  let '(Regs a b c d) := r in
  let iz := Z.of_nat i in
  let '(f, g) :=
    if iz <? 16 then (Z.lor (Z.land b c) (Z.land (not32 b) d), iz)
    else if iz <? 32 then
      (Z.lor (Z.land d b) (Z.land (not32 d) c), (5 * iz + 1) mod 16)
    else if iz <? 48 then (Z.lxor (Z.lxor b c) d, (3 * iz + 5) mod 16)
    else (Z.lxor c (Z.lor b (not32 d)), (7 * iz) mod 16) in
  let f' := w32 (f + a + nth i sines 0 + nth (Z.to_nat g) m 0) in
  Regs d (w32 (b + rotl f' (nth i shifts 0))) b c.

Definition block (r : regs) (m : list Z) : regs :=
  let r' := fold_left (fun acc i => round m i acc) (seq 0 64) r in
  Regs (w32 (ra r + ra r')) (w32 (rb r + rb r'))
       (w32 (rc r + rc r')) (w32 (rd r + rd r')).

(** Padding: a 1 bit, zeros up to 56 modulo 64, the bit length on 8
    bytes, least significant first. *)
Definition pad (bs : list Z) : list Z :=
  let len := Z.of_nat (length bs) in
  let zeros := Z.to_nat ((55 - len) mod 64) in
  let bits := 8 * len in
  bs ++ [128] ++ repeat 0 zeros
     ++ bytes_of (bits mod 4294967296)
     ++ bytes_of ((bits / 4294967296) mod 4294967296).

Fixpoint blocks (n : nat) (bs : list Z) (r : regs) : regs :=
  match n with
  | O => r
  | S n' => blocks n' (skipn 64 bs) (block r (words 16 bs))
  end.

Definition digest (bs : list Z) : list Z :=
  let p := pad bs in
  let r := blocks (length p / 64) p iv in
  bytes_of (ra r) ++ bytes_of (rb r) ++ bytes_of (rc r) ++ bytes_of (rd r).

End MD5.

Definition code_of (c : ascii) : Z := Z.of_N (N_of_ascii c).
Definition char_of (z : Z) : ascii := ascii_of_N (Z.to_N z).

Definition codes (s : string) : list Z := map code_of (list_ascii_of_string s).
Definition of_codes (l : list Z) : string :=
  string_of_list_ascii (map char_of l).

(** [md5(value)] returns the digest as a binary string: one character per
    digest byte. *)
Definition md5 (value : string) : string := of_codes (MD5.digest (codes value)).

(** [s.charCodeAt(i)]; JavaScript answers NaN outside the string, which no
    caller below reaches (a digest has 16 characters): 0 stands for it. *)
Definition charCodeAt (s : string) (i : nat) : Z :=
  match String.get i s with
  | Some c => code_of c
  | None => 0
  end.

(** ** JavaScript values used by the module *)

(** Truthiness of a string and of a number. *)
Definition truthy (s : string) : bool :=
  match s with
  | EmptyString => false
  | String _ _ => true
  end.

Definition truthyZ (z : Z) : bool := negb (z =? 0).

(** [a || b] on strings, numbers and optional (possibly undefined) values. *)
Definition orString (a : option string) (b : string) : string :=
  match a with
  | Some s => if truthy s then s else b
  | None => b
  end.

Definition orZ (a : option Z) (b : Z) : Z :=
  match a with
  | Some z => if truthyZ z then z else b
  | None => b
  end.

(** [Number.prototype.toString] on an integer. *)
Definition toString (z : Z) : string := NilZero.string_of_int (Z.to_int z).

Definition isDigit (c : ascii) : bool :=
  (48 <=? code_of c) && (code_of c <=? 57).

(** The white space that [parseInt] skips, among the characters below 256:
    TAB to CR, the space and the no-break space. *)
Definition isSpace (c : ascii) : bool :=
  let n := code_of c in
  (n =? 32) || ((9 <=? n) && (n <=? 13)) || (n =? 160).

Fixpoint trimLeft (s : string) : string :=
  match s with
  | String c r => if isSpace c then trimLeft r else s
  | EmptyString => s
  end.

Fixpoint digitsValue (s : string) (acc : Z) : Z :=
  match s with
  | String c r =>
      if isDigit c then digitsValue r (10 * acc + (code_of c - 48)) else acc
  | EmptyString => acc
  end.

Definition startsWithDigit (s : string) : bool :=
  match s with
  | String c _ => isDigit c
  | EmptyString => false
  end.

(** What [parseInt(s, 10)] reads after the white space: an optional sign,
    then the longest run of decimal digits; [None] is NaN. *)
Definition parseDigits (s : string) : option Z :=
  let '(neg, s2) :=
    match s with
    | String "-" r => (true, r)
    | String "+" r => (false, r)
    | _ => (false, s)
    end in
  if startsWithDigit s2
  then Some (if neg : bool then - digitsValue s2 0 else digitsValue s2 0)
  else None.

(** [parseInt(s, 10)] on a string of characters below 256. *)
Definition parseInt (s : string) : option Z := parseDigits (trimLeft s).

Definition byteCode (b : byte) : Z := Z.of_N (Byte.to_N b).

(** The white space characters above U+00FF, by the three bytes of their
    UTF-8 form: U+1680, U+2000 to U+200A, U+2028, U+2029, U+202F, U+205F,
    U+3000 and U+FEFF. *)
Definition wideSpace (a b c : Z) : bool :=
  ((a =? 225) && (b =? 154) && (c =? 128))
  || ((a =? 226) && (b =? 128)
      && (((128 <=? c) && (c <=? 138)) || (c =? 168) || (c =? 169)
          || (c =? 175)))
  || ((a =? 226) && (b =? 129) && (c =? 159))
  || ((a =? 227) && (b =? 128) && (c =? 128))
  || ((a =? 239) && (b =? 187) && (c =? 191)).

(** The bytes of a Buffer after the white space that its text starts with,
    the text being what [toString()] decodes from UTF-8: a byte sequence
    that is no character decodes to U+FFFD, which is no white space. *)
Fixpoint skipWhite (buf : list byte) : list byte :=
  match buf with
  | [] => []
  | b :: r =>
      let n := byteCode b in
      if (n =? 32) || ((9 <=? n) && (n <=? 13)) then skipWhite r
      else
        match r with
        | b1 :: r1 =>
            if (n =? 194) && (byteCode b1 =? 160) then skipWhite r1
            else
              match r1 with
              | b2 :: r2 =>
                  if wideSpace n (byteCode b1) (byteCode b2)
                  then skipWhite r2 else buf
              | [] => buf
              end
        | [] => buf
        end
  end.

(** [parseInt(buf.toString(), 10)]: the sign and the digits are ASCII
    characters, one byte each. *)
Definition parseIntUtf8 (buf : list byte) : option Z :=
  parseDigits (string_of_list_byte (skipWhite buf)).

(** A configuration value that the constructor passes to [parseInt]: a
    number, given by an integer, or a string. *)
Inductive jsnum :=
  | JNum (z : Z)
  | JStr (s : string).

Definition truthyNum (v : jsnum) : bool :=
  match v with
  | JNum z => truthyZ z
  | JStr s => truthy s
  end.

(** The Number that an integer is: itself up to 2^53, and beyond that the
    integer rounded to 53 significant bits, ties to the even one. *)
Definition toNumber (z : Z) : Z :=
  let a := Z.abs z in
  let e := Z.log2 a - 52 in
  if e <=? 0 then z
  else
    let q := Z.shiftr a e in
    let r := a - Z.shiftl q e in
    let half := Z.shiftl 1 (e - 1) in
    let q' := if (half <? r) || ((r =? half) && Z.odd q) then q + 1 else q in
    Z.sgn z * Z.shiftl q' e.

Definition digitCount (a : Z) : Z := Z.of_nat (String.length (toString a)).

(** The first digit of the text of a Number [v] of 10^21 or more, which is
    written with an exponent: the digits are the fewest, [k] or more, that
    read back as [v]. *)
Fixpoint firstDigit (fuel : nat) (k : Z) (v : Z) : Z :=
  match fuel with
  | O => v / 10 ^ (digitCount v - 1)
  | S fuel =>
      let s := 10 ^ (digitCount v - k) in
      let lo := v / s * s in
      let hi := lo + s in
      let okLo := toNumber lo =? v in
      let okHi := toNumber hi =? v in
      let c := if okLo && (negb okHi || (v - lo <=? hi - v)) then lo else hi in
      if okLo || okHi then c / 10 ^ (digitCount c - 1)
      else firstDigit fuel (k + 1) v
  end.

(** [parseInt(v, 10)]: a number is read from its text, which has all the
    digits of the number below 10^21 and only the first before the point
    from there on; [Infinity] reads as NaN. *)
Definition parseIntOf (v : jsnum) : option Z :=
  match v with
  | JNum z =>
      let n := toNumber z in
      if Z.abs n <? 10 ^ 21 then Some n
      else if 2 ^ 1024 <=? Z.abs n then None
      else Some (Z.sgn n * firstDigit 17 1 (Z.abs n))
  | JStr s => parseInt s
  end.

(** What a property read or a call can give where a port is expected: a
    number, [undefined], or an object (a member of [Object.prototype]). *)
Inductive jsval :=
  | JUndefined
  | JNumber (z : Z)
  | JObject.

Definition truthyVal (v : jsval) : bool :=
  match v with
  | JUndefined => false
  | JNumber z => truthyZ z
  | JObject => true
  end.

(** [a === b], for a number [a]. *)
Definition strictEq (a b : jsval) : bool :=
  match a, b with
  | JNumber x, JNumber y => x =? y
  | _, _ => false
  end.

(** ** Regular expressions, as far as [isMulticastAddress] needs them *)

Module Re.

Inductive t :=
  | Chr (c : ascii)
  | Range (lo hi : ascii)
  | Digit
  | Seq (r1 r2 : t)
  | Alt (r1 r2 : t)
  | Opt (r : t).

Definition inRange (lo hi c : ascii) : bool :=
  (code_of lo <=? code_of c) && (code_of c <=? code_of hi).

(** All the ways [r] matches a prefix of [s], as the remaining suffixes,
    in the order a backtracking matcher tries them. *)
Fixpoint rests (r : t) (s : string) : list string :=
  match r with
  | Chr c =>
      match s with
      | String d s' => if Ascii.eqb c d then [s'] else []
      | EmptyString => []
      end
  | Range lo hi =>
      match s with
      | String d s' => if inRange lo hi d then [s'] else []
      | EmptyString => []
      end
  | Digit =>
      match s with
      | String d s' => if isDigit d then [s'] else []
      | EmptyString => []
      end
  | Seq r1 r2 => concat (map (rests r2) (rests r1 s))
  | Alt r1 r2 => rests r1 s ++ rests r2 s
  | Opt r1 => rests r1 s ++ [s]
  end.

Definition matchesAt (r : t) (s : string) : bool :=
  match rests r s with
  | [] => false
  | _ :: _ => true
  end.

(** [re.test(s)] for a pattern without anchors: a match may start at any
    index. *)
Fixpoint test (r : t) (s : string) : bool :=
  matchesAt r s ||
  match s with
  | String _ s' => test r s'
  | EmptyString => false
  end.

(** A match of the whole string, as [^r$] would ask. *)
Definition whole (r : t) (s : string) : bool :=
  existsb (fun rest => negb (truthy rest)) (rests r s).

End Re.

(** [/2(?:2[4-9]|3\d)(?:\.(?:25[0-5]|2[0-4]\d|1\d\d|[1-9]\d?|0)){3}/] *)
Definition multicastOctet : Re.t :=
  Re.Alt (Re.Seq (Re.Chr "2") (Re.Seq (Re.Chr "5") (Re.Range "0" "5")))
  (Re.Alt (Re.Seq (Re.Chr "2") (Re.Seq (Re.Range "0" "4") Re.Digit))
  (Re.Alt (Re.Seq (Re.Chr "1") (Re.Seq Re.Digit Re.Digit))
  (Re.Alt (Re.Seq (Re.Range "1" "9") (Re.Opt Re.Digit))
          (Re.Chr "0")))).

Definition dotOctet : Re.t := Re.Seq (Re.Chr ".") multicastOctet.

Definition multicastPattern : Re.t :=
  Re.Seq (Re.Chr "2")
  (Re.Seq (Re.Alt (Re.Seq (Re.Chr "2") (Re.Range "4" "9"))
                  (Re.Seq (Re.Chr "3") Re.Digit))
  (Re.Seq dotOctet (Re.Seq dotOctet dotOctet))).

Definition isMulticastAddress (ip : string) : bool :=
  Re.test multicastPattern ip.

(** The multicast address syntax itself: the same pattern matched against
    the whole string. *)
Definition multicastSyntax (ip : string) : bool :=
  Re.whole multicastPattern ip.


(** ** Objects used as tables

    An object made by a literal: its own enumerable properties, in the
    order they were created, over what it inherits from
    [Object.prototype].  A read finds the inherited members too, an
    assignment to ['__proto__'] is taken by the inherited setter, which
    ignores a number, and [for (k in o)] and [Object.keys(o)] list the own
    keys that are array indices first, in ascending order, then the
    others in the order of their creation. *)

Module Obj.

Definition t (V : Type) : Type := list (string * V).

(** The own property [k], if there is one. *)
Fixpoint get {V} (k : string) (o : t V) : option V :=
  match o with
  | [] => None
  | (k', v) :: r => if String.eqb k' k then Some v else get k r
  end.

(** The own property [k] set to [v]: an existing key keeps its place. *)
Fixpoint set {V} (k : string) (v : V) (o : t V) : t V :=
  match o with
  | [] => [(k, v)]
  | (k', v') :: r =>
      if String.eqb k' k then (k, v) :: r else (k', v') :: set k v r
  end.

Definition has {V} (k : string) (o : t V) : bool :=
  match get k o with
  | Some _ => true
  | None => false
  end.

(** The names of the members of [Object.prototype]. *)
Definition inherited : list string :=
  [ "constructor"; "hasOwnProperty"; "isPrototypeOf";
    "propertyIsEnumerable"; "toLocaleString"; "toString"; "valueOf";
    "__defineGetter__"; "__defineSetter__"; "__lookupGetter__";
    "__lookupSetter__"; "__proto__" ].

Definition isInherited (k : string) : bool :=
  existsb (String.eqb k) inherited.

(** An array index: the decimal text, without sign or leading zero, of an
    integer below 2^32 - 1. *)
Definition index (k : string) : option Z :=
  match k with
  | EmptyString => None
  | String c r =>
      if forallb isDigit (list_ascii_of_string k)
         && (negb (Ascii.eqb c "0") || negb (truthy r))
         && (digitsValue k 0 <? 4294967295)
      then Some (digitsValue k 0)
      else None
  end.

Fixpoint insertIndex (i : Z) (k : string) (l : list (Z * string))
  : list (Z * string) :=
  match l with
  | [] => [(i, k)]
  | (j, k') :: r =>
      if i <? j then (i, k) :: l else (j, k') :: insertIndex i k r
  end.

(** The keys [ks], given in the order of their creation, in the order of
    enumeration. *)
Definition ordered (ks : list string) : list string :=
  map snd
      (fold_right (fun k acc =>
                     match index k with
                     | Some i => insertIndex i k acc
                     | None => acc
                     end) [] ks)
  ++ List.filter (fun k => match index k with
                           | Some _ => false
                           | None => true
                           end) ks.

Definition keys {V} (o : t V) : list string := ordered (map fst o).

(** [o[k]] for a table of numbers. *)
Definition read (k : string) (o : t Z) : jsval :=
  match get k o with
  | Some v => JNumber v
  | None => if isInherited k then JObject else JUndefined
  end.

(** [o[k] = v] for a number [v]. *)
Definition write (k : string) (v : Z) (o : t Z) : t Z :=
  if negb (has k o) && String.eqb k "__proto__" then o else set k v o.

End Obj.

(** A decoded message argument: a string, a Buffer, or any other JSON
    value, kept as its text. *)
Inductive value :=
  | VString (s : string)
  | VBuffer (b : list byte)
  | VJson (text : string).

(** ** Errors

    The module throws plain [Error] objects; one constructor stands for
    each message of the source, and for the exceptions of the libraries and
    of the runtime that can cross it. *)

Inductive error :=
  | TtlOutOfRange                 (* must have %d < ttl < %d *)
  | InvalidInterface              (* does not have %s as a valid multicast interface *)
  | ForeignOnlyWithoutLoopback    (* can't listen foreign only events if loopback is false *)
  | OctetOutOfRange               (* must have %d < octet < %d as first octet ... *)
  | PortOutOfRange                (* must have %d < port < %d *)
  | RequiresEvent                 (* requires an event *)
  | RequiresEventAndListener      (* requires an event and a listener *)
  | PortAssigned (event : string) (port : jsval) (definedEvent : string)
                                  (* was unable to add "%s" listener because the UDP port %d was assigned to "%s" *)
  | UnexpectedEvent (received : option value) (expected : string)
                                  (* has received "%s" but "%s" was expected *)
  | CipherError                   (* thrown by the crypto module *)
  | MessageError                  (* thrown by the amp-message module *)
  | MembershipError               (* thrown by dgram: dropMembership on a socket that has not joined *)
  | BadPort                       (* thrown by dgram: send to a port outside 1..65535 *)
  | TypeError                     (* a property read on undefined, a call of what is no function *)
  | RangeError                    (* call stack exhausted *)
  | Unfinished.                   (* a loop bound of this model was reached *)

(** The classes of the error taxonomy. *)
Inductive error_class :=
  | ConfigError
  | PortCollisionError
  | MissingArgumentError
  | ProtocolMismatchError
  | DecryptError
  | FormatError
  | SocketError
  | RuntimeError.

Definition classify (e : error) : error_class :=
  match e with
  | TtlOutOfRange | InvalidInterface | ForeignOnlyWithoutLoopback
  | OctetOutOfRange | PortOutOfRange => ConfigError
  | RequiresEvent | RequiresEventAndListener => MissingArgumentError
  | PortAssigned _ _ _ => PortCollisionError
  | UnexpectedEvent _ _ => ProtocolMismatchError
  | CipherError => DecryptError
  | MessageError => FormatError
  | MembershipError | BadPort => SocketError
  | TypeError | RangeError | Unfinished => RuntimeError
  end.

Inductive result (A : Type) :=
  | Ok (a : A)
  | Throw (e : error).

Arguments Ok {A} a.
Arguments Throw {A} e.

(** ** The modules the source requires *)

(** [amp-message] and the ciphers of [crypto] are not part of this
    repository: they are taken as they are used.
    - [unpack buf] is [new Message(buf).args], [None] when it throws;
    - [pack args] is [new Message(args).toBuffer()];
    - [cipherRun alg secret m] is [crypto.createCipher(alg, secret)]
      followed by [update(m)] and [final()], and [decipherRun] the same
      for [crypto.createDecipher]; [None] when one of the calls throws.

    Of [dgram] the model keeps what the module relies on: [createSocket],
    [bind] and [close] return; the callback given to [bind] runs once the
    socket is bound, if it ever is; [dropMembership] throws on a socket
    that has not joined the group; [send] throws on a port that is no
    integer from 1 to 65535. *)
Class Modules := {
  unpack : list byte -> option (list value);
  pack : list value -> list byte;
  cipherRun : string -> string -> list byte -> option (list byte);
  decipherRun : string -> string -> list byte -> option (list byte)
}.

(** ** Data *)

Definition ttl : Z := 64.
Definition ttlMin : Z := 1.
Definition ttlMax : Z := 255.
Definition octet : Z := 239.
Definition octetMin : Z := 224.
Definition octetMax : Z := 239.
Definition port : Z := 1967.
Definition portMin : Z := 1024.
Definition portMax : Z := 16384.
Definition group : string := "events".
Definition id : string := "default".

(** The [opts] argument of the constructor; [None] is an absent
    (undefined) property.  The two flags carry the truthiness of the value
    given. *)
Record Opts := {
  opts_name : option string;
  opts_id : option string;
  opts_secret : option string;
  opts_cipher : option string;
  opts_ttl : option jsnum;
  opts_interface : option string;
  opts_loopback : option bool;
  opts_foreignOnly : option bool;
  opts_octet : option Z;
  opts_port : option Z;
  opts_group : option string;
  opts_events : option (Obj.t Z)
}.

(** A function given as listener: [fn_source] is what [toString()]
    returns, [fn_ref] tells apart functions with the same text. *)
Record handler := Handler {
  fn_ref : nat;
  fn_source : string
}.

(** ** The functions given as listeners

    What a listener does when it is called is its own business, except
    for the functions that [once] makes, which call back into the emitter:
    [onceListener] removes itself from the event and calls the listener it
    closes over.  [wrapped h] is that listener when [h] is such a function,
    and [None] for any other function, which is taken not to change the
    emitter while the handlers of a datagram are being called. *)
Class Listeners := {
  wrapped : handler -> option handler
}.

(** An entry of [this.listeners]. *)
Record channel := Channel {
  receiver : nat;
  handlers : list handler
}.

(** A receive socket made by [dgram.createSocket('udp4')], with the
    variables its callbacks close over.  The port is [undefined] and the
    address empty until [bind] is called. *)
Record socket := Socket {
  sock_event : string;            (* [event] of the enclosing addListener *)
  sock_port : jsval;              (* arguments of bind *)
  sock_address : string;
  sock_open : bool;               (* false after close() *)
  sock_listening : bool;          (* the bind callback has run *)
  sock_member : bool;             (* between addMembership and dropMembership *)
  processMessage : bool           (* [var processMessage] of the bind callback *)
}.

(** A datagram that [sender.send] has taken. *)
Record datagram := Datagram {
  dg_data : list byte;
  dg_port : Z;
  dg_address : string
}.

(** The fields set once by the constructor. *)
Record config := Config {
  this_name : string;
  this_id : string;
  this_secret : option string;
  this_cipher : string;
  this_ttl : Z;
  this_interface : option string;
  this_loopback : bool;
  this_foreignOnly : bool;
  this_octet : Z;
  this_port : Z;
  this_group : string;
  this_address : string
}.

(** An emitter and what it owns.  [listeners] holds the channels of
    [this.listeners] and [listenerKeys] the own keys of that object in the
    order of their creation (a key without channel holds a member of
    [Object.prototype], see [addListener]); [pid] is [process.pid] of the
    process it lives in; [sent] and [ticks] are the datagrams given to the
    send socket and the calls queued by [process.nextTick]; [generated]
    lists the calls of [generatePort], oldest first. *)
Record emitter := Emitter {
  this : config;
  events : Obj.t Z;
  listeners : gmap string channel;
  listenerKeys : list string;
  sockets : list socket;
  sent : list datagram;
  ticks : list (list value);
  pid : Z;
  generated : list string
}.

Definition with_events (ev : Obj.t Z) (e : emitter) : emitter :=
  Emitter (this e) ev (listeners e) (listenerKeys e) (sockets e) (sent e)
          (ticks e) (pid e) (generated e).
Definition with_listeners (l : gmap string channel) (e : emitter) : emitter :=
  Emitter (this e) (events e) l (listenerKeys e) (sockets e) (sent e)
          (ticks e) (pid e) (generated e).
Definition with_listenerKeys (k : list string) (e : emitter) : emitter :=
  Emitter (this e) (events e) (listeners e) k (sockets e) (sent e)
          (ticks e) (pid e) (generated e).
Definition with_sockets (s : list socket) (e : emitter) : emitter :=
  Emitter (this e) (events e) (listeners e) (listenerKeys e) s (sent e)
          (ticks e) (pid e) (generated e).
Definition with_sent (d : list datagram) (e : emitter) : emitter :=
  Emitter (this e) (events e) (listeners e) (listenerKeys e) (sockets e) d
          (ticks e) (pid e) (generated e).
Definition with_ticks (t : list (list value)) (e : emitter) : emitter :=
  Emitter (this e) (events e) (listeners e) (listenerKeys e) (sockets e)
          (sent e) t (pid e) (generated e).
Definition with_generated (g : list string) (e : emitter) : emitter :=
  Emitter (this e) (events e) (listeners e) (listenerKeys e) (sockets e)
          (sent e) (ticks e) (pid e) g.

(** The process: its pid, its network interfaces as
    [os.networkInterfaces()] lists them, and the module variable
    [emitterCounter]. *)
Record nic_address := NicAddress {
  nic_address_address : string;
  nic_address_internal : bool
}.

Record process := Process {
  process_pid : Z;
  networkInterfaces : Obj.t (list nic_address);
  emitterCounter : Z
}.

(** ** Methods run on an emitter: a state and exception monad

    A throw keeps the mutations made before it. *)

Definition M (A : Type) : Type := emitter -> result A * emitter.

Definition ret {A} (a : A) : M A := fun st => (Ok a, st).
Definition throw {A} (e : error) : M A := fun st => (Throw e, st).
Definition bind {A B} (m : M A) (k : A -> M B) : M B :=
  fun st =>
    match m st with
    | (Ok a, st') => k a st'
    | (Throw e, st') => (Throw e, st')
    end.
Definition gets {A} (f : emitter -> A) : M A := fun st => (Ok (f st), st).
Definition modify (f : emitter -> emitter) : M unit := fun st => (Ok tt, f st).

Notation "x <~ m ;; k" := (bind m (fun x => k))
  (at level 100, m at next level, right associativity).
Notation "m ;;; k" := (bind m (fun _ => k))
  (at level 100, right associativity).

(** A call [handler.apply(undefined, data)]. *)
Record call := Call {
  call_handler : handler;
  call_args : list value
}.

Definition truthyOpt (s : option string) : bool :=
  match s with
  | Some k => truthy k
  | None => false
  end.

(** [tools.indexOf(msg, b)]: the index of the first byte [b], or -1. *)
Fixpoint indexOf (msg : list byte) (b : byte) : Z :=
  match msg with
  | [] => -1
  | c :: r =>
      if Byte.eqb c b then 0
      else let i := indexOf r b in if i <? 0 then -1 else 1 + i
  end.

(** [buf.slice(from, to)] for indices inside the buffer. *)
Definition slice (buf : list byte) (from to : Z) : list byte :=
  firstn (Z.to_nat (to - from)) (skipn (Z.to_nat from) buf).

(** [verifyAddress(address)]: some interface has this address and is not
    internal. *)
Definition verifyAddress (proc : process) (address : string) : bool :=
  existsb
    (fun nic =>
       existsb
         (fun a =>
            String.eqb (nic_address_address a) address
            && negb (nic_address_internal a))
         (snd nic))
    (networkInterfaces proc).

(** [generatePort.call(this, event)] *)
Definition generatePort (c : config) (event : string) : Z :=
  let hash := md5 (this_id c +:+ "::" +:+ this_group c +:+ "::" +:+ event) in
  this_port c
  + charCodeAt hash (String.length hash - 1)
  + 256 * Z.rem (charCodeAt hash (String.length hash - 2)) 128.

(** The array the constructor joins with dots when the group is not
    recognised as an address. *)
Definition derivedOctets (group : string) (octet : Z) : list Z :=
  let hash := md5 group in
  [ octet;
    charCodeAt hash 0;
    charCodeAt hash 1;
    if (charCodeAt hash 2 =? 0) || (charCodeAt hash 2 =? 255)
    then 1 else charCodeAt hash 2 ].

(** The address the constructor computes from the group and the octet. *)
Definition deriveAddress (group : string) (octet : Z) : string :=
  if isMulticastAddress group then group
  else String.concat "." (map toString (derivedOctets group octet)).

(** [new EventEmitter(opts)], run in [proc]: the emitter or the error
    thrown, and the process with its counter advanced. *)
Definition EventEmitter (opts : Opts) (proc : process)
  : result emitter * process :=
  let name :=
    orString (opts_name opts)
             ("emitter #" +:+ toString (emitterCounter proc)) in
  let proc' :=
    Process (process_pid proc) (networkInterfaces proc)
            (emitterCounter proc + 1) in
  let id' := orString (opts_id opts) id in
  let secret := opts_secret opts in
  let cipher := orString (opts_cipher opts) "aes256" in
  let ttl' :=
    parseIntOf
      match opts_ttl opts with
      | Some v => if truthyNum v then v else JNum ttl
      | None => JNum ttl
      end in
  let interface := opts_interface opts in
  let loopback :=
    match opts_loopback opts with
    | None => true
    | Some b => b
    end in
  let foreignOnly :=
    match opts_foreignOnly opts with
    | None => false
    | Some b => b
    end in
  let octet' := orZ (opts_octet opts) octet in
  let port' := orZ (opts_port opts) port in
  let group' := orString (opts_group opts) group in
  let events' :=
    match opts_events opts with
    | Some o => o
    | None => []
    end in
  let outcome :=
    match ttl' with
    | None => Throw TtlOutOfRange
    | Some t =>
        if (t <? ttlMin) || (t >? ttlMax) then Throw TtlOutOfRange
        else if truthyOpt interface
                && negb (verifyAddress proc (default "" interface))
        then Throw InvalidInterface
        else if negb loopback && foreignOnly
        then Throw ForeignOnlyWithoutLoopback
        else if (octet' <? octetMin) || (octet' >? octetMax)
        then Throw OctetOutOfRange
        else if (port' <? portMin) || (port' >? portMax)
        then Throw PortOutOfRange
        else
          Ok (Emitter
                (Config name id' secret cipher t interface loopback
                        foreignOnly octet' port' group'
                        (deriveAddress group' octet'))
                events' ∅ [] [] [] [] (process_pid proc) [])
    end in
  (outcome, proc').

Section Methods.

Context {Mods : Modules} {Fns : Listeners}.

(** [encrypt.call(this, message)] *)
Definition encrypt (c : config) (message : list byte)
  : result (list byte) :=
  if truthy (this_cipher c) && truthyOpt (this_secret c) then
    match cipherRun (this_cipher c) (default "" (this_secret c)) message with
    | Some out => Ok out
    | None => Throw CipherError
    end
  else Ok message.

(** [decrypt.call(this, message)] *)
Definition decrypt (c : config) (message : list byte)
  : result (list byte) :=
  if truthy (this_cipher c) && truthyOpt (this_secret c) then
    match decipherRun (this_cipher c) (default "" (this_secret c)) message with
    | Some out => Ok out
    | None => Throw CipherError
    end
  else Ok message.

Definition lift {A} (r : result A) : M A := fun st => (r, st).

Definition getAddress : M string :=
  gets (fun st => this_address (this st)).

(** [generatePort] as the methods call it: the call is recorded. *)
Definition generatePortCall (event : string) : M Z :=
  fun st =>
    (Ok (generatePort (this st) event),
     with_generated (generated st ++ [event]) st).

(** [this.events.hasOwnProperty(event)]: the method is the one of
    [Object.prototype] unless the table has a key of that name, whose
    value, a number, cannot be called. *)
Definition hasOwnEvent (event : string) : M bool :=
  method <~ gets (fun st => Obj.get "hasOwnProperty" (events st)) ;;
  match method with
  | Some _ => throw TypeError
  | None => gets (fun st => Obj.has event (events st))
  end.

Definition getPort (event : string) : M jsval :=
  if negb (truthy event) then throw RequiresEvent
  else
    own <~ hasOwnEvent event ;;
    if own : bool then gets (fun st => Obj.read event (events st))
    else
      p <~ generatePortCall event ;;
      modify (fun st => with_events (Obj.write event p (events st)) st) ;;;
      gets (fun st => Obj.read event (events st)).

(** [this.listeners.hasOwnProperty(event) &&
    this.listeners[event].hasOwnProperty('receiver')]: an own key that
    holds a member of [Object.prototype] has no receiver. *)
Definition hasReceiver (event : string) : M bool :=
  if negb (truthy event) then throw RequiresEvent
  else
    gets (fun st =>
            match listeners st !! event with
            | Some _ => true
            | None => false
            end).

Definition hasListeners (event : string) : M bool :=
  if negb (truthy event) then throw RequiresEvent
  else
    gets (fun st =>
            match listeners st !! event with
            | Some ch => (0 <? length (handlers ch))%nat
            | None => false
            end).

(** The loop [for (prp in this.events)] of [hasEventWithPort], over the
    keys left to visit. *)
Fixpoint forIn (port : jsval) (keys : list string) : M (option string) :=
  match keys with
  | [] => ret None
  | prp :: rest =>
      own <~ hasOwnEvent prp ;;
      if own : bool then
        v <~ gets (fun st => Obj.read prp (events st)) ;;
        if strictEq v port then ret (Some prp) else forIn port rest
      else forIn port rest
  end.

(** [hasEventWithPort(event, port)]: [None] is undefined. *)
Definition hasEventWithPort (event : string) (port : jsval)
  : M (option string) :=
  port <~ (if truthyVal port then ret port
           else p <~ generatePortCall event ;; ret (JNumber p)) ;;
  keys <~ gets (fun st => Obj.keys (events st)) ;;
  forIn port keys.

(** [fullDefined(event, port)]: [None] is null or undefined. *)
Definition fullDefined (event : string) (port : jsval)
  : M (option string) :=
  r <~ hasReceiver event ;;
  if r : bool then
    l <~ hasListeners event ;;
    if l : bool then hasEventWithPort event port else ret None
  else ret None.

(** [dgram.createSocket('udp4')] in [addListener(event, ...)]. *)
Definition createSocket (event : string) : M nat :=
  fun st =>
    (Ok (length (sockets st)),
     with_sockets
       (sockets st ++ [Socket event JUndefined "" true false false false])
       st).

Definition updateSocket (sid : nat) (f : socket -> socket) : M unit :=
  modify (fun st => with_sockets (alter f sid (sockets st)) st).

(** [receiver.bind(port, address, callback)] *)
Definition bindSocket (sid : nat) (p : jsval) (address : string) : M unit :=
  updateSocket sid
    (fun s => Socket (sock_event s) p address (sock_open s)
                     (sock_listening s) (sock_member s) (processMessage s)).

(** A key added to those of an object, when it is not there yet. *)
Definition addKey (k : string) (ks : list string) : list string :=
  if existsb (String.eqb k) ks then ks else ks ++ [k].

(** [this.listeners[event] = this.listeners[event] || {receiver: receiver,
    handlers: []}]: the channel that is there stays; a member of
    [Object.prototype] of that name, which is truthy, is assigned to the
    key itself (['__proto__'] excepted, which the inherited setter takes);
    any other name gets the new channel. *)
Definition assignChannel (event : string) (receiver : nat) : M unit :=
  modify (fun st =>
            match listeners st !! event with
            | Some _ => st
            | None =>
                if Obj.isInherited event then
                  if String.eqb event "__proto__" then st
                  else with_listenerKeys (addKey event (listenerKeys st)) st
                else
                  with_listeners
                    (<[event := Channel receiver []]> (listeners st))
                    (with_listenerKeys (addKey event (listenerKeys st)) st)
            end).

(** The text of the function that [once] registers. *)
Definition onceListenerSource : string :=
  "function onceListener() { self.removeListener(event, onceListener); listener.apply(undefined, arguments); }".

Definition addListener (event : string) (listener : handler) : M unit :=
  port <~ gets (fun st => Obj.read event (events st)) ;;
  definedEvent <~ fullDefined event port ;;
  match definedEvent with
  | Some d =>
      if truthy d && negb (String.eqb d event)
      then p <~ getPort event ;; throw (PortAssigned event p d)
      else ret tt
  | None => ret tt
  end ;;;
  r <~ hasReceiver event ;;
  (if negb r then
     receiver <~ createSocket event ;;
     assignChannel event receiver ;;;
     p <~ getPort event ;;
     a <~ getAddress ;;
     bindSocket receiver p a
   else ret tt) ;;;
  ch <~ gets (fun st => listeners st !! event) ;;
  match ch with
  | None => throw TypeError
  | Some ch =>
      modify (fun st =>
                with_listeners
                  (<[event := Channel (receiver ch)
                                      (handlers ch ++ [listener])]>
                     (listeners st)) st)
  end ;;;
  _ <~ getPort event ;;
  ret tt.

(** [on] is [addListener]. *)
Definition on : string -> handler -> M unit := addListener.

(** [once(event, listener)] registers a function of its own, which closes
    over [listener]; [ref] tells it apart from the others it has made. *)
Definition once (event : string) (listener : handler) (ref : nat) : M unit :=
  addListener event (Handler ref onceListenerSource).

(** [bind] was called on the socket. *)
Definition isBound (s : socket) : bool :=
  match sock_port s with
  | JUndefined => false
  | _ => true
  end.

(** The callback given to [receiver.bind], which the runtime calls once,
    when the socket is bound: never for a socket on which [bind] was not
    called, or whose [bind] fails.  [addMembership] is taken to succeed. *)
Definition onListening (sid : nat) : M unit :=
  s <~ gets (fun st => sockets st !! sid) ;;
  match s with
  | Some s =>
      if sock_open s && negb (sock_listening s) && isBound s
      then
        updateSocket sid
          (fun s => Socket (sock_event s) (sock_port s) (sock_address s)
                           (sock_open s) true true true) ;;;
        _ <~ getPort (sock_event s) ;;
        ret tt
      else ret tt
  | None => ret tt
  end.

(** [receiver.dropMembership(this.getAddress(), this.interface)] *)
Definition dropMembership (sid : nat) : M unit :=
  s <~ gets (fun st => sockets st !! sid) ;;
  match s with
  | Some s =>
      if sock_member s then
        updateSocket sid
          (fun s => Socket (sock_event s) (sock_port s) (sock_address s)
                           (sock_open s) (sock_listening s) false
                           (processMessage s))
      else throw MembershipError
  | None => throw TypeError
  end.

(** [receiver.close()] *)
Definition close (sid : nat) : M unit :=
  updateSocket sid
    (fun s => Socket (sock_event s) (sock_port s) (sock_address s) false
                     (sock_listening s) (sock_member s) (processMessage s)).

(** [delete this.listeners[event]] *)
Definition deleteChannel (event : string) : M unit :=
  modify (fun st =>
            with_listeners
              (delete event (listeners st))
              (with_listenerKeys
                 (List.filter (fun k => negb (String.eqb k event))
                              (listenerKeys st)) st)).

(** The [for] loop of [removeListener], about to test [handlers[i - 1]];
    [hs] is the array [handlers], which the channel shares until the
    channel is deleted. *)
Fixpoint removeLoop (event source : string) (i : nat) (hs : list handler)
  (matched : bool) : M bool :=
  match i with
  | O => ret matched
  | S j =>
      match hs !! j with
      | None => throw TypeError
      | Some h =>
          if String.eqb (fn_source h) source then
            let hs' := delete j hs in
            modify (fun st =>
                      match listeners st !! event with
                      | Some ch =>
                          with_listeners
                            (<[event := Channel (receiver ch) hs']>
                               (listeners st)) st
                      | None => st
                      end) ;;;
            _ <~ getPort event ;;
            (if (length hs' =? 0)%nat then
               ch <~ gets (fun st => listeners st !! event) ;;
               match ch with
               | None => throw TypeError
               | Some ch =>
                   dropMembership (receiver ch) ;;;
                   close (receiver ch) ;;;
                   deleteChannel event ;;;
                   _ <~ getPort event ;;
                   ret tt
               end
             else ret tt) ;;;
            removeLoop event source j hs' true
          else removeLoop event source j hs matched
      end
  end.

Definition removeListener (event : string) (listener : handler) : M unit :=
  if negb (truthy event) then throw RequiresEventAndListener
  else
    l <~ hasListeners event ;;
    if l : bool then
      ch <~ gets (fun st => listeners st !! event) ;;
      match ch with
      | None => throw TypeError
      | Some ch =>
          let hs := handlers ch in
          matched <~ removeLoop event (fn_source listener) (length hs) hs
                                false ;;
          if negb matched then _ <~ getPort event ;; ret tt else ret tt
      end
    else ret tt.

(** [off] is [removeListener]. *)
Definition off : string -> handler -> M unit := removeListener.

(** The [while] loop of [removeAllListeners(event)], at most [bound]
    turns of it. *)
Fixpoint removeWhile (bound : nat) (event : string) : M unit :=
  l <~ hasListeners event ;;
  if l : bool then
    match bound with
    | O => throw Unfinished
    | S n =>
        ch <~ gets (fun st => listeners st !! event) ;;
        match ch with
        | Some (Channel _ (h :: _)) =>
            removeListener event h ;;; removeWhile n event
        | _ => throw TypeError
        end
    end
  else ret tt.

Definition handlerCount (event : string) (st : emitter) : nat :=
  match listeners st !! event with
  | Some ch => length (handlers ch)
  | None => 0%nat
  end.

Definition removeAllOf (event : string) : M unit :=
  n <~ gets (handlerCount event) ;;
  removeWhile n event.

Fixpoint forEach {A} (f : A -> M unit) (l : list A) : M unit :=
  match l with
  | [] => ret tt
  | a :: r => f a ;;; forEach f r
  end.

(** [removeAllListeners(event)]; [None] is a call without argument.  The
    call made for each key of [this.listeners] takes the first branch
    when the key is truthy, and calls itself for ever otherwise. *)
Definition removeAllListeners (event : option string) : M unit :=
  if truthyOpt event then removeAllOf (default "" event)
  else
    keys <~ gets (fun st => Obj.ordered (listenerKeys st)) ;;
    forEach (fun e => if truthy e then removeAllOf e else throw RangeError)
            keys.

(** The array [this.listeners[event].handlers] that [handleEvent] walks:
    [removeListener] takes the handlers out of this very array, and
    deletes the channel only once the array is empty. *)
Definition handlersOf (event : string) (st : emitter) : list handler :=
  match listeners st !! event with
  | Some ch => handlers ch
  | None => []
  end.

(** [onceListener.apply(undefined, data)], for the function [self] that
    [once(event, listener)] registered. *)
Definition onceListener (event : string) (self listener : handler)
  (data : list value) : M (list call) :=
  removeListener event self ;;;
  ret [Call listener data].

(** [handler.apply(undefined, data)]: the call, and the calls it makes. *)
Definition applyHandler (event : string) (h : handler) (data : list value)
  : M (list call) :=
  match wrapped h with
  | Some listener =>
      inner <~ onceListener event h listener data ;;
      ret (Call h data :: inner)
  | None => ret [Call h data]
  end.

(** [handlers.forEach(...)] from the index [k] on, [n] indices being left
    to visit: [forEach] reads the length of the array once, before the
    first call, and skips an index that the array no longer has. *)
Fixpoint forEachHandler (event : string) (data : list value) (k n : nat)
  : M (list call) :=
  match n with
  | O => ret []
  | S n =>
      hs <~ gets (handlersOf event) ;;
      match hs !! k with
      | Some h =>
          calls <~ applyHandler event h data ;;
          rest <~ forEachHandler event data (S k) n ;;
          ret (calls ++ rest)
      | None => forEachHandler event data (S k) n
      end
  end.

(** [handleEvent.call(this, event, msg, rinfo)]: the calls made, in
    order. *)
Definition handleEvent (event : string) (msg : list byte) : M (list call) :=
  match unpack msg with
  | None => throw MessageError
  | Some data =>
      let msgEvent := head data in
      let data := tail data in
      match msgEvent with
      | Some (VString s) =>
          if String.eqb event s then
            ch <~ gets (fun st => listeners st !! event) ;;
            match ch with
            | Some ch => forEachHandler event data 0 (length (handlers ch))
            | None => throw TypeError
            end
          else throw (UnexpectedEvent msgEvent event)
      | _ => throw (UnexpectedEvent msgEvent event)
      end
  end.

(** The first part of the ['message'] callback: the message without its
    origin tag, and the new value of [processMessage]. *)
Definition untag (ownPid : Z) (processMessage : bool) (msg : list byte)
  : list byte * bool :=
  match msg with
  | b :: _ =>
      if Byte.eqb b "@"%byte then
        let idx := indexOf msg ":"%byte in
        if idx >? 1 then
          let _pid := slice msg 1 idx in
          let pid := parseIntUtf8 _pid in
          (slice msg (idx + 1) (Z.of_nat (length msg)),
           match pid with
           | Some p => negb (ownPid =? p)
           | None => true
           end)
        else (msg, processMessage)
      else (msg, processMessage)
  | [] => (msg, processMessage)
  end.

(** The ['message'] callback of the receiver [sid], which the runtime
    calls for a datagram on an open socket once the callback is
    installed. *)
Definition onMessage (sid : nat) (msg : list byte) : M (list call) :=
  s <~ gets (fun st => sockets st !! sid) ;;
  match s with
  | Some s =>
      if sock_open s && sock_listening s then
        ownPid <~ gets pid ;;
        let '(msg, process) := untag ownPid (processMessage s) msg in
        updateSocket sid
          (fun s => Socket (sock_event s) (sock_port s) (sock_address s)
                           (sock_open s) (sock_listening s) (sock_member s)
                           process) ;;;
        if process then
          c <~ gets this ;;
          decryptedMessage <~ lift (decrypt c msg) ;;
          handleEvent (sock_event s) decryptedMessage
        else ret []
      else ret []
  | None => ret []
  end.

(** [this.sender.send(data, 0, data.length, port, address)] *)
Definition send (data : list byte) (p : jsval) (address : string) : M unit :=
  match p with
  | JNumber n =>
      if (1 <=? n) && (n <=? 65535)
      then modify (fun st =>
                     with_sent (sent st ++ [Datagram data n address]) st)
      else throw BadPort
  | _ => throw BadPort
  end.

(** [_emit.call(this, event, ...args)] *)
Definition _emit (event : string) (args : list value) : M unit :=
  let message := pack (VString event :: args) in
  c <~ gets this ;;
  encryptedMessage <~ lift (encrypt c message) ;;
  ownPid <~ gets pid ;;
  let data :=
    if this_foreignOnly c
    then list_byte_of_string ("@" +:+ toString ownPid +:+ ":")
         ++ encryptedMessage
    else encryptedMessage in
  p <~ getPort event ;;
  a <~ getAddress ;;
  send data p a ;;;
  _ <~ getPort event ;;
  ret tt.

(** [emit(event, ...args)] queues the call for the next tick. *)
Definition emit (event : string) (args : list value) : M unit :=
  modify (fun st => with_ticks (ticks st ++ [VString event :: args]) st).

(** The runtime runs the oldest queued call. *)
Definition nextTick : M unit :=
  q <~ gets ticks ;;
  match q with
  | (VString event :: args) :: rest =>
      modify (with_ticks rest) ;;; _emit event args
  | _ :: rest => modify (with_ticks rest)
  | [] => ret tt
  end.

End Methods.

(** ** A concrete environment, to run the definitions

    A stand-in for the modules: the AMP framing of [amp-message] (a byte
    holding the version and the number of arguments, then each argument
    after its length on four bytes, strings marked [s:] and JSON values
    [j:]), and for [crypto] one cipher, ['aes256'], stood for by the
    reversal of the message.  The functions of [once] are those with the
    text of [onceListener]. *)

Module Example.

Definition byteOf (z : Z) : byte :=
  default "000"%byte (Byte.of_N (Z.to_N (z mod 256))).

Definition uint32BE (n : Z) : list byte :=
  [ byteOf (n / 16777216); byteOf (n / 65536); byteOf (n / 256); byteOf n ].

Definition readUInt32BE (buf : list byte) : option Z :=
  match buf with
  | a :: b :: c :: d :: _ =>
      Some (16777216 * Z.of_N (Byte.to_N a) + 65536 * Z.of_N (Byte.to_N b)
            + 256 * Z.of_N (Byte.to_N c) + Z.of_N (Byte.to_N d))
  | _ => None
  end.

Definition packArg (v : value) : list byte :=
  match v with
  | VString s => list_byte_of_string ("s:" +:+ s)
  | VBuffer b => b
  | VJson t => list_byte_of_string ("j:" +:+ t)
  end.

(** The texts that [JSON.parse] reads, as far as this stand-in goes: the
    literals, and the integers written without sign or exponent. *)
Definition jsonText (t : string) : bool :=
  String.eqb t "null" || String.eqb t "true" || String.eqb t "false"
  || (forallb isDigit (list_ascii_of_string t)
      && match t with
         | EmptyString => false
         | String c r => negb (Ascii.eqb c "0") || negb (truthy r)
         end).

(** An argument read back; [None] when [JSON.parse] throws. *)
Definition unpackArg (b : list byte) : option value :=
  match string_of_list_byte b with
  | String "j" (String ":" t) => if jsonText t then Some (VJson t) else None
  | String "s" (String ":" s) => Some (VString s)
  | _ => Some (VBuffer b)
  end.

(** The first byte is [1 << 4 | argc]. *)
Definition encode (args : list value) : list byte :=
  byteOf (Z.lor 16 (Z.of_nat (length args)))
  :: concat (map (fun v => uint32BE (Z.of_nat (length (packArg v)))
                           ++ packArg v) args).

Fixpoint decodeArgs (argc : nat) (buf : list byte)
  : option (list (list byte)) :=
  match argc with
  | O => Some []
  | S n =>
      match readUInt32BE buf with
      | None => None
      | Some len =>
          let body := skipn 4 buf in
          match decodeArgs n (skipn (Z.to_nat len) body) with
          | Some rest => Some (firstn (Z.to_nat len) body :: rest)
          | None => None
          end
      end
  end.

Fixpoint unpackArgs (args : list (list byte)) : option (list value) :=
  match args with
  | [] => Some []
  | b :: rest =>
      match unpackArg b, unpackArgs rest with
      | Some v, Some vs => Some (v :: vs)
      | _, _ => None
      end
  end.

Definition decode (buf : list byte) : option (list value) :=
  match buf with
  | [] => Some []
  | meta :: body =>
      match decodeArgs (Z.to_nat (Z.land (Z.of_N (Byte.to_N meta)) 15)) body
      with
      | Some args => unpackArgs args
      | None => None
      end
  end.

Definition reversing (alg key : string) (m : list byte)
  : option (list byte) :=
  if String.eqb alg "aes256" then Some (rev m) else None.

#[export] Instance modules : Modules := {
  unpack := decode;
  pack := encode;
  cipherRun := reversing;
  decipherRun := reversing
}.

Definition handler1 : handler := Handler 1 "function (data) { one(data); }".
Definition handler2 : handler := Handler 2 "function (data) { two(data); }".

(** The functions that [once('test', handler1)] and
    [once('test', handler2)] register, and what they close over. *)
Definition wrapper1 : handler := Handler 11 onceListenerSource.
Definition wrapper2 : handler := Handler 12 onceListenerSource.

Definition wrappedBy (h : handler) : option handler :=
  if String.eqb (fn_source h) onceListenerSource
  then Some (if (fn_ref h =? 11)%nat then handler1 else handler2)
  else None.

#[export] Instance listeners : Listeners := {
  wrapped := wrappedBy
}.

(** No option given, as in [new EventEmitter()]. *)
Definition noOpts : Opts :=
  Build_Opts None None None None None None None None None None None None.

(** A process with one external interface. *)
Definition proc : process :=
  Process 4242
          [("lo", [NicAddress "127.0.0.1" true]);
           ("eth0", [NicAddress "192.168.2.37" false])]
          0.

Definition run {A} (m : M A) (st : emitter) : emitter := snd (m st).

(** The emitter that [new EventEmitter(opts)] builds in [p], when it
    builds one. *)
Definition built (opts : Opts) (p : process) : emitter :=
  match fst (EventEmitter opts p) with
  | Ok e => e
  | Throw _ => Emitter (Config "" "" None "" 0 None true false 0 0 "" "")
                       [] ∅ [] [] [] [] 0 []
  end.

Definition emitter1 : emitter := built noOpts proc.

End Example.

(** * The vocabulary of the properties *)

Section Vocabulary.

Context {Mods : Modules} {Fns : Listeners}.

(** The table has no key ['hasOwnProperty']: [this.events.hasOwnProperty]
    is the method that every object inherits.  Once the key is there,
    every call of that method throws. *)
Definition sound (st : emitter) : Prop :=
  Obj.get "hasOwnProperty" (events st) = None.

#[global] Instance sound_dec (st : emitter) : Decision (sound st).
Proof. unfold sound. apply _. Defined.

(** The state after [getPort(event)] has returned. *)
Definition cache (event : string) (st : emitter) : emitter :=
  match Obj.get event (events st) with
  | Some _ => st
  | None =>
      with_events
        (Obj.write event (generatePort (this st) event) (events st))
        (with_generated (generated st ++ [event]) st)
  end.

(** What [getPort(event)] returns. *)
Definition portValue (event : string) (st : emitter) : jsval :=
  Obj.read event (events (cache event st)).

(** The port of an event: the one that the table holds, or else the
    generated one. *)
Definition portOf (event : string) (st : emitter) : Z :=
  match Obj.get event (events st) with
  | Some p => p
  | None => generatePort (this st) event
  end.


(** The state after a call of [generatePort] outside [getPort]. *)
Definition logged (event : string) (st : emitter) : emitter :=
  with_generated (generated st ++ [event]) st.

(** The first key of [this.events], in the order of enumeration, that
    holds the port [p]. *)
Definition owner (p : jsval) (st : emitter) : option string :=
  find (fun prp => strictEq (Obj.read prp (events st)) p)
       (Obj.keys (events st)).

(** Whether [addListener] refuses the event for the name [d] it got from
    [fullDefined]. *)
Definition refused (d : option string) (event : string) : bool :=
  match d with
  | Some d => truthy d && negb (String.eqb d event)
  | None => false
  end.

(** [close()] after [dropMembership()]. *)
Definition closeSocket (s : socket) : socket :=
  Socket (sock_event s) (sock_port s) (sock_address s) false
         (sock_listening s) false (processMessage s).

(** The keys of an object after [delete]. *)
Definition withoutKey (event : string) (ks : list string) : list string :=
  List.filter (fun k => negb (String.eqb k event)) ks.

(** The registry once the handlers [kept] are those left to [event], on a
    receiver that has joined the group: the channel with the shorter list,
    or no channel and a closed socket. *)
Definition leaving (event : string) (r : nat) (kept : list handler)
  (st : emitter) : emitter :=
  match kept with
  | [] =>
      with_listeners
        (delete event (listeners st))
        (with_listenerKeys
           (withoutKey event (listenerKeys st))
           (with_sockets (alter closeSocket r (sockets st)) st))
  | _ :: _ =>
      with_listeners (<[event := Channel r kept]> (listeners st)) st
  end.

(** The registry with the handlers [kept] left to [event], the channel
    staying. *)
Definition keeping (event : string) (r : nat) (kept : list handler)
  (st : emitter) : emitter :=
  with_listeners (<[event := Channel r kept]> (listeners st)) st.

(** What the loop of [removeListener] leaves, for a receiver [s]: when no
    handler is left and the receiver has not joined the group,
    [dropMembership] throws, the channel stays with an empty array and the
    socket stays open. *)
Definition removal (event : string) (r : nat) (s : socket)
  (kept : list handler) (matched : bool) (st : emitter)
  : result bool * emitter :=
  match kept, sock_member s with
  | [], false => (Throw MembershipError, keeping event r [] st)
  | _, _ => (Ok matched, leaving event r kept st)
  end.

Definition differs (source : string) (h : handler) : Prop :=
  fn_source h <> source.

#[global] Instance differs_dec (source : string) (h : handler) :
  Decision (differs source h).
Proof. unfold differs. apply _. Defined.

(** What the program and the runtime do to an emitter. *)
Inductive action :=
  | AddListener (event : string) (listener : handler)
  | RemoveListener (event : string) (listener : handler)
  | RemoveAllListeners (event : option string)
  | HasListeners (event : string)
  | GetPort (event : string)
  | Emit (event : string) (args : list value)
  | NextTick
  | Listening (sid : nat)
  | Message (sid : nat) (msg : list byte).

Definition perform (a : action) (st : emitter) : emitter :=
  match a with
  | AddListener event listener => snd (addListener event listener st)
  | RemoveListener event listener => snd (removeListener event listener st)
  | RemoveAllListeners event => snd (removeAllListeners event st)
  | HasListeners event => snd (hasListeners event st)
  | GetPort event => snd (getPort event st)
  | Emit event args => snd (emit event args st)
  | NextTick => snd (nextTick st)
  | Listening sid => snd (onListening sid st)
  | Message sid msg => snd (onMessage sid msg st)
  end.





(** The states that follow [st0], whatever is thrown on the way: those of
    a process that goes on after an error, as it does when the host
    handles ['uncaughtException'], as well. *)
Inductive follows (st0 : emitter) : emitter -> Prop :=
  | follows_start : follows st0 st0
  | follows_step (a : action) (st : emitter) :
      follows st0 st -> follows st0 (perform a st).

(** [st0] is what the constructor returned. *)
Definition constructed (st0 : emitter) : Prop :=
  exists (opts : Opts) (proc : process), fst (EventEmitter opts proc) = Ok st0.

(** The names that [st0] has no port for. *)
Definition unlisted (st0 : emitter) (e : string) : Prop :=
  Obj.get e (events st0) = None.

#[global] Instance unlisted_dec (st0 : emitter) (e : string) :
  Decision (unlisted st0 e).
Proof. unfold unlisted. apply _. Defined.

(** The names whose port [getPort] generates and stores: those that [st0]
    has no port for, but for ['__proto__'], which the table cannot
    store. *)
Definition derived (st0 : emitter) (e : string) : Prop :=
  unlisted st0 e /\ e <> "__proto__".

#[global] Instance derived_dec (st0 : emitter) (e : string) :
  Decision (derived st0 e).
Proof. unfold derived. apply _. Defined.

(** The socket that [createSocket] returns in [addListener(e, ...)]. *)
Definition fresh (e : string) : socket :=
  Socket e JUndefined "" true false false false.

(** The registry after [assignChannel e r], for an event without
    channel. *)
Definition assigned (e : string) (r : nat) (st : emitter) : emitter :=
  if Obj.isInherited e then
    if String.eqb e "__proto__" then st
    else with_listenerKeys (addKey e (listenerKeys st)) st
  else
    with_listeners
      (<[e := Channel r []]> (listeners st))
      (with_listenerKeys (addKey e (listenerKeys st)) st).

(** The emitter after [addListener] has made a socket and assigned the
    channel of an event that had none, before it asks for the port. *)
Definition stuck (e : string) (st : emitter) : emitter :=
  assigned e (length (sockets st))
           (with_sockets (sockets st ++ [fresh e]) st).

(** The emitter once the port is known and [bind] was called on that
    socket. *)
Definition opened (e : string) (st : emitter) : emitter :=
  let st' := cache e (stuck e st) in
  with_sockets
    (sockets st
     ++ [Socket e (Obj.read e (events st')) (this_address (this st))
                true false false false])
    st'.

(** The socket [sid] once the callback of [bind] has run. *)
Definition joined (sid : nat) (st : emitter) : emitter :=
  with_sockets
    (alter (fun s => Socket (sock_event s) (sock_port s) (sock_address s)
                            (sock_open s) true true true)
           sid (sockets st)) st.

(** The emitter with [processMessage] of the receiver [sid] set. *)
Definition setProcess (sid : nat) (process : bool) (st : emitter) : emitter :=
  with_sockets
    (alter (fun s => Socket (sock_event s) (sock_port s) (sock_address s)
                            (sock_open s) (sock_listening s) (sock_member s)
                            process)
           sid (sockets st)) st.

(** The changes that the methods and the callbacks make to an emitter,
    each with what holds where the code makes it:
    - [getPort] returns, after it has stored the port if it had to;
    - [hasEventWithPort] generates the port of an event with listeners
      whose entry in the table is falsy;
    - [addListener] makes a socket for an event without channel, assigns
      the channel and, if [getPort] returns, calls [bind];
    - a handler is pushed on the handlers of a channel, or spliced out;
    - [removeListener] drops the membership of a receiver that has joined,
      closes it and deletes the channel;
    - the callback of [bind] runs on an open socket;
    - a datagram sets [processMessage]; [send] takes a datagram; a call is
      queued or taken off the queue. *)
Inductive step : emitter -> emitter -> Prop :=
  | step_cache (e : string) (st : emitter) :
      truthy e = true -> sound st -> step st (cache e st)
  | step_logged (e : string) (ch : channel) (st : emitter) :
      listeners st !! e = Some ch ->
      handlers ch <> [] ->
      truthyVal (Obj.read e (events st)) = false ->
      step st (logged e st)
  | step_stuck (e : string) (st : emitter) :
      truthy e = true ->
      listeners st !! e = None ->
      ~ sound st ->
      step st (stuck e st)
  | step_opened (e : string) (st : emitter) :
      truthy e = true ->
      listeners st !! e = None ->
      sound st ->
      step st (opened e st)
  | step_handlers (e : string) (ch : channel) (hs : list handler)
      (st : emitter) :
      listeners st !! e = Some ch ->
      step st (keeping e (receiver ch) hs st)
  | step_closed (e : string) (ch : channel) (s : socket) (st : emitter) :
      listeners st !! e = Some ch ->
      sockets st !! receiver ch = Some s ->
      sock_member s = true ->
      step st (leaving e (receiver ch) [] st)
  | step_joined (sid : nat) (s : socket) (st : emitter) :
      sockets st !! sid = Some s ->
      sock_open s = true ->
      sock_listening s = false ->
      isBound s = true ->
      step st (joined sid st)
  | step_process (sid : nat) (process : bool) (st : emitter) :
      step st (setProcess sid process st)
  | step_sent (d : datagram) (st : emitter) :
      step st (with_sent (sent st ++ [d]) st)
  | step_ticks (t : list (list value)) (st : emitter) :
      step st (with_ticks t st).

(** Any number of steps. *)
Definition steps : relation emitter := rtc step.

#[global] Instance steps_po : PreOrder steps := rtc_po.

(** [m] relates every emitter to the one it leaves, whether it returns or
    throws. *)
Definition within (R : relation emitter) {A} (m : M A) : Prop :=
  forall st : emitter, R st (snd (m st)).

(** The channels, the keys and the sockets of a state that follows a
    constructed one: a channel belongs to an event that is no member of
    [Object.prototype] and has an open socket made for that event; an open
    socket of such an event is the receiver of its channel; a socket is a
    member of the group exactly while it is open and bound. *)
Record shape (st : emitter) : Prop := {
  shape_channel :
    forall (ev : string) (ch : channel),
      listeners st !! ev = Some ch ->
      truthy ev = true
      /\ Obj.isInherited ev = false
      /\ ev ∈ listenerKeys st
      /\ exists s : socket,
           sockets st !! receiver ch = Some s
           /\ sock_open s = true /\ sock_event s = ev;
  shape_socket :
    forall (sid : nat) (s : socket),
      sockets st !! sid = Some s ->
      truthy (sock_event s) = true
      /\ sock_member s = sock_open s && sock_listening s
      /\ (sock_listening s = true -> isBound s = true)
      /\ (sock_open s = true ->
          Obj.isInherited (sock_event s) = false ->
          exists ch : channel,
            listeners st !! sock_event s = Some ch /\ receiver ch = sid);
  shape_keys :
    NoDup (listenerKeys st)
    /\ forall k : string,
         k ∈ listenerKeys st ->
         truthy k = true
         /\ (is_Some (listeners st !! k) \/ Obj.isInherited k = true)
}.

(** The table of the ports: what the constructor was given stays, what
    was added is generated, and, while the table has its method, a port is
    generated once for a name that the table can store. *)
Record table (st0 st : emitter) : Prop := {
  table_override :
    forall (e : string) (p : Z),
      Obj.get e (events st0) = Some p -> Obj.get e (events st) = Some p;
  table_value :
    forall (e : string) (p : Z),
      unlisted st0 e ->
      Obj.get e (events st) = Some p -> p = generatePort (this st) e;
  table_generated :
    sound st -> NoDup (filter (derived st0) (generated st));
  table_derived :
    sound st ->
    forall e : string,
      derived st0 e ->
      (e ∈ generated st <-> is_Some (Obj.get e (events st)))
}.

(** While the table has its method, every socket was bound to the port
    that the table gives for its event and to the address of the
    emitter. *)
Definition tuned (st : emitter) : Prop :=
  sound st ->
  forall (sid : nat) (s : socket),
    sockets st !! sid = Some s ->
    sock_port s = Obj.read (sock_event s) (events st)
    /\ (is_Some (Obj.get (sock_event s) (events st))
        \/ sock_event s = "__proto__")
    /\ sock_address s = this_address (this st).

(** What holds of every state that follows a constructed [st0]. *)
Record wf (st0 st : emitter) : Prop := {
  wf_this : this st = this st0;
  wf_pid : pid st = pid st0;
  wf_port : portMin <= this_port (this st);
  wf_shape : shape st;
  wf_table : table st0 st;
  wf_tuned : tuned st
}.

(** Every channel has a handler, and its receiver has joined the
    group: no removal was cut short, and the callback of [bind] has run
    for every channel. *)
Definition settled (st : emitter) : Prop :=
  forall (ev : string) (ch : channel),
    listeners st !! ev = Some ch ->
    handlers ch <> []
    /\ exists s : socket,
         sockets st !! receiver ch = Some s /\ sock_member s = true.

(** The value that [digitsValue] reads from the digits of [d]. *)
Fixpoint valueOf (d : Decimal.uint) (acc : Z) : Z :=
  match d with
  | Decimal.Nil => acc
  | Decimal.D0 d => valueOf d (10 * acc)
  | Decimal.D1 d => valueOf d (10 * acc + 1)
  | Decimal.D2 d => valueOf d (10 * acc + 2)
  | Decimal.D3 d => valueOf d (10 * acc + 3)
  | Decimal.D4 d => valueOf d (10 * acc + 4)
  | Decimal.D5 d => valueOf d (10 * acc + 5)
  | Decimal.D6 d => valueOf d (10 * acc + 6)
  | Decimal.D7 d => valueOf d (10 * acc + 7)
  | Decimal.D8 d => valueOf d (10 * acc + 8)
  | Decimal.D9 d => valueOf d (10 * acc + 9)
  end.

Definition allDigits (s : string) : Prop :=
  Forall (fun c => isDigit c = true) (list_ascii_of_string s).

(** The tag that [_emit] puts before the message of the process [p]. *)
Definition tag (p : Z) : list byte :=
  list_byte_of_string ("@" +:+ toString p +:+ ":").

(** The origin tag of a message as the ['message'] callback reads it: the
    pid, if the text between ['@'] and the first [':'] is a number, and the
    rest of the message; [None] when the callback sees no tag. *)
Definition origin (msg : list byte) : option (option Z * list byte) :=
  match msg with
  | b :: _ =>
      if Byte.eqb b "@"%byte then
        let idx := indexOf msg ":"%byte in
        if idx >? 1 then
          Some (parseIntUtf8 (slice msg 1 idx),
                slice msg (idx + 1) (Z.of_nat (length msg)))
        else None
      else None
  | [] => None
  end.

End Vocabulary.

(** The address written with dots: what [[a, b, c, d].join('.')] gives. *)
Definition dotted (a b c d : Z) : string :=
  String.concat "." (map toString [a; b; c; d]).

(** The largest port that [generatePort] can give: [portMax] and the
    largest offset. *)
Definition generatedPortMax : Z := portMax + 255 + 256 * 127.

(** The part of the pattern before the first dot, [2(?:2[4-9]|3\d)], and
    the part after it. *)
Definition firstOctet : Re.t :=
  Re.Seq (Re.Chr "2")
         (Re.Alt (Re.Seq (Re.Chr "2") (Re.Range "4" "9"))
                 (Re.Seq (Re.Chr "3") Re.Digit)).

Definition threeOctets : Re.t := Re.Seq dotOctet (Re.Seq dotOctet dotOctet).

(** A byte of an ASCII character: [toString()] on a Buffer of such bytes
    gives one character for each. *)
Definition sevenBit (b : byte) : Prop := (Byte.to_N b < 128)%N.

(** What stays of the sockets of [st] in [st']: each is still there, for
    the same event, port and address; closed if it was closed, bound if it
    was bound. *)
Definition lasting (st st' : emitter) : Prop :=
  forall (sid : nat) (s : socket),
    sockets st !! sid = Some s ->
    exists s' : socket,
      sockets st' !! sid = Some s'
      /\ sock_event s' = sock_event s
      /\ sock_port s' = sock_port s
      /\ sock_address s' = sock_address s
      /\ (sock_open s = false -> sock_open s' = false)
      /\ (sock_listening s = true -> sock_listening s' = true).

(** The default emitter, not in foreign-only mode, listening for ['test']
    on a bound receiver, in the process 4242. *)
Definition listening1 : emitter :=
  perform (Mods := Example.modules) (Fns := Example.listeners) (Listening 0)
    (perform (Mods := Example.modules) (Fns := Example.listeners)
      (AddListener "test" Example.handler1) Example.emitter1).

(** The default emitter after [on('test7', handler1)] and
    [on('debug23', handler2)], two events with the same generated port. *)
Definition sharing : emitter :=
  perform (Mods := Example.modules) (Fns := Example.listeners)
    (AddListener "debug23" Example.handler2)
    (perform (Mods := Example.modules) (Fns := Example.listeners)
      (AddListener "test7" Example.handler1) Example.emitter1).







(** The options that ask for the interface 192.168.2.37. *)
Definition interfaceOpts : Opts :=
  Build_Opts None None None None None (Some "192.168.2.37") None None
             None None None None.


(** The emitter [listening1] after [off('test', handler1)], and after
    the [on('test', handler1)] that follows. *)
Definition closed1 : emitter :=
  perform (Mods := Example.modules) (Fns := Example.listeners)
    (RemoveListener "test" Example.handler1) listening1.

Definition reopened1 : emitter :=
  perform (Mods := Example.modules) (Fns := Example.listeners)
    (AddListener "test" Example.handler1) closed1.

(** * Properties *)

(** ** Digests and character codes *)

Lemma code_of_bounds (c : ascii) : 0 <= code_of c <= 255.
Proof.
  unfold code_of. pose proof (N_ascii_bounded c). lia.
Qed.

Lemma charCodeAt_bounds (s : string) (i : nat) : 0 <= charCodeAt s i <= 255.
Proof.
  unfold charCodeAt. destruct (String.get i s).
  - apply code_of_bounds.
  - lia.
Qed.

Lemma length_string_of_list_ascii (l : list ascii) :
  String.length (string_of_list_ascii l) = length l.
Proof.
  induction l as [|c l IH]; simpl; [reflexivity | now rewrite IH].
Qed.

Lemma digest_length (bs : list Z) : length (MD5.digest bs) = 16%nat.
Proof.
  unfold MD5.digest. cbv zeta. rewrite !length_app. reflexivity.
Qed.

(** The digest is 128 bits long: 16 characters. *)
Lemma md5_length (value : string) : String.length (md5 value) = 16%nat.
Proof.
  unfold md5, of_codes.
  now rewrite length_string_of_list_ascii, length_map, digest_length.
Qed.

(** The figures of the README: group ['events'] gives 239.22.144.139 and
    event ['event-name'] the port 30618. *)
Example readme_address : deriveAddress "events" 239 = "239.22.144.139".
Proof. vm_compute. reflexivity. Qed.

Example readme_port :
  generatePort (this Example.emitter1) "event-name" = 30618.
Proof. vm_compute. reflexivity. Qed.

(** ** The constructor *)

(** What a successful construction has set. *)
Lemma EventEmitter_Ok (opts : Opts) (proc : process) (e : emitter) :
  fst (EventEmitter opts proc) = Ok e ->
  this_group (this e) = orString (opts_group opts) group
  /\ this_octet (this e) = orZ (opts_octet opts) octet
  /\ this_address (this e)
     = deriveAddress (this_group (this e)) (this_octet (this e))
  /\ ttlMin <= this_ttl (this e) <= ttlMax
  /\ octetMin <= this_octet (this e) <= octetMax
  /\ portMin <= this_port (this e) <= portMax
  /\ (this_foreignOnly (this e) = true -> this_loopback (this e) = true)
  /\ events e = default [] (opts_events opts)
  /\ listeners e = ∅
  /\ listenerKeys e = []
  /\ sockets e = []
  /\ generated e = []
  /\ pid e = process_pid proc.
Proof.
  unfold EventEmitter. cbn [fst].
  destruct (parseIntOf _) as [t|]; [|discriminate].
  destruct ((t <? ttlMin) || (t >? ttlMax)) eqn:Httl; [discriminate|].
  destruct (truthyOpt _ && negb _); [discriminate|].
  destruct (negb _ && _) eqn:Hfo; [discriminate|].
  destruct ((orZ (opts_octet opts) octet <? octetMin) || _) eqn:Hoct;
    [discriminate|].
  destruct ((orZ (opts_port opts) port <? portMin) || _) eqn:Hport;
    [discriminate|].
  intros [= <-]. cbn.
  apply orb_false_iff in Httl as [? ?], Hoct as [? ?], Hport as [? ?].
  repeat split; try lia; try (destruct (opts_events opts); reflexivity).
  intros Hf. rewrite Hf in Hfo.
  destruct (opts_loopback opts) as [[]|]; cbn in *; congruence.
Qed.

(** C6, the failing input.  [new EventEmitter({ttl: 0})] does not throw:
    [opts.ttl || ttl] replaces the 0 by the default before the range test,
    and the emitter is built with a ttl of 64. *)
Theorem EventEmitter_ttl_zero_accepted :
  forall proc : process,
    exists e : emitter,
      fst (EventEmitter
             (Build_Opts None None None None (Some (JNum 0)) None None None
                         None None None None) proc) = Ok e
      /\ this_ttl (this e) = 64.
Proof.
  intros proc. eexists. split; reflexivity.
Qed.

(** The same value written as a string reaches the range test and is
    refused, as every other value below [ttlMin] is. *)
Lemma EventEmitter_ttl_zero_string (proc : process) :
  fst (EventEmitter
         (Build_Opts None None None None (Some (JStr "0")) None None None
                     None None None None) proc) = Throw TtlOutOfRange.
Proof. reflexivity. Qed.

(** An integer below 2^53 is read back as it is. *)
Lemma parseIntOf_small (t : Z) :
  Z.abs t < 2 ^ 53 -> parseIntOf (JNum t) = Some t.
Proof.
  intros Hsmall. unfold parseIntOf, toNumber.
  assert (Hlog : Z.log2 (Z.abs t) - 52 <= 0).
  { destruct (Z.eq_dec (Z.abs t) 0) as [->|Hnz]; [cbn; lia|].
    assert (Z.log2 (Z.abs t) < 53) by (apply Z.log2_lt_pow2; lia). lia. }
  destruct (Z.leb_spec (Z.log2 (Z.abs t) - 52) 0); [|lia].
  destruct (Z.ltb_spec (Z.abs t) (10 ^ 21)); [reflexivity|].
  assert (2 ^ 53 < 10 ^ 21) by reflexivity. lia.
Qed.

Lemma EventEmitter_ttl_out_of_range (opts : Opts) (proc : process) (t : Z) :
  opts_ttl opts = Some (JNum t) ->
  Z.abs t < 2 ^ 53 ->
  t <> 0 -> (t < ttlMin \/ ttlMax < t) ->
  fst (EventEmitter opts proc) = Throw TtlOutOfRange.
Proof.
  intros Ht Hsmall Hnz Hrange. unfold EventEmitter. rewrite Ht.
  cbn [truthyNum]. unfold truthyZ.
  destruct (Z.eqb_spec t 0) as [|_]; [contradiction|]. cbn [negb].
  rewrite (parseIntOf_small t Hsmall). cbn [fst].
  destruct ((t <? ttlMin) || (t >? ttlMax)) eqn:Hb; [reflexivity|].
  apply orb_false_iff in Hb as [? ?]. lia.
Qed.

(** A ttl of 256 is refused whatever the other options are. *)
Lemma EventEmitter_ttl_256 (opts : Opts) (proc : process) :
  opts_ttl opts = Some (JNum 256) ->
  fst (EventEmitter opts proc) = Throw TtlOutOfRange.
Proof.
  intros Ht. apply (EventEmitter_ttl_out_of_range opts proc 256 Ht);
    unfold ttlMax; lia.
Qed.

(** [foreignOnly] without [loopback] is refused: the constructor throws one
    of its configuration errors, the one about [foreignOnly] unless the ttl
    or the interface was refused first. *)
Lemma EventEmitter_foreignOnly_without_loopback (opts : Opts) (proc : process) :
  opts_foreignOnly opts = Some true ->
  opts_loopback opts = Some false ->
  exists err,
    fst (EventEmitter opts proc) = Throw err
    /\ classify err = ConfigError
    /\ (err = ForeignOnlyWithoutLoopback \/ err = TtlOutOfRange
        \/ err = InvalidInterface).
Proof.
  intros Hf Hl. unfold EventEmitter. rewrite Hf, Hl. cbn [fst].
  destruct (parseIntOf _) as [t|]; [|eauto 6].
  destruct ((t <? ttlMin) || (t >? ttlMax)); [eauto 6|].
  destruct (truthyOpt _ && negb _); [eauto 6|].
  cbn. eauto 6.
Qed.

(** ** The address *)

Lemma append_String (c : ascii) (s t : string) :
  String c s +:+ t = String c (s +:+ t).
Proof. reflexivity. Qed.

Lemma append_empty (t : string) : "" +:+ t = t.
Proof. reflexivity. Qed.

Lemma rests_app (r : Re.t) :
  forall s suf x : string,
    In x (Re.rests r s) -> In (x +:+ suf) (Re.rests r (s +:+ suf)).
Proof.
  induction r as [c|lo hi| |r1 IH1 r2 IH2|r1 IH1 r2 IH2|r1 IH1];
    intros s suf x; cbn [Re.rests].
  - destruct s as [|d s']; cbn; [intros []|]. rewrite append_String.
    destruct (Ascii.eqb c d); cbn; [|intros []].
    intros [<-|[]]. now left.
  - destruct s as [|d s']; cbn; [intros []|]. rewrite append_String.
    destruct (Re.inRange lo hi d); cbn; [|intros []].
    intros [<-|[]]. now left.
  - destruct s as [|d s']; cbn; [intros []|]. rewrite append_String.
    destruct (isDigit d); cbn; [|intros []].
    intros [<-|[]]. now left.
  - intros Hin. apply in_concat in Hin as (l & Hl & Hx).
    apply in_map_iff in Hl as (y & <- & Hy).
    apply in_concat. exists (Re.rests r2 (y +:+ suf)). split.
    + apply in_map_iff. exists (y +:+ suf). split; [reflexivity|].
      now apply IH1.
    + now apply IH2.
  - intros Hin. apply in_app_iff in Hin as [Hin|Hin]; apply in_app_iff;
      [left; now apply IH1 | right; now apply IH2].
  - intros Hin. apply in_app_iff in Hin as [Hin|Hin]; apply in_app_iff;
      [left; now apply IH1 | right].
    cbn in Hin. destruct Hin as [<-|[]]. now left.
Qed.

Lemma matchesAt_app (r : Re.t) (s suf : string) :
  Re.matchesAt r s = true -> Re.matchesAt r (s +:+ suf) = true.
Proof.
  unfold Re.matchesAt. destruct (Re.rests r s) as [|x l] eqn:Hr; [discriminate|].
  intros _. pose proof (rests_app r s suf x) as Hin. rewrite Hr in Hin.
  specialize (Hin (or_introl eq_refl)).
  destruct (Re.rests r (s +:+ suf)); [contradiction | reflexivity].
Qed.

Lemma test_app_r (r : Re.t) (s suf : string) :
  Re.test r s = true -> Re.test r (s +:+ suf) = true.
Proof.
  induction s as [|c s IH]; cbn [Re.test]; intros Ht.
  - rewrite orb_false_r in Ht.
    apply (matchesAt_app r "" suf) in Ht. rewrite append_empty in *.
    destruct suf; cbn [Re.test]; rewrite Ht; reflexivity.
  - apply orb_true_iff in Ht as [Ht|Ht].
    + apply (matchesAt_app r _ suf) in Ht. rewrite append_String in *.
      cbn [Re.test]. now rewrite Ht.
    + rewrite append_String. cbn [Re.test]. rewrite (IH Ht).
      apply orb_true_r.
Qed.

Lemma test_app_l (r : Re.t) (pre s : string) :
  Re.test r s = true -> Re.test r (pre +:+ s) = true.
Proof.
  intros Ht. induction pre as [|c pre IH]; [exact Ht|].
  rewrite append_String. cbn [Re.test]. rewrite IH. apply orb_true_r.
Qed.

Lemma whole_test (r : Re.t) (s : string) :
  Re.whole r s = true -> Re.test r s = true.
Proof.
  unfold Re.whole. intros Hw.
  assert (Hm : Re.matchesAt r s = true).
  { unfold Re.matchesAt. destruct (Re.rests r s); [discriminate | reflexivity]. }
  destruct s; cbn [Re.test]; rewrite Hm; reflexivity.
Qed.

(** The test has no anchor: a string that holds a multicast address
    anywhere passes it. *)
Lemma isMulticastAddress_substring (pre ip suf : string) :
  multicastSyntax ip = true ->
  isMulticastAddress (pre +:+ ip +:+ suf) = true.
Proof.
  intros Hs. unfold isMulticastAddress.
  apply test_app_l, test_app_r, whole_test, Hs.
Qed.

Lemma isMulticastAddress_truthy (s : string) :
  isMulticastAddress s = true -> truthy s = true.
Proof. destruct s; [discriminate | reflexivity]. Qed.

(** C10.  A group that holds a multicast address anywhere inside it passes
    [isMulticastAddress], and the constructor takes the whole group string
    as the address, whatever surrounds the address inside it. *)
Theorem embedded_address_used_verbatim :
  forall (opts : Opts) (proc : process) (e : emitter) (pre ip suf : string),
    opts_group opts = Some (pre +:+ ip +:+ suf) ->
    multicastSyntax ip = true ->
    fst (EventEmitter opts proc) = Ok e ->
    isMulticastAddress (pre +:+ ip +:+ suf) = true
    /\ this_address (this e) = pre +:+ ip +:+ suf.
Proof.
  intros opts proc e pre ip suf Hg Hip Hok.
  pose proof (isMulticastAddress_substring pre ip suf Hip) as Hm.
  split; [exact Hm|].
  apply EventEmitter_Ok in Hok as (Hgroup & _ & Haddr & _).
  rewrite Haddr, Hgroup, Hg. cbn [orString].
  rewrite (isMulticastAddress_truthy _ Hm).
  unfold deriveAddress. now rewrite Hm.
Qed.

(** The group ['x239.1.1.1'] is not a multicast address, and is the address
    of the emitter built with it. *)
Lemma embedded_address_used_verbatim_witness :
  multicastSyntax "x239.1.1.1" = false
  /\ exists e : emitter,
       fst (EventEmitter
              (Build_Opts None None None None None None None None None None
                          (Some "x239.1.1.1") None) Example.proc) = Ok e
       /\ isMulticastAddress "x239.1.1.1" = true
       /\ this_address (this e) = "x239.1.1.1".
Proof.
  split; [reflexivity|].
  eexists. split; [reflexivity|].
  apply (embedded_address_used_verbatim
           (Build_Opts None None None None None None None None None None
                       (Some "x239.1.1.1") None)
           Example.proc _ "x" "239.1.1.1" "");
    reflexivity.
Defined.

(** C4, as the claim states it, fails on two inputs.  Group ['ape'] is no
    multicast address and its digest starts with the bytes 24, 0, 49: the
    third octet of the address is 0.  Group ['x239.1.1.1'] is no multicast
    address either, and its address is not made of digest bytes at all. *)
Lemma third_octet_counterexample :
  (multicastSyntax "ape" = false
   /\ isMulticastAddress "ape" = false
   /\ derivedOctets "ape" 239 = [239; 24; 0; 49]
   /\ deriveAddress "ape" 239 = "239.24.0.49")
  /\ (multicastSyntax "x239.1.1.1" = false
      /\ deriveAddress "x239.1.1.1" 239 = "x239.1.1.1").
Proof. vm_compute. repeat split; reflexivity. Qed.

(** C4, amended.  For a group in which [isMulticastAddress] finds no
    address, the address is the octet followed by the first three bytes of
    the 16-byte digest of the group, the last of them replaced by 1 when it
    is 0 or 255: the fourth octet of the address lies between 1 and 254, the
    second and the third are the digest bytes as they are.  Two emitters
    built with the same group and octet options have the same address. *)
Theorem derived_address :
  (forall (group : string) (octet : Z),
      isMulticastAddress group = false ->
      exists b0 b1 b2 : Z,
        String.length (md5 group) = 16%nat
        /\ b0 = charCodeAt (md5 group) 0
        /\ b1 = charCodeAt (md5 group) 1
        /\ b2 = (if (charCodeAt (md5 group) 2 =? 0)
                    || (charCodeAt (md5 group) 2 =? 255)
                 then 1 else charCodeAt (md5 group) 2)
        /\ 0 <= b0 <= 255 /\ 0 <= b1 <= 255 /\ 1 <= b2 <= 254
        /\ deriveAddress group octet
           = String.concat "." (map toString [octet; b0; b1; b2]))
  /\ (forall (opts1 opts2 : Opts) (proc1 proc2 : process) (e1 e2 : emitter),
         opts_group opts1 = opts_group opts2 ->
         opts_octet opts1 = opts_octet opts2 ->
         fst (EventEmitter opts1 proc1) = Ok e1 ->
         fst (EventEmitter opts2 proc2) = Ok e2 ->
         this_address (this e1) = this_address (this e2)).
Proof.
  split.
  - intros group octet Hno.
    eexists _, _, _. split; [apply md5_length|].
    do 3 (split; [reflexivity|]).
    split; [apply charCodeAt_bounds|]. split; [apply charCodeAt_bounds|].
    split.
    + pose proof (charCodeAt_bounds (md5 group) 2) as Hb.
      destruct (Z.eqb_spec (charCodeAt (md5 group) 2) 0) as [|H0];
        [cbn [orb]; lia|].
      destruct (Z.eqb_spec (charCodeAt (md5 group) 2) 255) as [|H255];
        [cbn [orb]; lia|].
      cbn [orb]. lia.
    + unfold deriveAddress. rewrite Hno. reflexivity.
  - intros opts1 opts2 proc1 proc2 e1 e2 Hg Ho H1 H2.
    apply EventEmitter_Ok in H1 as (Hg1 & Ho1 & Ha1 & _).
    apply EventEmitter_Ok in H2 as (Hg2 & Ho2 & Ha2 & _).
    rewrite Ha1, Ha2, Hg1, Hg2, Ho1, Ho2, Hg, Ho. reflexivity.
Qed.

(** Group ['orders'], whose digest has a 0 as third byte, and two emitters
    built in different processes. *)
Lemma derived_address_witness :
  deriveAddress "orders" 239 = "239.18.197.1"
  /\ this_address (this Example.emitter1)
     = this_address (this (Example.built Example.noOpts (Process 7 [] 3))).
Proof.
  split.
  - destruct (proj1 derived_address "orders" 239 eq_refl)
      as (b0 & b1 & b2 & _ & -> & -> & -> & _ & _ & _ & ->).
    vm_compute. reflexivity.
  - rewrite (proj2 derived_address Example.noOpts Example.noOpts
               Example.proc (Process 7 [] 3) Example.emitter1
               (Example.built Example.noOpts (Process 7 [] 3))
               eq_refl eq_refl eq_refl eq_refl).
    reflexivity.
Defined.

(** ** Tables *)

Lemma get_set_eq {V} (k : string) (v : V) (o : Obj.t V) :
  Obj.get k (Obj.set k v o) = Some v.
Proof.
  induction o as [|[k' v'] o IH]; cbn.
  - now rewrite String.eqb_refl.
  - destruct (String.eqb_spec k' k) as [->|Hne]; cbn.
    + now rewrite String.eqb_refl.
    + destruct (String.eqb_spec k' k); [contradiction | exact IH].
Qed.

Lemma get_set_ne {V} (k k' : string) (v : V) (o : Obj.t V) :
  k <> k' -> Obj.get k' (Obj.set k v o) = Obj.get k' o.
Proof.
  intros Hne. induction o as [|[k0 v0] o IH]; cbn.
  - destruct (String.eqb_spec k k'); [contradiction | reflexivity].
  - destruct (String.eqb_spec k0 k) as [->|Hk0]; cbn.
    + destruct (String.eqb_spec k k'); [contradiction | reflexivity].
    + destruct (String.eqb_spec k0 k'); [reflexivity | exact IH].
Qed.

Lemma get_set_None {V} (k k' : string) (v : V) (o : Obj.t V) :
  Obj.get k' (Obj.set k v o) = None -> Obj.get k' o = None /\ k <> k'.
Proof.
  intros Hg. destruct (String.eqb_spec k k') as [->|Hne].
  - now rewrite get_set_eq in Hg.
  - now rewrite get_set_ne in Hg.
Qed.
Lemma has_get {V} (k : string) (o : Obj.t V) :
  Obj.has k o = true <-> is_Some (Obj.get k o).
Proof.
  unfold Obj.has. destruct (Obj.get k o); split; intros H; eauto;
    try discriminate. now destruct H.
Qed.

Lemma get_write_ne (k k' : string) (v : Z) (o : Obj.t Z) :
  k <> k' -> Obj.get k' (Obj.write k v o) = Obj.get k' o.
Proof.
  intros Hne. unfold Obj.write.
  destruct (negb (Obj.has k o) && String.eqb k "__proto__"); [reflexivity|].
  now apply get_set_ne.
Qed.

(** An assignment to a key that is not there: the key now holds the
    value, unless it is ['__proto__']. *)
Lemma get_write_new (k : string) (v : Z) (o : Obj.t Z) :
  Obj.get k o = None ->
  Obj.get k (Obj.write k v o)
  = if String.eqb k "__proto__" then None else Some v.
Proof.
  intros Hnone. unfold Obj.write, Obj.has. rewrite Hnone. cbn [negb andb].
  destruct (String.eqb k "__proto__"); [exact Hnone | apply get_set_eq].
Qed.

Lemma read_own (k : string) (p : Z) (o : Obj.t Z) :
  Obj.get k o = Some p -> Obj.read k o = JNumber p.
Proof. intros Hg. unfold Obj.read. now rewrite Hg. Qed.

Lemma isInherited_proto : Obj.isInherited "__proto__" = true.
Proof. reflexivity. Qed.

Lemma isInherited_hasOwnProperty : Obj.isInherited "hasOwnProperty" = true.
Proof. reflexivity. Qed.

(** ** Ports *)

Section Ports.

Context {Mods : Modules} {Fns : Listeners}.

Lemma bind_ret {A B} (a : A) (k : A -> M B) (st : emitter) :
  bind (ret a) k st = k a st.
Proof. reflexivity. Qed.

Lemma bind_throw {A B} (e : error) (k : A -> M B) (st : emitter) :
  bind (throw e) k st = (Throw e, st).
Proof. reflexivity. Qed.

Lemma bind_gets {A B} (f : emitter -> A) (k : A -> M B) (st : emitter) :
  bind (gets f) k st = k (f st) st.
Proof. reflexivity. Qed.

Lemma bind_modify {B} (f : emitter -> emitter) (k : unit -> M B)
  (st : emitter) :
  bind (modify f) k st = k tt (f st).
Proof. reflexivity. Qed.

Lemma bind_lift {A B} (r : result A) (k : A -> M B) (st : emitter) :
  bind (lift r) k st
  = match r with
    | Ok a => k a st
    | Throw e => (Throw e, st)
    end.
Proof. destruct r; reflexivity. Qed.

Lemma bind_bind {A B C} (m : M A) (k1 : A -> M B) (k2 : B -> M C)
  (st : emitter) :
  bind (bind m k1) k2 st = bind m (fun a => bind (k1 a) k2) st.
Proof. unfold bind. destruct (m st) as [[a|e] st']; reflexivity. Qed.

Lemma bind_Ok {A B} (m : M A) (k : A -> M B) (st st' : emitter) (a : A) :
  m st = (Ok a, st') -> bind m k st = k a st'.
Proof. intros Hm. unfold bind. now rewrite Hm. Qed.

Lemma bind_Throw {A B} (m : M A) (k : A -> M B) (st st' : emitter)
  (e : error) :
  m st = (Throw e, st') -> bind m k st = (Throw e, st').
Proof. intros Hm. unfold bind. now rewrite Hm. Qed.

Lemma hasOwnEvent_run (event : string) (st : emitter) :
  sound st ->
  hasOwnEvent event st = (Ok (Obj.has event (events st)), st).
Proof.
  intros Hs. unfold hasOwnEvent. rewrite bind_gets. now rewrite Hs.
Qed.

Lemma hasOwnEvent_poisoned (event : string) (st : emitter) :
  ~ sound st -> hasOwnEvent event st = (Throw TypeError, st).
Proof.
  intros Hs. unfold hasOwnEvent. rewrite bind_gets. unfold sound in Hs.
  destruct (Obj.get "hasOwnProperty" (events st)); [reflexivity|].
  now contradiction Hs.
Qed.

(** [getPort] on a table that has its method: the port is returned, after
    it was generated and stored if the table did not hold it. *)
Lemma getPort_run (event : string) (st : emitter) :
  truthy event = true ->
  sound st ->
  getPort event st = (Ok (portValue event st), cache event st).
Proof.
  intros Ht Hs. unfold getPort, portValue, cache. rewrite Ht. cbn [negb].
  rewrite (bind_Ok _ _ _ _ _ (hasOwnEvent_run _ _ Hs)).
  unfold Obj.has. destruct (Obj.get event (events st)); reflexivity.
Qed.

(** [getPort] on a table with a key ['hasOwnProperty']. *)
Lemma getPort_poisoned (event : string) (st : emitter) :
  truthy event = true ->
  ~ sound st ->
  getPort event st = (Throw TypeError, st).
Proof.
  intros Ht Hs. unfold getPort. rewrite Ht. cbn [negb].
  now rewrite (bind_Throw _ _ _ _ _ (hasOwnEvent_poisoned _ _ Hs)).
Qed.

Lemma getPort_empty (st : emitter) :
  getPort "" st = (Throw RequiresEvent, st).
Proof. reflexivity. Qed.

Lemma truthy_false (event : string) : truthy event = false -> event = "".
Proof. destruct event; [reflexivity | discriminate]. Qed.

(** The three ways of [getPort]. *)
Lemma getPort_cases (event : string) (st : emitter) :
  (truthy event = true /\ sound st
   /\ getPort event st = (Ok (portValue event st), cache event st))
  \/ (truthy event = true /\ ~ sound st
      /\ getPort event st = (Throw TypeError, st))
  \/ (event = "" /\ getPort event st = (Throw RequiresEvent, st)).
Proof.
  destruct (truthy event) eqn:Ht.
  - destruct (decide (sound st)) as [Hs|Hs].
    + left. auto using getPort_run.
    + right. left. auto using getPort_poisoned.
  - right. right. apply truthy_false in Ht. subst. auto using getPort_empty.
Qed.

Lemma portValue_own (event : string) (p : Z) (st : emitter) :
  Obj.get event (events st) = Some p -> portValue event st = JNumber p.
Proof.
  intros Hg. unfold portValue, cache. rewrite Hg. now apply read_own.
Qed.

Lemma cache_own (event : string) (st : emitter) :
  is_Some (Obj.get event (events st)) -> cache event st = st.
Proof. intros [p Hp]. unfold cache. now rewrite Hp. Qed.

(** The port of an event that the table can store. *)
Lemma cache_cached (event : string) (st : emitter) :
  event <> "__proto__" ->
  Obj.get event (events (cache event st)) = Some (portOf event st).
Proof.
  intros Hne. unfold cache, portOf.
  destruct (Obj.get event (events st)) eqn:Hg; [exact Hg|].
  cbn [events with_events]. rewrite get_write_new by exact Hg.
  destruct (String.eqb_spec event "__proto__"); [contradiction | reflexivity].
Qed.

Lemma portValue_stored (event : string) (st : emitter) :
  event <> "__proto__" -> portValue event st = JNumber (portOf event st).
Proof.
  intros Hne. unfold portValue. apply read_own. now apply cache_cached.
Qed.

Lemma cache_other (event k : string) (st : emitter) :
  event <> k ->
  Obj.get k (events (cache event st)) = Obj.get k (events st).
Proof.
  intros Hne. unfold cache.
  destruct (Obj.get event (events st)); [reflexivity|].
  cbn [events with_events]. now apply get_write_ne.
Qed.

(** [getPort] never takes an entry of the table away, nor changes one. *)
Lemma cache_grows (event k : string) (p : Z) (st : emitter) :
  Obj.get k (events st) = Some p ->
  Obj.get k (events (cache event st)) = Some p.
Proof.
  intros Hk. destruct (String.eqb_spec event k) as [->|Hne].
  - rewrite cache_own; eauto.
  - now rewrite cache_other.
Qed.



Lemma cache_this (event : string) (st : emitter) :
  this (cache event st) = this st.
Proof. unfold cache. now destruct (Obj.get event (events st)). Qed.

Lemma cache_listeners (event : string) (st : emitter) :
  listeners (cache event st) = listeners st.
Proof. unfold cache. now destruct (Obj.get event (events st)). Qed.

Lemma cache_listenerKeys (event : string) (st : emitter) :
  listenerKeys (cache event st) = listenerKeys st.
Proof. unfold cache. now destruct (Obj.get event (events st)). Qed.

Lemma cache_sockets (event : string) (st : emitter) :
  sockets (cache event st) = sockets st.
Proof. unfold cache. now destruct (Obj.get event (events st)). Qed.

Lemma cache_sent (event : string) (st : emitter) :
  sent (cache event st) = sent st.
Proof. unfold cache. now destruct (Obj.get event (events st)). Qed.

Lemma cache_ticks (event : string) (st : emitter) :
  ticks (cache event st) = ticks st.
Proof. unfold cache. now destruct (Obj.get event (events st)). Qed.

Lemma cache_pid (event : string) (st : emitter) :
  pid (cache event st) = pid st.
Proof. unfold cache. now destruct (Obj.get event (events st)). Qed.

(** [cache] commutes with the changes of the other fields. *)
Lemma cache_with_listeners (event : string) (l : gmap string channel)
  (st : emitter) :
  cache event (with_listeners l st) = with_listeners l (cache event st).
Proof. unfold cache. cbn. now destruct (Obj.get event (events st)). Qed.

Lemma cache_with_listenerKeys (event : string) (k : list string)
  (st : emitter) :
  cache event (with_listenerKeys k st) = with_listenerKeys k (cache event st).
Proof. unfold cache. cbn. now destruct (Obj.get event (events st)). Qed.

Lemma cache_with_sockets (event : string) (s : list socket) (st : emitter) :
  cache event (with_sockets s st) = with_sockets s (cache event st).
Proof. unfold cache. cbn. now destruct (Obj.get event (events st)). Qed.

(** The table keeps its method unless the port of ['hasOwnProperty']
    itself was asked for. *)
Lemma sound_cache (event : string) (st : emitter) :
  event <> "hasOwnProperty" -> sound st -> sound (cache event st).
Proof.
  intros Hne Hs. unfold sound. now rewrite cache_other.
Qed.

Lemma cache_sound (event : string) (st : emitter) :
  sound (cache event st) -> sound st.
Proof.
  unfold sound. intros Hs.
  destruct (Obj.get "hasOwnProperty" (events st)) as [p|] eqn:Hp;
    [|reflexivity].
  now rewrite (cache_grows event _ _ _ Hp) in Hs.
Qed.

Lemma cache_poisons (st : emitter) :
  ~ sound (cache "hasOwnProperty" st).
Proof.
  unfold sound. rewrite cache_cached by discriminate. discriminate.
Qed.

Lemma generatePort_offset (c : config) (event : string) :
  let hash := md5 (this_id c +:+ "::" +:+ this_group c +:+ "::" +:+ event) in
  let low := charCodeAt hash 15 in
  let high := Z.rem (charCodeAt hash 14) 128 in
  generatePort c event = this_port c + (low + 256 * high)
  /\ 0 <= low <= 255 /\ 0 <= high <= 127
  /\ 0 <= low + 256 * high <= 32767.
Proof.
  intros hash low high. unfold generatePort. fold hash.
  unfold hash at 2 4. rewrite md5_length. cbn [Nat.sub]. fold hash.
  pose proof (charCodeAt_bounds hash 15) as Hl.
  pose proof (charCodeAt_bounds hash 14) as Hh.
  assert (0 <= high < 128)
    by (apply Z.rem_bound_pos; lia).
  subst low high. repeat split; lia.
Qed.

Lemma generatePort_above (c : config) (event : string) :
  this_port c <= generatePort c event.
Proof.
  destruct (generatePort_offset c event) as (-> & _ & _ & ?). lia.
Qed.

Lemma hasReceiver_run (event : string) (st : emitter) :
  truthy event = true ->
  hasReceiver event st
  = (Ok match listeners st !! event with
        | Some _ => true
        | None => false
        end, st).
Proof. intros Ht. unfold hasReceiver. now rewrite Ht. Qed.

Lemma hasListeners_run (event : string) (st : emitter) :
  truthy event = true ->
  hasListeners event st
  = (Ok match listeners st !! event with
        | Some ch => (0 <? length (handlers ch))%nat
        | None => false
        end, st).
Proof. intros Ht. unfold hasListeners. now rewrite Ht. Qed.

Lemma alter_new {A} (f : A -> A) (l : list A) (x : A) :
  alter f (length l) (l ++ [x]) = l ++ [f x].
Proof.
  induction l as [|a l IH]; cbn; [reflexivity | now rewrite IH].
Qed.

Lemma emitter_ext (a b : emitter) :
  this a = this b -> events a = events b -> listeners a = listeners b ->
  listenerKeys a = listenerKeys b ->
  sockets a = sockets b -> sent a = sent b -> ticks a = ticks b ->
  pid a = pid b -> generated a = generated b -> a = b.
Proof. destruct a, b; cbn; congruence. Qed.

(** The loop of [hasEventWithPort] on a table that has its method: the
    first key, in the order of enumeration, that holds the port. *)
Lemma forIn_run (p : jsval) (st : emitter) :
  sound st ->
  forall keys : list string,
    Forall (fun k => Obj.has k (events st) = true) keys ->
    forIn p keys st
    = (Ok (find (fun prp => strictEq (Obj.read prp (events st)) p) keys), st).
Proof.
  intros Hs. induction 1 as [|k keys Hk Hkeys IH]; [reflexivity|].
  cbn [forIn find].
  rewrite (bind_Ok _ _ _ _ _ (hasOwnEvent_run _ _ Hs)), Hk, bind_gets.
  destruct (strictEq _ p); [reflexivity | exact IH].
Qed.

(** On a table without its method the loop throws at the first key. *)
Lemma forIn_poisoned (p : jsval) (st : emitter) (keys : list string) :
  ~ sound st ->
  forIn p keys st
  = (match keys with
     | [] => Ok None
     | _ :: _ => Throw TypeError
     end, st).
Proof.
  intros Hs. destruct keys as [|k keys]; [reflexivity|].
  cbn [forIn]. now rewrite (bind_Throw _ _ _ _ _ (hasOwnEvent_poisoned _ _ Hs)).
Qed.

Lemma forIn_state (p : jsval) (keys : list string) (st : emitter) :
  snd (forIn p keys st) = st.
Proof.
  destruct (decide (sound st)) as [Hs|Hs].
  - induction keys as [|k keys IH]; [reflexivity|].
    cbn [forIn].
    rewrite (bind_Ok _ _ _ _ _ (hasOwnEvent_run _ _ Hs)).
    destruct (Obj.has k (events st)); [|exact IH].
    rewrite bind_gets. destruct (strictEq _ p); [reflexivity | exact IH].
  - rewrite forIn_poisoned by exact Hs. reflexivity.
Qed.

End Ports.

Arguments generatePort : simpl never.
Arguments md5 : simpl never.

(** ** The methods, step by step *)

Section Within.

Context (R : relation emitter) `{!PreOrder R}.

Lemma within_ret {A} (a : A) : within R (ret a).
Proof. intros st. reflexivity. Qed.

Lemma within_throw {A} (e : error) : within R (@throw A e).
Proof. intros st. reflexivity. Qed.

Lemma within_gets {A} (f : emitter -> A) : within R (gets f).
Proof. intros st. reflexivity. Qed.

Lemma within_lift {A} (r : result A) : within R (lift r).
Proof. intros st. reflexivity. Qed.

Lemma within_bind {A B} (m : M A) (k : A -> M B) :
  within R m -> (forall a, within R (k a)) -> within R (bind m k).
Proof.
  intros Hm Hk st. unfold bind. specialize (Hm st).
  destruct (m st) as [[a|e] st']; cbn [snd] in *; [|exact Hm].
  etransitivity; [exact Hm | apply Hk].
Qed.

(** A value read from the emitter, and what is done with it there. *)
Lemma within_gets_bind {A B} (f : emitter -> A) (k : A -> M B) :
  (forall st, R st (snd (k (f st) st))) -> within R (bind (gets f) k).
Proof. intros Hk st. apply Hk. Qed.

Lemma within_forEach {A} (f : A -> M unit) (l : list A) :
  (forall a, within R (f a)) -> within R (forEach f l).
Proof.
  intros Hf. induction l as [|a l IH]; cbn [forEach].
  - apply within_ret.
  - apply within_bind; [apply Hf | intros _; exact IH].
Qed.

End Within.

Section Steps.

Context {Mods : Modules} {Fns : Listeners}.

Lemma hasOwnEvent_state (event : string) (st : emitter) :
  snd (hasOwnEvent event st) = st.
Proof.
  unfold hasOwnEvent. rewrite bind_gets.
  now destruct (Obj.get "hasOwnProperty" (events st)).
Qed.

Lemma getPort_steps (event : string) : within steps (getPort event).
Proof.
  intros st.
  destruct (getPort_cases event st)
    as [(Ht & Hs & ->)|[(Ht & Hs & ->)|(-> & ->)]]; cbn [snd];
    [|reflexivity..].
  apply rtc_once. now apply step_cache.
Qed.

Lemma hasReceiver_steps (event : string) : within steps (hasReceiver event).
Proof. intros st. unfold hasReceiver. now destruct (truthy event). Qed.

Lemma hasListeners_steps (event : string) : within steps (hasListeners event).
Proof. intros st. unfold hasListeners. now destruct (truthy event). Qed.

(** What [hasReceiver] returned tells whether the event has a channel. *)
Lemma within_hasReceiver_bind {B} (R : relation emitter) `{!PreOrder R}
  (event : string) (k : bool -> M B) :
  (forall st,
      truthy event = true ->
      R st (snd (k match listeners st !! event with
                   | Some _ => true
                   | None => false
                   end st))) ->
  within R (bind (hasReceiver event) k).
Proof.
  intros Hk st. destruct (truthy event) eqn:Ht.
  - rewrite (bind_Ok _ _ _ _ _ (hasReceiver_run _ _ Ht)). now apply Hk.
  - unfold hasReceiver. rewrite Ht. reflexivity.
Qed.

Lemma hasEventWithPort_steps (event : string) (ch : channel) (st : emitter) :
  listeners st !! event = Some ch ->
  handlers ch <> [] ->
  steps st (snd (hasEventWithPort event (Obj.read event (events st)) st)).
Proof.
  intros Hch Hne. unfold hasEventWithPort.
  destruct (truthyVal (Obj.read event (events st))) eqn:Hp.
  - rewrite bind_ret, bind_gets, forIn_state. reflexivity.
  - rewrite bind_bind. unfold generatePortCall at 1. unfold bind at 1.
    rewrite bind_ret, bind_gets, forIn_state.
    apply rtc_once. now apply (step_logged event ch).
Qed.

Lemma fullDefined_steps (event : string) (st : emitter) :
  steps st (snd (fullDefined event (Obj.read event (events st)) st)).
Proof.
  unfold fullDefined. destruct (truthy event) eqn:Ht.
  - rewrite (bind_Ok _ _ _ _ _ (hasReceiver_run _ _ Ht)).
    destruct (listeners st !! event) as [ch|] eqn:Hch; [|reflexivity].
    rewrite (bind_Ok _ _ _ _ _ (hasListeners_run _ _ Ht)), Hch.
    destruct (handlers ch) as [|h hs] eqn:Hhs; [reflexivity|].
    cbn [length Nat.ltb Nat.leb].
    apply (hasEventWithPort_steps event ch); [exact Hch|].
    rewrite Hhs. discriminate.
  - unfold hasReceiver. rewrite Ht. reflexivity.
Qed.

(** The socket made, the channel assigned, the port asked for and [bind]
    called, on a table that has its method. *)
Lemma openReceiver_run (event : string) (st : emitter) :
  truthy event = true ->
  listeners st !! event = None ->
  sound st ->
  (receiver <~ createSocket event ;;
   assignChannel event receiver ;;;
   p <~ getPort event ;;
   a <~ getAddress ;;
   bindSocket receiver p a) st
  = (Ok tt, opened event st).
Proof.
  intros Ht Hnone Hs.
  unfold createSocket at 1. unfold bind at 1.
  unfold assignChannel. rewrite bind_modify.
  cbn [listeners with_sockets]. rewrite Hnone.
  fold (fresh event).
  change (if Obj.isInherited event then _ else _)
    with (stuck event st).
  assert (Hs' : sound (stuck event st)).
  { unfold stuck, assigned, sound in *.
    destruct (Obj.isInherited event); [destruct (String.eqb event _)|];
      exact Hs. }
  rewrite (bind_Ok _ _ _ _ _ (getPort_run _ _ Ht Hs')).
  unfold getAddress. rewrite bind_gets.
  unfold bindSocket, updateSocket, modify, opened, portValue.
  f_equal. rewrite cache_this, cache_sockets.
  assert (Hsock : sockets (stuck event st) = sockets st ++ [fresh event]).
  { unfold stuck, assigned.
    destruct (Obj.isInherited event); [destruct (String.eqb event _)|];
      reflexivity. }
  assert (Hthis : this (stuck event st) = this st).
  { unfold stuck, assigned.
    destruct (Obj.isInherited event); [destruct (String.eqb event _)|];
      reflexivity. }
  rewrite Hsock, Hthis, alter_new. reflexivity.
Qed.

(** The same on a table without its method: [getPort] throws, and [bind]
    is not called. *)
Lemma openReceiver_stuck (event : string) (st : emitter) :
  truthy event = true ->
  listeners st !! event = None ->
  ~ sound st ->
  (receiver <~ createSocket event ;;
   assignChannel event receiver ;;;
   p <~ getPort event ;;
   a <~ getAddress ;;
   bindSocket receiver p a) st
  = (Throw TypeError, stuck event st).
Proof.
  intros Ht Hnone Hs.
  unfold createSocket at 1. unfold bind at 1.
  unfold assignChannel. rewrite bind_modify.
  cbn [listeners with_sockets]. rewrite Hnone.
  fold (fresh event).
  change (if Obj.isInherited event then _ else _)
    with (stuck event st).
  assert (Hs' : ~ sound (stuck event st)).
  { unfold stuck, assigned, sound in *.
    destruct (Obj.isInherited event); [destruct (String.eqb event _)|];
      exact Hs. }
  now rewrite (bind_Throw _ _ _ _ _ (getPort_poisoned _ _ Ht Hs')).
Qed.

(** The listener pushed on the handlers of the channel. *)
Lemma push_steps (event : string) (listener : handler) :
  within steps
    (ch <~ gets (fun st => listeners st !! event) ;;
     match ch with
     | None => throw TypeError
     | Some ch =>
         modify (fun st =>
                   with_listeners
                     (<[event := Channel (receiver ch)
                                         (handlers ch ++ [listener])]>
                        (listeners st)) st)
     end ;;;
     _ <~ getPort event ;;
     ret tt).
Proof.
  apply (within_gets_bind steps). intros st.
  destruct (listeners st !! event) as [ch|] eqn:Hch.
  - rewrite bind_modify.
    etransitivity;
      [apply rtc_once, (step_handlers event ch (handlers ch ++ [listener]));
       exact Hch|].
    apply (within_bind steps); [apply getPort_steps |].
    intros _. apply (within_ret steps).
  - reflexivity.
Qed.

Lemma addListener_steps (event : string) (listener : handler) :
  within steps (addListener event listener).
Proof.
  intros st. unfold addListener. rewrite bind_gets.
  pose proof (fullDefined_steps event st) as Hfd.
  unfold bind at 1.
  destruct (fullDefined event _ st) as [[d|e] st1]; cbn [snd] in Hfd;
    [|exact Hfd].
  etransitivity; [exact Hfd|]. clear Hfd st. revert st1.
  apply (within_bind steps); [|].
  - destruct d as [d|]; [|apply (within_ret steps)].
    destruct (truthy d && negb (String.eqb d event));
      [|apply (within_ret steps)].
    apply (within_bind steps); [apply getPort_steps |].
    intros p. apply (within_throw steps).
  - intros _. apply (within_hasReceiver_bind steps).
    intros st Ht. destruct (listeners st !! event) as [ch|] eqn:Hch;
      cbn [negb].
    + rewrite bind_ret. apply push_steps.
    + destruct (decide (sound st)) as [Hs|Hs].
      * rewrite (bind_Ok _ _ _ _ _ (openReceiver_run _ _ Ht Hch Hs)).
        transitivity (opened event st);
          [apply rtc_once, step_opened; assumption|].
        apply push_steps.
      * rewrite (bind_Throw _ _ _ _ _ (openReceiver_stuck _ _ Ht Hch Hs)).
        apply rtc_once. now apply step_stuck.
Qed.

Lemma alter_alter {A} (f g : A -> A) (i : nat) (l : list A) :
  alter f i (alter g i l) = alter (fun x => f (g x)) i l.
Proof.
  revert i. induction l as [|a l IH]; intros [|i]; cbn; try reflexivity.
  now rewrite IH.
Qed.

Lemma closeChannel_steps (event : string) :
  within steps
    (ch <~ gets (fun st => listeners st !! event) ;;
     match ch with
     | None => throw TypeError
     | Some ch =>
         dropMembership (receiver ch) ;;;
         close (receiver ch) ;;;
         deleteChannel event ;;;
         _ <~ getPort event ;;
         ret tt
     end).
Proof.
  apply (within_gets_bind steps). intros st.
  destruct (listeners st !! event) as [ch|] eqn:Hch; [|reflexivity].
  destruct (sockets st !! receiver ch) as [s|] eqn:Hs.
  - destruct (sock_member s) eqn:Hm.
    + unfold dropMembership. rewrite bind_bind, bind_gets, Hs, Hm.
      unfold close, updateSocket, deleteChannel. rewrite !bind_modify.
      transitivity (leaving event (receiver ch) [] st);
        [apply rtc_once, (step_closed event ch s st Hch Hs Hm)|].
      match goal with
      | |- steps _ (snd (_ ?st')) =>
          replace st' with (leaving event (receiver ch) [] st)
      end.
      * apply (within_bind steps); [apply getPort_steps |].
        intros _. apply (within_ret steps).
      * unfold leaving, withoutKey.
        apply emitter_ext;
          cbn [this events listeners listenerKeys sockets sent ticks pid
               generated with_sockets with_listeners with_listenerKeys];
          try reflexivity.
        rewrite alter_alter. reflexivity.
    + unfold dropMembership. rewrite !bind_bind, bind_gets, Hs, Hm.
      reflexivity.
  - unfold dropMembership. rewrite !bind_bind, bind_gets, Hs. reflexivity.
Qed.

Lemma removeLoop_steps (event source : string) :
  forall (i : nat) (hs : list handler) (matched : bool),
    within steps (removeLoop event source i hs matched).
Proof.
  induction i as [|j IH]; intros hs matched; cbn [removeLoop].
  - apply (within_ret steps).
  - destruct (hs !! j) as [h|]; [|apply (within_throw steps)].
    destruct (String.eqb (fn_source h) source); [|apply IH].
    apply (within_bind steps); [|].
    + intros st. cbn.
      destruct (listeners st !! event) as [ch|] eqn:Hch; [|reflexivity].
      apply rtc_once, (step_handlers event ch); exact Hch.
    + intros _. apply (within_bind steps); [apply getPort_steps |].
      intros _. apply (within_bind steps); [| intros _; apply IH].
      destruct (length (delete j hs) =? 0)%nat;
        [apply closeChannel_steps | apply (within_ret steps)].
Qed.

Lemma removeListener_steps (event : string) (listener : handler) :
  within steps (removeListener event listener).
Proof.
  unfold removeListener.
  destruct (truthy event); [|apply (within_throw steps)]. cbn [negb].
  apply (within_bind steps); [apply hasListeners_steps |].
  intros []; [|apply (within_ret steps)].
  apply (within_bind steps); [apply (within_gets steps) |].
  intros [ch|]; [|apply (within_throw steps)].
  apply (within_bind steps); [apply removeLoop_steps |].
  intros []; cbn [negb]; [apply (within_ret steps)|].
  apply (within_bind steps); [apply getPort_steps |].
  intros _. apply (within_ret steps).
Qed.

Lemma removeWhile_steps (event : string) (bound : nat) :
  within steps (removeWhile bound event).
Proof.
  induction bound as [|n IH]; cbn [removeWhile];
    (apply (within_bind steps); [apply hasListeners_steps |]);
    intros []; try (apply (within_ret steps));
    try (apply (within_throw steps)).
  apply (within_bind steps); [apply (within_gets steps) |].
  intros [[r [|h hs]]|]; try (apply (within_throw steps)).
  apply (within_bind steps); [apply removeListener_steps |].
  intros _. exact IH.
Qed.

Lemma removeAllOf_steps (event : string) : within steps (removeAllOf event).
Proof.
  apply (within_bind steps); [apply (within_gets steps) |].
  intros n. apply removeWhile_steps.
Qed.

Lemma removeAllListeners_steps (event : option string) :
  within steps (removeAllListeners event).
Proof.
  unfold removeAllListeners. destruct (truthyOpt event).
  - apply removeAllOf_steps.
  - apply (within_bind steps); [apply (within_gets steps) |].
    intros keys. apply (within_forEach steps). intros e.
    destruct (truthy e); [apply removeAllOf_steps|].
    apply (within_throw steps).
Qed.

Lemma send_steps (data : list byte) (p : jsval) (a : string) :
  within steps (send data p a).
Proof.
  intros st. unfold send. destruct p as [|n|]; try reflexivity.
  destruct ((1 <=? n) && (n <=? 65535)); [|reflexivity].
  apply rtc_once, step_sent.
Qed.

Lemma _emit_steps (event : string) (args : list value) :
  within steps (_emit event args).
Proof.
  unfold _emit.
  apply (within_bind steps); [apply (within_gets steps) |]. intros c.
  apply (within_bind steps); [apply (within_lift steps) |]. intros m.
  apply (within_bind steps); [apply (within_gets steps) |]. intros p.
  apply (within_bind steps); [apply getPort_steps |]. intros q.
  apply (within_bind steps); [apply (within_gets steps) |]. intros a.
  apply (within_bind steps); [apply send_steps |]. intros _.
  apply (within_bind steps); [apply getPort_steps |]. intros _.
  apply (within_ret steps).
Qed.

Lemma emit_steps (event : string) (args : list value) :
  within steps (emit event args).
Proof. intros st. apply rtc_once, step_ticks. Qed.

Lemma nextTick_steps : within steps nextTick.
Proof.
  unfold nextTick.
  apply (within_gets_bind steps). intros st.
  destruct (ticks st) as [|[|[s|b|t] args] rest];
    try reflexivity; try (apply rtc_once, step_ticks).
  rewrite bind_modify.
  etransitivity; [apply rtc_once, (step_ticks rest) | apply _emit_steps].
Qed.

Lemma onListening_steps (sid : nat) : within steps (onListening sid).
Proof.
  unfold onListening.
  apply (within_gets_bind steps). intros st.
  destruct (sockets st !! sid) as [s|] eqn:Hs; [|reflexivity].
  destruct (sock_open s) eqn:Hopen; [|reflexivity].
  destruct (sock_listening s) eqn:Hl; [reflexivity|].
  destruct (isBound s) eqn:Hb; [|reflexivity]. cbn [andb negb].
  unfold updateSocket. rewrite bind_modify.
  etransitivity; [apply rtc_once, (step_joined sid s); assumption|].
  apply (within_bind steps); [apply getPort_steps |].
  intros _. apply (within_ret steps).
Qed.

Lemma applyHandler_steps (event : string) (h : handler) (data : list value) :
  within steps (applyHandler event h data).
Proof.
  unfold applyHandler. destruct (wrapped h); [|apply (within_ret steps)].
  apply (within_bind steps); [| intros inner; apply (within_ret steps)].
  apply (within_bind steps); [apply removeListener_steps |].
  intros _. apply (within_ret steps).
Qed.

Lemma forEachHandler_steps (event : string) (data : list value) :
  forall n k : nat, within steps (forEachHandler event data k n).
Proof.
  induction n as [|n IH]; intros k; cbn [forEachHandler].
  - apply (within_ret steps).
  - apply (within_bind steps); [apply (within_gets steps) |].
    intros hs. destruct (hs !! k); [|apply IH].
    apply (within_bind steps); [apply applyHandler_steps |].
    intros calls. apply (within_bind steps); [apply IH |].
    intros rest. apply (within_ret steps).
Qed.

Lemma handleEvent_steps (event : string) (msg : list byte) :
  within steps (handleEvent event msg).
Proof.
  unfold handleEvent.
  destruct (unpack msg) as [[|[s|b|t] data]|];
    try (apply (within_throw steps)).
  cbn [head tail].
  destruct (String.eqb event s); [|apply (within_throw steps)].
  apply (within_bind steps); [apply (within_gets steps) |].
  intros [ch|]; [apply forEachHandler_steps | apply (within_throw steps)].
Qed.

Lemma onMessage_steps (sid : nat) (msg : list byte) :
  within steps (onMessage sid msg).
Proof.
  unfold onMessage.
  apply (within_gets_bind steps). intros st.
  destruct (sockets st !! sid) as [s|]; [|reflexivity].
  destruct (sock_open s && sock_listening s); [|reflexivity].
  rewrite bind_gets.
  destruct (untag (pid st) (processMessage s) msg) as [msg' process].
  unfold updateSocket. rewrite bind_modify.
  etransitivity; [apply rtc_once, (step_process sid process)|].
  unfold setProcess. destruct process; [|reflexivity].
  apply (within_bind steps); [apply (within_gets steps) |]. intros c.
  apply (within_bind steps); [apply (within_lift steps) |]. intros d.
  apply handleEvent_steps.
Qed.

(** Every action is made of steps. *)
Lemma perform_steps (a : action) (st : emitter) : steps st (perform a st).
Proof.
  destruct a; cbn [perform].
  - apply addListener_steps.
  - apply removeListener_steps.
  - apply removeAllListeners_steps.
  - apply hasListeners_steps.
  - apply getPort_steps.
  - apply emit_steps.
  - apply nextTick_steps.
  - apply onListening_steps.
  - apply onMessage_steps.
Qed.

Lemma follows_steps (st0 st : emitter) : follows st0 st -> steps st0 st.
Proof.
  induction 1 as [|a st Hf IH]; [reflexivity|].
  etransitivity; [exact IH | apply perform_steps].
Qed.

End Steps.

(** ** What every state that follows a constructed one has *)

Lemma elem_of_addKey (k e : string) (ks : list string) :
  k ∈ addKey e ks <-> k = e \/ k ∈ ks.
Proof.
  unfold addKey. destruct (existsb (String.eqb e) ks) eqn:Hex.
  - split; [auto|]. intros [->|H]; [|exact H].
    apply existsb_exists in Hex as (x & Hin & Heq).
    apply String.eqb_eq in Heq. subst. now apply list_elem_of_In.
  - rewrite elem_of_app, list_elem_of_singleton. tauto.
Qed.

Lemma NoDup_addKey (e : string) (ks : list string) :
  NoDup ks -> NoDup (addKey e ks).
Proof.
  intros Hnd. unfold addKey. destruct (existsb (String.eqb e) ks) eqn:Hex;
    [exact Hnd|].
  apply NoDup_app. split; [exact Hnd|]. split; [|apply NoDup_singleton].
  intros x Hx Hx'. apply list_elem_of_singleton in Hx'. subst.
  assert (existsb (String.eqb e) ks = true); [|congruence].
  apply existsb_exists. exists e. split; [now apply list_elem_of_In|].
  apply String.eqb_refl.
Qed.

Lemma elem_of_withoutKey (k e : string) (ks : list string) :
  k ∈ withoutKey e ks <-> k <> e /\ k ∈ ks.
Proof.
  unfold withoutKey. rewrite !list_elem_of_In, filter_In, negb_true_iff.
  rewrite String.eqb_neq. tauto.
Qed.

Lemma NoDup_withoutKey (e : string) (ks : list string) :
  NoDup ks -> NoDup (withoutKey e ks).
Proof.
  induction 1 as [|x l Hx Hnd IH]; cbn; [constructor|].
  destruct (negb (String.eqb x e)); [|exact IH].
  constructor; [|exact IH].
  intros Hin. apply elem_of_withoutKey in Hin. tauto.
Qed.

Section Invariants.

Context {Mods : Modules} {Fns : Listeners}.

(** [shape] and [tuned] look at the channels, the keys, the sockets and
    the table only. *)
Lemma shape_ext (st st' : emitter) :
  listeners st' = listeners st ->
  listenerKeys st' = listenerKeys st ->
  sockets st' = sockets st ->
  shape st -> shape st'.
Proof.
  intros Hl Hk Hs [Hc Hso Hke].
  split; rewrite ?Hl, ?Hk, ?Hs; assumption.
Qed.

Lemma table_ext (st0 st st' : emitter) :
  this st' = this st ->
  events st' = events st ->
  generated st' = generated st ->
  table st0 st -> table st0 st'.
Proof.
  intros Ht He Hg [H1 H2 H3 H4]. unfold sound in *.
  split; unfold sound; rewrite ?Ht, ?He, ?Hg; assumption.
Qed.

Lemma tuned_ext (st st' : emitter) :
  this st' = this st ->
  events st' = events st ->
  sockets st' = sockets st ->
  tuned st -> tuned st'.
Proof.
  intros Ht He Hs H. unfold tuned, sound in *.
  rewrite Ht, He, Hs. exact H.
Qed.

(** A channel is the channel of a name that the table holds. *)
Lemma channel_cached (st : emitter) (ev : string) (ch : channel) :
  shape st -> tuned st -> sound st ->
  listeners st !! ev = Some ch ->
  is_Some (Obj.get ev (events st)).
Proof.
  intros Hsh Htu Hs Hch.
  destruct (shape_channel _ Hsh _ _ Hch) as (_ & Hinh & _ & s & Hso & _ & Hev).
  destruct (Htu Hs _ _ Hso) as (_ & [Hown|Hp] & _).
  - now rewrite Hev in Hown.
  - rewrite <- Hev, Hp in Hinh. discriminate.
Qed.

(** Two channels do not share a receiver. *)
Lemma receiver_inj (st : emitter) (ev ev' : string) (ch ch' : channel) :
  shape st ->
  listeners st !! ev = Some ch ->
  listeners st !! ev' = Some ch' ->
  receiver ch = receiver ch' -> ev = ev'.
Proof.
  intros Hsh H1 H2 Heq.
  destruct (shape_channel _ Hsh _ _ H1) as (_ & _ & _ & s & Hs & _ & He).
  destruct (shape_channel _ Hsh _ _ H2) as (_ & _ & _ & s' & Hs' & _ & He').
  rewrite Heq in Hs. congruence.
Qed.

Lemma get_proto_cache (e : string) (st : emitter) :
  Obj.get "__proto__" (events (cache e st))
  = Obj.get "__proto__" (events st).
Proof.
  destruct (String.eqb_spec e "__proto__") as [->|Hne].
  - unfold cache. destruct (Obj.get "__proto__" (events st)) eqn:Hg;
      [exact Hg|]. cbn [events with_events with_generated].
    rewrite get_write_new by exact Hg. reflexivity.
  - now apply cache_other.
Qed.

Lemma cache_generated (e : string) (st : emitter) :
  generated (cache e st)
  = match Obj.get e (events st) with
    | Some _ => generated st
    | None => generated st ++ [e]
    end.
Proof. unfold cache. now destruct (Obj.get e (events st)). Qed.

Lemma table_cache (st0 st : emitter) (e : string) :
  table st0 st -> table st0 (cache e st).
Proof.
  intros [H1 H2 H3 H4]. split.
  - intros k p Hk. apply cache_grows. now apply H1.
  - intros k p Hu Hk. rewrite cache_this.
    destruct (Obj.get k (events st)) as [p'|] eqn:Hg.
    + rewrite (cache_grows _ _ _ _ Hg) in Hk. injection Hk as <-.
      now apply H2.
    + destruct (String.eqb_spec e k) as [->|Hne].
      * destruct (String.eqb_spec k "__proto__") as [->|Hp].
        -- rewrite get_proto_cache in Hk. congruence.
        -- rewrite (cache_cached _ _ Hp) in Hk. injection Hk as <-.
           unfold portOf. now rewrite Hg.
      * rewrite (cache_other _ _ _ Hne) in Hk. congruence.
  - intros Hs. apply cache_sound in Hs. specialize (H3 Hs).
    specialize (H4 Hs). rewrite cache_generated.
    destruct (Obj.get e (events st)) as [p|] eqn:Hg; [exact H3|].
    rewrite filter_app. apply NoDup_app. split; [exact H3|].
    split; [|].
    + intros x Hx Hx'. apply list_elem_of_filter in Hx as [Hd Hx].
      apply list_elem_of_filter in Hx' as [_ Hx'].
      apply list_elem_of_singleton in Hx'. subst x.
      apply (H4 _ Hd) in Hx. rewrite Hg in Hx. now destruct Hx.
    + destruct (decide (derived st0 e)) as [Hd|Hd].
      * rewrite filter_cons_True by exact Hd. apply NoDup_singleton.
      * rewrite filter_cons_False by exact Hd. apply NoDup_nil_2.
  - intros Hs k Hd. apply cache_sound in Hs. specialize (H4 Hs k Hd).
    rewrite cache_generated.
    destruct (Obj.get e (events st)) as [p|] eqn:Hg.
    + rewrite cache_own by (rewrite Hg; eauto). exact H4.
    + destruct (String.eqb_spec e k) as [->|Hne].
      * rewrite cache_cached by apply Hd. split; [eauto|].
        intros _. apply elem_of_app. right. now apply list_elem_of_singleton.
      * rewrite (cache_other _ _ _ Hne). rewrite elem_of_app, H4.
        rewrite list_elem_of_singleton. split; [|tauto].
        intros [H|H]; [exact H | congruence].
Qed.

Lemma tuned_cache (st : emitter) (e : string) :
  tuned st -> tuned (cache e st).
Proof.
  intros Htu Hs sid s. rewrite cache_sockets, cache_this. intros Hso.
  apply cache_sound in Hs.
  destruct (Htu Hs _ _ Hso) as (Hp & Hown & Ha).
  split; [|split]; [| |exact Ha].
  - rewrite Hp. destruct Hown as [[p Hown]|Hown].
    + unfold Obj.read. now rewrite (cache_grows _ _ _ _ Hown), Hown.
    + unfold Obj.read. now rewrite Hown, get_proto_cache.
  - destruct Hown as [[p Hown]|Hown]; [left | now right].
    rewrite (cache_grows _ _ _ _ Hown). eauto.
Qed.

Lemma lookup_alter_Some {A} (f : A -> A) (r sid : nat) (l : list A) (x : A) :
  alter f r l !! sid = Some x ->
  exists y : A,
    l !! sid = Some y /\ x = if decide (r = sid) then f y else y.
Proof.
  rewrite list_lookup_alter. destruct (decide (r = sid)) as [->|Hne].
  - destruct (l !! sid) as [y|]; [|discriminate]. cbn. intros [= <-]. eauto.
  - eauto.
Qed.

(** [addListener] has made a socket for an event without channel and
    assigned the channel. *)
Lemma shape_open (st st' : emitter) (e : string) (s : socket) :
  shape st ->
  truthy e = true ->
  listeners st !! e = None ->
  sock_event s = e ->
  sock_open s = true ->
  sock_listening s = false ->
  sock_member s = false ->
  sockets st' = sockets st ++ [s] ->
  listeners st' = listeners (stuck e st) ->
  listenerKeys st' = listenerKeys (stuck e st) ->
  shape st'.
Proof.
  intros [Hc Hso [Hnd Hke]] Ht Hnone Hev Hop Hli Hme Hs' Hl' Hk'.
  assert (Hnew : Obj.isInherited e = false ->
                 listeners st' !! e = Some (Channel (length (sockets st)) [])).
  { intros Hi. rewrite Hl'. unfold stuck, assigned. rewrite Hi.
    cbn [listeners with_listeners]. apply lookup_insert_eq. }
  assert (Hold : forall ev ch,
             listeners st !! ev = Some ch -> listeners st' !! ev = Some ch).
  { intros ev ch Hch. rewrite Hl'. unfold stuck, assigned.
    destruct (Obj.isInherited e); [now destruct (String.eqb e "__proto__")|].
    cbn [listeners with_listeners]. rewrite lookup_insert_ne; [exact Hch|].
    congruence. }
  assert (Hinv : forall ev ch,
             listeners st' !! ev = Some ch ->
             listeners st !! ev = Some ch
             \/ (ev = e /\ ch = Channel (length (sockets st)) []
                 /\ Obj.isInherited e = false)).
  { intros ev ch. rewrite Hl'. unfold stuck, assigned.
    destruct (Obj.isInherited e);
      [destruct (String.eqb e "__proto__"); now left|].
    cbn [listeners with_listeners]. rewrite lookup_insert_Some.
    intros [[<- <-]|[_ H]]; [right | left]; auto. }
  assert (Hkeys : forall k,
             k ∈ listenerKeys st' ->
             k ∈ listenerKeys st \/ k = e).
  { intros k. rewrite Hk'. unfold stuck, assigned.
    destruct (Obj.isInherited e); [destruct (String.eqb e "__proto__")|];
      cbn [listenerKeys with_listenerKeys with_listeners with_sockets];
      rewrite ?elem_of_addKey; tauto. }
  assert (Hkeys' : forall k, k ∈ listenerKeys st -> k ∈ listenerKeys st').
  { intros k. rewrite Hk'. unfold stuck, assigned.
    destruct (Obj.isInherited e); [destruct (String.eqb e "__proto__")|];
      cbn [listenerKeys with_listenerKeys with_listeners with_sockets];
      rewrite ?elem_of_addKey; tauto. }
  assert (Hkey : Obj.isInherited e = false -> e ∈ listenerKeys st').
  { intros Hi. rewrite Hk'. unfold stuck, assigned. rewrite Hi.
    cbn [listenerKeys with_listenerKeys with_listeners with_sockets].
    apply elem_of_addKey. now left. }
  split.
  - intros ev ch Hch. apply Hinv in Hch as [Hch|(-> & -> & Hi)].
    + destruct (Hc _ _ Hch) as (H1 & H2 & H3 & s0 & H4 & H5).
      repeat split; auto. exists s0. rewrite Hs'.
      split; [now apply lookup_app_l_Some | exact H5].
    + repeat split; auto. exists s. rewrite Hs'. cbn [receiver].
      split; [now apply list_lookup_middle | auto].
  - intros sid s0. rewrite Hs', lookup_app_Some.
    intros [Hs0|[Hle Hs0]].
    + destruct (Hso _ _ Hs0) as (H1 & H2 & H3 & H4).
      repeat split; auto. intros Ho Hi.
      destruct (H4 Ho Hi) as (ch & Hch & Hr). eauto.
    + apply list_lookup_singleton_Some in Hs0 as [Hsid <-].
      assert (sid = length (sockets st)) as -> by lia.
      rewrite Hev, Hop, Hli, Hme. repeat split; auto; [discriminate|].
      intros _ Hi. eauto.
  - split.
    + rewrite Hk'. unfold stuck, assigned.
      destruct (Obj.isInherited e); [destruct (String.eqb e "__proto__")|];
        cbn [listenerKeys with_listenerKeys with_listeners with_sockets];
        auto using NoDup_addKey.
    + intros k Hk. apply Hkeys in Hk as [Hk| ->].
      * destruct (Hke _ Hk) as [H1 [[ch Hch]|H2]]; split; auto.
        left. eauto.
      * split; [exact Ht|].
        destruct (Obj.isInherited e) eqn:Hi; [now right | left]; eauto.
Qed.

Lemma shape_stuck (st : emitter) (e : string) :
  shape st -> truthy e = true -> listeners st !! e = None ->
  shape (stuck e st).
Proof.
  intros Hsh Ht Hn.
  apply (shape_open st _ e (fresh e)); auto.
  unfold stuck, assigned.
  destruct (Obj.isInherited e); [destruct (String.eqb e "__proto__")|];
    reflexivity.
Qed.

Lemma shape_opened (st : emitter) (e : string) :
  shape st -> truthy e = true -> listeners st !! e = None ->
  shape (opened e st).
Proof.
  intros Hsh Ht Hn.
  eapply (shape_open st _ e); eauto; unfold opened;
    cbn [sockets listeners listenerKeys with_sockets];
    rewrite ?cache_listeners, ?cache_listenerKeys; reflexivity.
Qed.

(** The handlers of a channel change. *)
Lemma shape_keeping (st : emitter) (e : string) (ch : channel)
  (hs : list handler) :
  shape st -> listeners st !! e = Some ch ->
  shape (keeping e (receiver ch) hs st).
Proof.
  intros [Hc Hso [Hnd Hke]] Hch. unfold keeping. split;
    cbn [listeners listenerKeys sockets with_listeners].
  - intros ev ch'. rewrite lookup_insert_Some.
    intros [[<- <-]|[_ H]]; [|now apply Hc]. cbn [receiver].
    now apply Hc with (ch := ch).
  - intros sid s Hs. destruct (Hso _ _ Hs) as (H1 & H2 & H3 & H4).
    repeat split; auto. intros Ho Hi.
    destruct (H4 Ho Hi) as (ch' & Hch' & Hr).
    destruct (decide (e = sock_event s)) as [Heq|Hne].
    + exists (Channel (receiver ch) hs). rewrite <- Heq in *.
      rewrite lookup_insert_eq.
      split; [reflexivity|]. cbn [receiver].
      rewrite Hch in Hch'. now injection Hch' as <-.
    + exists ch'. now rewrite lookup_insert_ne.
  - split; [exact Hnd|]. intros k Hk.
    destruct (Hke _ Hk) as [H1 [H2|H2]]; split; auto. left.
    destruct (decide (e = k)) as [<-|Hne].
    + rewrite lookup_insert_eq. eauto.
    + now rewrite lookup_insert_ne.
Qed.

(** The membership is dropped, the receiver closed and the channel
    deleted. *)
Lemma shape_leaving (st : emitter) (e : string) (ch : channel) :
  shape st -> listeners st !! e = Some ch ->
  shape (leaving e (receiver ch) [] st).
Proof.
  intros Hsh Hch. pose proof Hsh as [Hc Hso [Hnd Hke]].
  unfold leaving. split;
    cbn [listeners listenerKeys sockets with_listeners with_listenerKeys
         with_sockets].
  - intros ev ch'. rewrite lookup_delete_Some. intros [Hne Hch'].
    destruct (Hc _ _ Hch') as (H1 & H2 & H3 & s & H4 & H5).
    repeat split; auto.
    + apply elem_of_withoutKey. auto.
    + exists s. split; [|exact H5].
      rewrite list_lookup_alter_ne; [exact H4|].
      intros Heq. apply Hne. symmetry.
      now apply (receiver_inj st ev e ch' ch).
  - intros sid s Hs. apply lookup_alter_Some in Hs as (s0 & Hs0 & ->).
    destruct (Hso _ _ Hs0) as (H1 & H2 & H3 & H4).
    destruct (decide (receiver ch = sid)) as [Heq|Hne].
    + unfold closeSocket; cbn. repeat split; auto. discriminate.
    + repeat split; auto. intros Ho Hi.
      destruct (H4 Ho Hi) as (ch' & Hch' & Hr). exists ch'.
      split; [|exact Hr]. rewrite lookup_delete_ne; [exact Hch'|].
      intros Heq. rewrite <- Heq in Hch'. congruence.
  - split; [now apply NoDup_withoutKey|]. intros k Hk.
    apply elem_of_withoutKey in Hk as [Hne Hk].
    destruct (Hke _ Hk) as [H1 [H2|H2]]; split; auto. left.
    rewrite lookup_delete_ne; congruence.
Qed.

(** The callback of [bind] runs. *)
Lemma shape_joined (st : emitter) (sid : nat) (s : socket) :
  shape st ->
  sockets st !! sid = Some s ->
  sock_open s = true ->
  isBound s = true ->
  shape (joined sid st).
Proof.
  intros [Hc Hso Hke] Hs Hop Hb. unfold joined. split;
    cbn [listeners listenerKeys sockets with_sockets]; [| |exact Hke].
  - intros ev ch Hch.
    destruct (Hc _ _ Hch) as (H1 & H2 & H3 & s0 & H4 & H5 & H6).
    repeat split; auto.
    destruct (decide (sid = receiver ch)) as [->|Hne].
    + eexists. rewrite list_lookup_alter_eq, H4. cbn. eauto.
    + exists s0. rewrite list_lookup_alter_ne by exact Hne. auto.
  - intros sid' s' Hs'. apply lookup_alter_Some in Hs' as (s0 & Hs0 & ->).
    destruct (Hso _ _ Hs0) as (H1 & H2 & H3 & H4).
    destruct (decide (sid = sid')) as [<-|Hne]; [|auto].
    assert (s0 = s) as -> by congruence.
    cbn. rewrite Hop. repeat split; auto.
Qed.

Lemma shape_setProcess (st : emitter) (sid : nat) (process : bool) :
  shape st -> shape (setProcess sid process st).
Proof.
  intros [Hc Hso Hke]. unfold setProcess. split;
    cbn [listeners listenerKeys sockets with_sockets]; [| |exact Hke].
  - intros ev ch Hch.
    destruct (Hc _ _ Hch) as (H1 & H2 & H3 & s0 & H4 & H5 & H6).
    repeat split; auto.
    destruct (decide (sid = receiver ch)) as [->|Hne].
    + eexists. rewrite list_lookup_alter_eq, H4. cbn. eauto.
    + exists s0. rewrite list_lookup_alter_ne by exact Hne. auto.
  - intros sid' s' Hs'. apply lookup_alter_Some in Hs' as (s0 & Hs0 & ->).
    destruct (Hso _ _ Hs0) as (H1 & H2 & H3 & H4).
    destruct (decide (sid = sid')) as [<-|Hne]; auto.
Qed.

(** A change of a socket that keeps its event, its port and its address
    keeps the sockets tuned. *)
Lemma tuned_alter (st : emitter) (f : socket -> socket) (sid : nat) :
  (forall s, sock_event (f s) = sock_event s
             /\ sock_port (f s) = sock_port s
             /\ sock_address (f s) = sock_address s) ->
  tuned st -> tuned (with_sockets (alter f sid (sockets st)) st).
Proof.
  intros Hf Htu Hs sid' s' Hs'. cbn [sockets events this with_sockets] in *.
  apply lookup_alter_Some in Hs' as (s0 & Hs0 & ->).
  destruct (Htu Hs _ _ Hs0) as (H1 & H2 & H3).
  destruct (decide (sid = sid')); [|auto].
  destruct (Hf s0) as (-> & -> & ->). auto.
Qed.

Lemma tuned_opened (st : emitter) (e : string) :
  tuned st -> truthy e = true -> tuned (opened e st).
Proof.
  intros Htu Ht Hs sid s. unfold opened.
  cbn [sockets events this with_sockets]. rewrite cache_this.
  assert (Hev : events (stuck e st) = events st).
  { unfold stuck, assigned.
    destruct (Obj.isInherited e); [destruct (String.eqb e "__proto__")|];
      reflexivity. }
  assert (Hth : this (stuck e st) = this st).
  { unfold stuck, assigned.
    destruct (Obj.isInherited e); [destruct (String.eqb e "__proto__")|];
      reflexivity. }
  assert (Hevs : events (cache e (stuck e st)) = events (cache e st)).
  { unfold cache. rewrite Hev, Hth.
    now destruct (Obj.get e (events st)). }
  rewrite Hth. unfold sound, opened in Hs.
  cbn [events with_sockets] in Hs. rewrite Hevs in *.
  rewrite lookup_app_Some. intros [Hs0|[Hle Hs0]].
  - assert (Htc : tuned (cache e st)) by now apply tuned_cache.
    destruct (Htc Hs sid s) as (H1 & H2 & H3).
    { now rewrite cache_sockets. }
    rewrite cache_this in H3. auto.
  - apply list_lookup_singleton_Some in Hs0 as [_ <-]. cbn.
    repeat split; auto.
    destruct (String.eqb_spec e "__proto__") as [->|Hne]; [now right|].
    left. rewrite cache_cached by exact Hne. eauto.
Qed.

Lemma wf_start (st0 : emitter) : constructed st0 -> wf st0 st0.
Proof.
  intros (opts & proc & H).
  apply EventEmitter_Ok in H
    as (_ & _ & _ & _ & _ & Hp & _ & _ & Hl & Hk & Hs & Hg & _).
  split; [reflexivity | reflexivity | lia | | |].
  - split.
    + intros ev ch. rewrite Hl, lookup_empty. discriminate.
    + intros sid s. rewrite Hs, lookup_nil. discriminate.
    + rewrite Hk. split; [constructor|]. intros k Hk'.
      now apply elem_of_nil in Hk'.
  - split.
    + auto.
    + intros e p Hu He. unfold unlisted in Hu. congruence.
    + intros _. rewrite Hg. constructor.
    + intros _ e [Hu _]. rewrite Hg. unfold unlisted in Hu. rewrite Hu.
      split; [intros H; now apply elem_of_nil in H|].
      intros [p Hp']. discriminate.
  - intros _ sid s. rewrite Hs, lookup_nil. discriminate.
Qed.

Lemma table_logged (st0 st : emitter) (e : string) (ch : channel) :
  wf st0 st ->
  listeners st !! e = Some ch ->
  truthyVal (Obj.read e (events st)) = false ->
  table st0 (logged e st).
Proof.
  intros [Hth _ Hpo Hsh [H1 H2 H3 H4] Htu] Hch Hfalsy.
  split; [exact H1 | exact H2 | |];
    cbn [logged generated with_generated]; intros Hs.
  all: assert (Hnd : ~ derived st0 e).
  1, 3: intros [Hu _];
    destruct (channel_cached _ _ _ Hsh Htu Hs Hch) as [p Hp];
    rewrite (read_own _ _ _ Hp) in Hfalsy; cbn in Hfalsy;
    pose proof (H2 _ _ Hu Hp) as Hgen;
    pose proof (generatePort_above (this st) e) as Hab;
    unfold truthyZ in Hfalsy; apply negb_false_iff, Z.eqb_eq in Hfalsy;
    unfold portMin in Hpo; lia.
  - rewrite filter_app, filter_cons_False by exact Hnd.
    rewrite filter_nil, app_nil_r. now apply H3.
  - intros k Hd. rewrite elem_of_app, list_elem_of_singleton.
    rewrite <- (H4 Hs k Hd). split; [|tauto].
    intros [H|H]; [exact H|]. subst k. contradiction.
Qed.

Lemma stuck_fields (e : string) (st : emitter) :
  this (stuck e st) = this st
  /\ events (stuck e st) = events st
  /\ generated (stuck e st) = generated st
  /\ pid (stuck e st) = pid st
  /\ sent (stuck e st) = sent st
  /\ ticks (stuck e st) = ticks st.
Proof.
  unfold stuck, assigned.
  destruct (Obj.isInherited e); [destruct (String.eqb e "__proto__")|];
    repeat split.
Qed.

Lemma opened_table (e : string) (st : emitter) :
  this (opened e st) = this (cache e st)
  /\ events (opened e st) = events (cache e st)
  /\ generated (opened e st) = generated (cache e st)
  /\ pid (opened e st) = pid st.
Proof.
  destruct (stuck_fields e st) as (Ht & He & Hg & Hp & _).
  unfold opened. cbn [this events generated pid with_sockets].
  rewrite cache_pid, !cache_this, Hp, Ht.
  unfold cache. rewrite He, Hg, Ht.
  destruct (Obj.get e (events st)); cbn; auto.
Qed.

(** Every change that the code makes keeps the invariant. *)
Lemma wf_step (st0 st st' : emitter) : wf st0 st -> step st st' -> wf st0 st'.
Proof.
  intros Hwf Hstep. pose proof Hwf as [Hth Hpid Hpo Hsh Hta Htu].
  destruct Hstep;
    [ | | destruct (stuck_fields e st) as (Ht & He & Hg & Hp & _)
      | destruct (opened_table e st) as (Ht & He & Hg & Hp)
      | | | | | | ];
    split; rewrite ?cache_this, ?cache_pid, ?Ht, ?Hp, ?cache_this;
    try assumption;
    lazymatch goal with
    | |- shape (cache _ _) =>
        eapply shape_ext; [| | |exact Hsh];
        auto using cache_listeners, cache_listenerKeys, cache_sockets
    | |- table _ (cache _ _) => now apply table_cache
    | |- tuned (cache _ _) => now apply tuned_cache
    | |- table _ (logged _ _) => eapply table_logged; eauto
    | |- shape (stuck _ _) => now apply shape_stuck
    | |- tuned (stuck _ _) =>
        intros Hs; unfold sound in Hs; rewrite He in Hs; contradiction
    | |- shape (opened _ _) => now apply shape_opened
    | |- table _ (opened _ _) =>
        eapply table_ext; [| | |apply (table_cache _ _ e Hta)]; auto
    | |- tuned (opened _ _) => now apply tuned_opened
    | |- shape (keeping _ _ _ _) => now apply shape_keeping
    | |- shape (leaving _ _ _ _) => now apply shape_leaving
    | |- tuned (leaving _ _ _ _) =>
        apply (tuned_alter st closeSocket (receiver ch)); [|exact Htu];
        intros s0; now destruct s0
    | |- shape (joined _ _) => eapply shape_joined; eauto
    | |- shape (setProcess _ _ _) => now apply shape_setProcess
    | |- tuned (joined _ _) =>
        apply (tuned_alter st _ sid); [|exact Htu]; intros s0; now destruct s0
    | |- tuned (setProcess _ _ _) =>
        apply (tuned_alter st _ sid); [|exact Htu]; intros s0; now destruct s0
    | |- shape _ => now apply (shape_ext st)
    | |- table _ _ => now apply (table_ext st0 st)
    | |- tuned _ => now apply (tuned_ext st)
    end.
Qed.

Lemma wf_steps (st0 st st' : emitter) : wf st0 st -> steps st st' -> wf st0 st'.
Proof. intros Hwf Hs. induction Hs; eauto using wf_step. Qed.

Lemma wf_follows (st0 st : emitter) :
  constructed st0 -> follows st0 st -> wf st0 st.
Proof.
  intros Hc Hf. apply (wf_steps st0 st0); [now apply wf_start|].
  now apply follows_steps.
Qed.

Lemma wf_perform (st0 st : emitter) (a : action) :
  wf st0 st -> wf st0 (perform a st).
Proof. intros Hwf. eapply wf_steps; [exact Hwf | apply perform_steps]. Qed.

End Invariants.
(** ** What a call does, by cases *)

Section Run.

Context {Mods : Modules} {Fns : Listeners}.

Lemma fullDefined_run (event : string) (port : jsval) (st : emitter) :
  truthy event = true ->
  fullDefined event port st
  = match listeners st !! event with
    | Some ch =>
        if (0 <? length (handlers ch))%nat
        then hasEventWithPort event port st
        else (Ok None, st)
    | None => (Ok None, st)
    end.
Proof.
  intros Ht. unfold fullDefined.
  rewrite (bind_Ok _ _ _ _ _ (hasReceiver_run _ _ Ht)).
  destruct (listeners st !! event) as [ch|] eqn:Hch; [|reflexivity].
  rewrite (bind_Ok _ _ _ _ _ (hasListeners_run _ _ Ht)), Hch.
  destruct (0 <? length (handlers ch))%nat; reflexivity.
Qed.

Lemma plain_proto (e : string) :
  Obj.isInherited e = false -> e <> "__proto__".
Proof. intros H ->. discriminate. Qed.

Lemma plain_hasOwnProperty (e : string) :
  Obj.isInherited e = false -> e <> "hasOwnProperty".
Proof. intros H ->. discriminate. Qed.

Lemma opened_listeners (e : string) (st : emitter) :
  Obj.isInherited e = false ->
  listeners (opened e st)
  = <[e := Channel (length (sockets st)) []]> (listeners st).
Proof.
  intros Hi. unfold opened. cbn [listeners with_sockets].
  rewrite cache_listeners. unfold stuck, assigned. now rewrite Hi.
Qed.

Lemma opened_inherited (e : string) (st : emitter) :
  Obj.isInherited e = true -> listeners (opened e st) = listeners st.
Proof.
  intros Hi. unfold opened. cbn [listeners with_sockets].
  rewrite cache_listeners. unfold stuck, assigned. rewrite Hi.
  now destruct (String.eqb e "__proto__").
Qed.

Lemma opened_events (e : string) (st : emitter) :
  events (opened e st) = events (cache e st).
Proof. apply opened_table. Qed.

Lemma opened_sockets (e : string) (st : emitter) :
  sockets (opened e st)
  = sockets st
    ++ [Socket e (portValue e st) (this_address (this st))
               true false false false].
Proof.
  unfold opened. cbn [sockets with_sockets]. unfold portValue.
  destruct (opened_table e st) as (_ & He & _).
  unfold opened in He. cbn [events with_sockets] in He. now rewrite He.
Qed.

Lemma sound_opened (e : string) (st : emitter) :
  e <> "hasOwnProperty" -> sound st -> sound (opened e st).
Proof.
  intros Hne Hs. unfold sound. rewrite opened_events.
  now apply sound_cache.
Qed.

Lemma cache_opened (e : string) (st : emitter) :
  e <> "__proto__" -> cache e (opened e st) = opened e st.
Proof.
  intros Hne. apply cache_own. rewrite opened_events, cache_cached by exact Hne.
  eauto.
Qed.

Lemma sound_keeping (e : string) (r : nat) (hs : list handler) (st : emitter) :
  sound (keeping e r hs st) <-> sound st.
Proof. reflexivity. Qed.

Lemma cache_keeping (e e' : string) (r : nat) (hs : list handler)
  (st : emitter) :
  cache e (keeping e' r hs st) = keeping e' r hs (cache e st).
Proof. unfold keeping. now rewrite cache_with_listeners, cache_listeners. Qed.

(** [addListener] for an event without channel, whose name is no member
    of [Object.prototype], on a table that has its method. *)
Lemma addListener_new (event : string) (listener : handler) (st : emitter) :
  truthy event = true ->
  listeners st !! event = None ->
  sound st ->
  Obj.isInherited event = false ->
  addListener event listener st
  = (Ok tt, keeping event (length (sockets st)) [listener] (opened event st)).
Proof.
  intros Ht Hnone Hs Hi. unfold addListener.
  assert (Hfd : fullDefined event (Obj.read event (events st)) st
                = (Ok None, st))
    by (now rewrite fullDefined_run, Hnone).
  rewrite bind_gets, (bind_Ok _ _ _ _ _ Hfd), bind_ret.
  rewrite (bind_Ok _ _ _ _ _ (hasReceiver_run _ _ Ht)), Hnone. cbn [negb].
  rewrite (bind_Ok _ _ _ _ _ (openReceiver_run _ _ Ht Hnone Hs)).
  rewrite bind_gets, (opened_listeners _ _ Hi), lookup_insert_eq.
  rewrite bind_modify. cbn [receiver handlers app].
  fold (keeping event (length (sockets st)) [listener] (opened event st)).
  assert (Hs' : sound (keeping event (length (sockets st)) [listener]
                               (opened event st)))
    by (apply sound_keeping, sound_opened;
        auto using plain_hasOwnProperty).
  rewrite (bind_Ok _ _ _ _ _ (getPort_run _ _ Ht Hs')).
  rewrite cache_keeping, cache_opened by now apply plain_proto.
  reflexivity.
Qed.

(** The same for a name that is a member of [Object.prototype]: the
    socket is made and bound, and the call throws where it reads the
    handlers of what is no channel. *)
Lemma addListener_inherited (event : string) (listener : handler)
  (st : emitter) :
  truthy event = true ->
  listeners st !! event = None ->
  sound st ->
  Obj.isInherited event = true ->
  addListener event listener st = (Throw TypeError, opened event st).
Proof.
  intros Ht Hnone Hs Hi. unfold addListener.
  assert (Hfd : fullDefined event (Obj.read event (events st)) st
                = (Ok None, st))
    by (now rewrite fullDefined_run, Hnone).
  rewrite bind_gets, (bind_Ok _ _ _ _ _ Hfd), bind_ret.
  rewrite (bind_Ok _ _ _ _ _ (hasReceiver_run _ _ Ht)), Hnone. cbn [negb].
  rewrite (bind_Ok _ _ _ _ _ (openReceiver_run _ _ Ht Hnone Hs)).
  now rewrite bind_gets, (opened_inherited _ _ Hi), Hnone.
Qed.

(** The same on a table without its method: [getPort] throws after the
    socket was made, and [bind] is not called. *)
Lemma addListener_poisoned (event : string) (listener : handler)
  (st : emitter) :
  truthy event = true ->
  listeners st !! event = None ->
  ~ sound st ->
  addListener event listener st = (Throw TypeError, stuck event st).
Proof.
  intros Ht Hnone Hs. unfold addListener.
  assert (Hfd : fullDefined event (Obj.read event (events st)) st
                = (Ok None, st))
    by (now rewrite fullDefined_run, Hnone).
  rewrite bind_gets, (bind_Ok _ _ _ _ _ Hfd), bind_ret.
  rewrite (bind_Ok _ _ _ _ _ (hasReceiver_run _ _ Ht)), Hnone. cbn [negb].
  now rewrite (bind_Throw _ _ _ _ _ (openReceiver_stuck _ _ Ht Hnone Hs)).
Qed.

Lemma addListener_empty (listener : handler) (st : emitter) :
  addListener "" listener st = (Throw RequiresEvent, st).
Proof. reflexivity. Qed.

(** The callback of [bind]. *)
Lemma onListening_run (sid : nat) (s : socket) (st : emitter) :
  sockets st !! sid = Some s ->
  sock_open s = true ->
  sock_listening s = false ->
  isBound s = true ->
  truthy (sock_event s) = true ->
  sound st ->
  onListening sid st = (Ok tt, cache (sock_event s) (joined sid st)).
Proof.
  intros Hs Ho Hl Hb Ht Hso. unfold onListening.
  rewrite bind_gets, Hs, Ho, Hl, Hb. cbn [andb negb].
  unfold updateSocket. rewrite bind_modify. fold (joined sid st).
  now rewrite (bind_Ok _ _ _ _ _ (getPort_run _ (joined sid st) Ht Hso)).
Qed.

Lemma keeping_insert (event : string) (r : nat) (kept : list handler)
  (c : channel) (st : emitter) :
  keeping event r kept (with_listeners (<[event := c]> (listeners st)) st)
  = keeping event r kept st.
Proof.
  unfold keeping. apply emitter_ext; cbn; try reflexivity.
  apply insert_insert_eq.
Qed.

Lemma leaving_insert (event : string) (r : nat) (kept : list handler)
  (c : channel) (st : emitter) :
  leaving event r kept (with_listeners (<[event := c]> (listeners st)) st)
  = leaving event r kept st.
Proof.
  destruct kept; cbn; apply emitter_ext; cbn; try reflexivity.
  - apply delete_insert_eq.
  - apply insert_insert_eq.
Qed.

Lemma leaving_same (event : string) (r : nat) (hs : list handler)
  (st : emitter) :
  hs <> [] ->
  listeners st !! event = Some (Channel r hs) ->
  leaving event r hs st = st.
Proof.
  intros Hne Hch. destruct hs; [contradiction|]. cbn.
  apply emitter_ext; cbn; try reflexivity. now apply insert_id.
Qed.

Lemma cache_leaving (event event' : string) (r : nat) (kept : list handler)
  (st : emitter) :
  is_Some (Obj.get event (events st)) ->
  cache event (leaving event' r kept st) = leaving event' r kept st.
Proof.
  intros Hc. destruct kept; cbn;
    rewrite ?cache_with_listeners, ?cache_with_listenerKeys,
      ?cache_with_sockets, cache_own;
    auto.
Qed.

(** The last handler was spliced out: the membership is dropped, the
    socket closed and the channel deleted. *)
Lemma closeBlock_run (event : string) (ch : channel) (s : socket)
  (st : emitter) :
  truthy event = true ->
  sound st ->
  is_Some (Obj.get event (events st)) ->
  sockets st !! receiver ch = Some s ->
  sock_member s = true ->
  (dropMembership (receiver ch) ;;;
   close (receiver ch) ;;;
   deleteChannel event ;;;
   _ <~ getPort event ;;
   ret tt) st
  = (Ok tt, leaving event (receiver ch) [] st).
Proof.
  intros Ht Hso Hc Hs Hm.
  unfold dropMembership. rewrite bind_bind, bind_gets, Hs, Hm.
  unfold close, updateSocket, deleteChannel. rewrite !bind_modify.
  match goal with
  | |- _ ?st' = _ => replace st' with (leaving event (receiver ch) [] st)
  end.
  - assert (Hso' : sound (leaving event (receiver ch) [] st)) by exact Hso.
    rewrite (bind_Ok _ _ _ _ _ (getPort_run _ _ Ht Hso')).
    now rewrite (cache_leaving _ _ _ _ _ Hc).
  - unfold leaving, withoutKey.
    apply emitter_ext;
      cbn [this events listeners listenerKeys sockets sent ticks pid
           generated with_sockets with_listeners with_listenerKeys];
      try reflexivity.
    rewrite alter_alter. reflexivity.
Qed.

(** For a receiver that has not joined the group, [dropMembership]
    throws. *)
Lemma closeBlock_fails (event : string) (ch : channel) (s : socket)
  (st : emitter) :
  sockets st !! receiver ch = Some s ->
  sock_member s = false ->
  (dropMembership (receiver ch) ;;;
   close (receiver ch) ;;;
   deleteChannel event ;;;
   _ <~ getPort event ;;
   ret tt) st
  = (Throw MembershipError, st).
Proof.
  intros Hs Hm. unfold dropMembership.
  now rewrite !bind_bind, bind_gets, Hs, Hm.
Qed.

Lemma removal_insert (event : string) (r : nat) (s : socket)
  (kept : list handler) (matched : bool) (c : channel) (st : emitter) :
  removal event r s kept matched
          (with_listeners (<[event := c]> (listeners st)) st)
  = removal event r s kept matched st.
Proof.
  unfold removal. rewrite leaving_insert, keeping_insert. reflexivity.
Qed.

Lemma removeLoop_run (event source : string) (r : nat) (s : socket) :
  truthy event = true ->
  forall (i : nat) (hs : list handler) (matched : bool) (st : emitter),
    sound st ->
    is_Some (Obj.get event (events st)) ->
    (i <= length hs)%nat ->
    hs <> [] ->
    listeners st !! event = Some (Channel r hs) ->
    sockets st !! r = Some s ->
    removeLoop event source i hs matched st
    = removal event r s
        (filter (differs source) (take i hs) ++ drop i hs)
        (matched || negb (bool_decide (Forall (differs source) (take i hs))))
        st.
Proof.
  intros Ht. induction i as [|j IH]; intros hs matched st Hso Hc Hi Hne Hch Hs.
  - cbn [removeLoop]. rewrite take_0, drop_0, filter_nil. cbn [app].
    unfold removal. destruct hs as [|h0 hs0]; [contradiction|].
    rewrite (leaving_same _ _ _ _ Hne Hch).
    rewrite bool_decide_eq_true_2 by constructor.
    now rewrite orb_false_r.
  - destruct (lookup_lt_is_Some_2 hs j ltac:(lia)) as [h Hh].
    cbn [removeLoop]. rewrite Hh.
    rewrite (take_S_r _ _ _ Hh), filter_app.
    destruct (String.eqb_spec (fn_source h) source) as [Heq|Hdiff].
    + (* [handlers.splice(j, 1)] *)
      rewrite filter_cons_False by (unfold differs; tauto).
      rewrite filter_nil, app_nil_r.
      rewrite bool_decide_eq_false_2, orb_true_r
        by (intros [_ Hf]%Forall_app; apply Forall_cons in Hf as [Hf _];
            now apply Hf).
      rewrite bind_modify. cbn beta. rewrite Hch. cbn [receiver].
      fold (keeping event r (delete j hs) st).
      rewrite (bind_Ok _ _ _ _ _
                 (getPort_run _ (keeping event r (delete j hs) st) Ht Hso)).
      rewrite cache_keeping, (cache_own _ _ Hc).
      assert (Hlen : length (delete j hs) = (length hs - 1)%nat)
        by (rewrite length_delete; eauto).
      destruct (Nat.eqb_spec (length (delete j hs)) 0) as [Hz|Hnz].
      * (* the last handler *)
        assert (j = 0%nat) by lia. subst j.
        destruct hs as [|h0 [|h1 hs]]; cbn in Hlen, Hi, Hz; try lia.
        cbn [delete list_delete firstn skipn app take drop].
        rewrite filter_nil. cbn [app]. unfold removal.
        rewrite bind_bind, bind_gets.
        unfold keeping at 1. cbn [listeners with_listeners].
        rewrite lookup_insert_eq.
        fold (keeping event r [] st).
        assert (Hs' : sockets (keeping event r [] st)
                        !! receiver (Channel r []) = Some s) by exact Hs.
        destruct (sock_member s) eqn:Hm.
        -- rewrite (bind_Ok _ _ _ _ _
                      (closeBlock_run event (Channel r []) s
                         (keeping event r [] st) Ht Hso Hc Hs' Hm)).
           cbn [receiver removeLoop ret].
           unfold keeping. now rewrite leaving_insert.
        -- now rewrite (bind_Throw _ _ _ _ _
                          (closeBlock_fails event (Channel r []) s
                             (keeping event r [] st) Hs' Hm)).
      * rewrite bind_ret.
        rewrite IH; try assumption.
        -- assert (Htake : take j (delete j hs) = take j hs)
             by (rewrite delete_take_drop, take_app_length';
                 [reflexivity | rewrite length_take_le; lia]).
           assert (Hdrop : drop j (delete j hs) = drop (S j) hs)
             by (rewrite delete_take_drop, drop_app_length';
                 [reflexivity | rewrite length_take_le; lia]).
           rewrite Htake, Hdrop, orb_true_l.
           apply removal_insert.
        -- lia.
        -- intros Hnil. rewrite Hnil in Hnz. now apply Hnz.
        -- cbn. apply lookup_insert_eq.
    + rewrite filter_cons_True, filter_nil by exact Hdiff.
      rewrite IH by (assumption || lia).
      rewrite <- app_assoc. cbn [app]. rewrite <- (drop_S _ _ _ Hh).
      f_equal. f_equal. f_equal. apply bool_decide_ext.
      rewrite Forall_app.
      split; [intros Hf; split; [exact Hf|repeat constructor; exact Hdiff]
             | intros [Hf _]; exact Hf].
Qed.

End Run.
Section Removal.

Context {Mods : Modules} {Fns : Listeners}.

(** [removeListener] for an event with listeners, on a table that has its
    method: the handlers with the text of the listener are spliced out;
    when none is left the channel is closed, unless the receiver has not
    joined the group. *)
Lemma removeListener_run (event : string) (listener : handler) (r : nat)
  (hs : list handler) (s : socket) (st : emitter) :
  truthy event = true ->
  sound st ->
  is_Some (Obj.get event (events st)) ->
  hs <> [] ->
  listeners st !! event = Some (Channel r hs) ->
  sockets st !! r = Some s ->
  removeListener event listener st
  = match filter (differs (fn_source listener)) hs, sock_member s with
    | [], false => (Throw MembershipError, keeping event r [] st)
    | kept, _ => (Ok tt, leaving event r kept st)
    end.
Proof.
  intros Ht Hso Hc Hne Hch Hs. unfold removeListener. rewrite Ht.
  cbn [negb].
  rewrite (bind_Ok _ _ _ _ _ (hasListeners_run _ _ Ht)), Hch.
  cbn [handlers]. destruct hs as [|h hs]; [contradiction|].
  cbn [length Nat.ltb Nat.leb]. rewrite bind_gets, Hch. cbn [handlers].
  pose proof (removeLoop_run event (fn_source listener) r s Ht _ _ false st
                Hso Hc (Nat.le_refl _) Hne Hch Hs) as Hrun.
  rewrite firstn_all, skipn_all, app_nil_r in Hrun. cbn [orb] in Hrun.
  unfold removal in Hrun.
  assert (Hso' : forall kept, sound (leaving event r kept st))
    by (intros []; exact Hso).
  assert (Hport : forall kept,
             (_ <~ getPort event ;; ret tt) (leaving event r kept st)
             = (Ok tt, leaving event r kept st)).
  { intros kept.
    rewrite (bind_Ok _ _ _ _ _ (getPort_run _ _ Ht (Hso' kept))).
    now rewrite (cache_leaving _ _ _ _ _ Hc). }
  destruct (filter (differs (fn_source listener)) (h :: hs)) as [|k kept];
    [destruct (sock_member s)|].
  - rewrite (bind_Ok _ _ _ _ _ Hrun).
    destruct (negb (negb _)); [apply Hport | reflexivity].
  - now rewrite (bind_Throw _ _ _ _ _ Hrun).
  - rewrite (bind_Ok _ _ _ _ _ Hrun).
    destruct (negb (negb _)); [apply Hport | reflexivity].
Qed.

Lemma removeListener_absent (event : string) (listener : handler)
  (st : emitter) :
  listeners st !! event = None ->
  removeListener event listener st
  = (if truthy event then Ok tt else Throw RequiresEventAndListener, st).
Proof.
  intros Hno. unfold removeListener. destruct (truthy event) eqn:Ht;
    [|reflexivity].
  cbn [negb].
  now rewrite (bind_Ok _ _ _ _ _ (hasListeners_run _ _ Ht)), Hno.
Qed.

End Removal.

(** ** Registration on a port in use *)

Section PortInUse.

Context {Mods : Modules} {Fns : Listeners}.

(** C1, the failing input.  The test of [addListener] runs
    [hasEventWithPort] only when the event being added already has a
    receiver and listeners.  For an event [B] without channel it finds
    nothing, whatever port [B] has: with another event [A] listening on
    that very port, the call returns normally, a channel is made for [B]
    and a second socket is bound to the port of [A].  ([B] is no member of
    [Object.prototype] and the table has no key ['hasOwnProperty'];
    otherwise the call throws a [TypeError], see [addListener_inherited]
    and [addListener_poisoned].) *)
Theorem addListener_ignores_port_in_use :
  forall (st : emitter) (A B : string) (h : handler) (chA : channel),
    truthy B = true ->
    Obj.isInherited B = false ->
    sound st ->
    A <> B ->
    listeners st !! A = Some chA ->
    handlers chA <> [] ->
    listeners st !! B = None ->
    portOf B st = portOf A st ->
    exists st' : emitter,
      addListener B h st = (Ok tt, st')
      /\ listeners st' !! B = Some (Channel (length (sockets st)) [h])
      /\ listeners st' !! A = Some chA
      /\ sockets st' !! length (sockets st)
         = Some (Socket B (JNumber (portOf A st)) (this_address (this st))
                        true false false false).
Proof.
  intros st A B h chA HB Hi Hs Hne HA _ HnoB Hport.
  eexists. split; [apply addListener_new; assumption|].
  unfold keeping. cbn [listeners sockets with_listeners].
  rewrite lookup_insert_eq, lookup_insert_ne by congruence.
  rewrite (opened_listeners _ _ Hi), lookup_insert_ne by congruence.
  split; [reflexivity|]. split; [exact HA|].
  rewrite opened_sockets, portValue_stored, Hport by now apply plain_proto.
  now apply list_lookup_middle.
Qed.

End PortInUse.

(** The default emitter: ['test7'] and ['debug23'] both have the generated
    port 19079.  After [on('test7', handler1)], the call
    [on('debug23', handler2)] succeeds. *)
Lemma addListener_ignores_port_in_use_witness :
  let st := Example.run (addListener "test7" Example.handler1)
                        Example.emitter1 in
  generatePort (this st) "test7" = 19079
  /\ generatePort (this st) "debug23" = 19079
  /\ exists st' : emitter,
       addListener "debug23" Example.handler2 st
       = (Ok tt, st')
       /\ listeners st' !! "debug23" = Some (Channel 1 [Example.handler2])
       /\ listeners st' !! "test7" = Some (Channel 0 [Example.handler1])
       /\ sockets st' !! 1%nat
          = Some (Socket "debug23" (JNumber 19079) "239.22.144.139"
                         true false false false).
Proof.
  intros st. split; [vm_compute; reflexivity|].
  split; [vm_compute; reflexivity|].
  apply (addListener_ignores_port_in_use st "test7" "debug23"
           Example.handler2 (Channel 0 [Example.handler1]));
    try (vm_compute; reflexivity); vm_compute; congruence.
Defined.

(** ** Channels, handlers and sockets *)

Section Lifecycle.

Context {Mods : Modules} {Fns : Listeners}.

(** C2, the failing input.  An event without channel, whose name is no
    member of [Object.prototype], gets a listener, which is removed again.
    - When the removal comes before the callback of [bind] has run (as in
      [e.on('test', h); e.off('test', h)]), the handler is spliced out and
      [dropMembership] throws on the socket, which has not joined the
      group: the channel stays, with no handler, and its socket stays
      open; [hasReceiver] is true and [hasListeners] false.
    - When the callback has run in between, the removal returns normally,
      the channel is gone and the socket has left the group and is
      closed. *)
Theorem channel_lifecycle :
  forall (st : emitter) (ev : string) (h : handler),
    truthy ev = true ->
    Obj.isInherited ev = false ->
    sound st ->
    listeners st !! ev = None ->
    let sid := length (sockets st) in
    exists st1 : emitter,
      addListener ev h st = (Ok tt, st1)
      /\ fst (hasListeners ev st1) = Ok true
      /\ (exists (st2 : emitter) (s2 : socket),
             removeListener ev h st1 = (Throw MembershipError, st2)
             /\ listeners st2 !! ev = Some (Channel sid [])
             /\ fst (hasReceiver ev st2) = Ok true
             /\ fst (hasListeners ev st2) = Ok false
             /\ sockets st2 !! sid = Some s2
             /\ sock_open s2 = true /\ sock_member s2 = false)
      /\ (exists (st2 st3 : emitter) (s3 : socket),
             onListening sid st1 = (Ok tt, st2)
             /\ removeListener ev h st2 = (Ok tt, st3)
             /\ fst (hasListeners ev st3) = Ok false
             /\ fst (hasReceiver ev st3) = Ok false
             /\ listeners st3 = listeners st
             /\ sockets st3 !! sid = Some s3
             /\ sock_open s3 = false /\ sock_member s3 = false).
Proof.
  intros st ev h Ht Hi Hs Hnone sid.
  pose proof (plain_proto _ Hi) as Hproto.
  pose proof (plain_hasOwnProperty _ Hi) as Hhop.
  set (st1 := keeping ev sid [h] (opened ev st)).
  set (s1 := Socket ev (JNumber (portOf ev st)) (this_address (this st))
                    true false false false).
  assert (Hch1 : listeners st1 !! ev = Some (Channel sid [h]))
    by apply lookup_insert_eq.
  assert (Hs1 : sockets st1 !! sid = Some s1).
  { subst st1 s1. unfold keeping. cbn [sockets with_listeners].
    rewrite opened_sockets, portValue_stored by exact Hproto.
    now apply list_lookup_middle. }
  assert (Hso1 : sound st1) by now apply sound_opened.
  assert (Hc1 : is_Some (Obj.get ev (events st1))).
  { subst st1. unfold keeping. cbn [events with_listeners].
    rewrite opened_events, cache_cached by exact Hproto. eauto. }
  assert (Hfilter : filter (differs (fn_source h)) [h] = []).
  { rewrite filter_cons_False by (unfold differs; tauto).
    apply filter_nil. }
  exists st1. split; [now apply addListener_new|].
  split; [now rewrite (hasListeners_run _ _ Ht), Hch1|]. split.
  - exists (keeping ev sid [] st1), s1.
    split.
    { rewrite (removeListener_run ev h sid [h] s1 st1); try assumption;
        [|discriminate].
      now rewrite Hfilter. }
    assert (Hch2 : listeners (keeping ev sid [] st1) !! ev
                   = Some (Channel sid []))
      by apply lookup_insert_eq.
    split; [exact Hch2|].
    split; [now rewrite (hasReceiver_run _ _ Ht), Hch2|].
    split; [now rewrite (hasListeners_run _ _ Ht), Hch2|].
    split; [exact Hs1|]. split; reflexivity.
  - set (st2 := joined sid st1).
    assert (Hc2 : is_Some (Obj.get ev (events st2))) by exact Hc1.
    assert (Hs2 : sockets st2 !! sid
                  = Some (Socket ev (JNumber (portOf ev st))
                                 (this_address (this st))
                                 true true true true)).
    { subst st2. unfold joined. cbn [sockets with_sockets].
      now rewrite list_lookup_alter_eq, Hs1. }
    exists st2, (leaving ev sid [] st2),
      (closeSocket (Socket ev (JNumber (portOf ev st))
                           (this_address (this st)) true true true true)).
    split.
    { rewrite (onListening_run sid s1 st1); try assumption; try reflexivity.
      cbn [sock_event s1]. f_equal. now apply cache_own. }
    split.
    { rewrite (removeListener_run ev h sid [h] _ st2 Ht Hso1 Hc2
                 ltac:(discriminate) Hch1 Hs2).
      now rewrite Hfilter. }
    assert (Hl3 : listeners (leaving ev sid [] st2) = listeners st).
    { unfold leaving, st2, joined, st1, keeping.
      cbn [listeners with_listeners with_listenerKeys with_sockets].
      rewrite delete_insert_eq, (opened_listeners _ _ Hi), delete_insert_eq.
      now apply delete_id. }
    split; [now rewrite (hasListeners_run _ _ Ht), Hl3, Hnone|].
    split; [now rewrite (hasReceiver_run _ _ Ht), Hl3, Hnone|].
    split; [exact Hl3|].
    split; [unfold leaving;
            cbn [sockets with_listeners with_listenerKeys with_sockets];
            now rewrite list_lookup_alter_eq, Hs2|].
    split; reflexivity.
Qed.

End Lifecycle.

Lemma constructed_emitter1 : constructed Example.emitter1.
Proof. exists Example.noOpts, Example.proc. reflexivity. Qed.

Lemma sound_emitter1 : sound Example.emitter1.
Proof. reflexivity. Qed.

(** The default emitter: after [on('test', handler1)], the call
    [off('test', handler1)] throws when it comes first, and closes the
    channel once the socket is bound. *)
Lemma channel_lifecycle_witness :
  exists st1 : emitter,
    addListener "test" Example.handler1 Example.emitter1 = (Ok tt, st1)
    /\ fst (removeListener "test" Example.handler1 st1)
       = Throw MembershipError
    /\ fst (hasReceiver "test"
              (snd (removeListener "test" Example.handler1 st1))) = Ok true
    /\ fst (hasListeners "test"
              (snd (removeListener "test" Example.handler1 st1))) = Ok false.
Proof.
  destruct (channel_lifecycle Example.emitter1 "test" Example.handler1
              eq_refl eq_refl sound_emitter1 eq_refl)
    as (st1 & Hadd & _ & (st2 & s2 & Hrem & _ & Hr & Hl & _) & _).
  exists st1. rewrite Hrem. cbn [fst snd]. auto.
Defined.

(** A name that is a member of [Object.prototype]: [on('constructor', h)]
    makes the socket and binds it, then throws; no channel is made, and
    the socket stays open. *)
Example constructor_leaves_socket :
  let st := Example.run (addListener "constructor" Example.handler1)
                        Example.emitter1 in
  fst (addListener "constructor" Example.handler1 Example.emitter1)
  = Throw TypeError
  /\ listeners st !! "constructor" = None
  /\ listenerKeys st = ["constructor"]
  /\ (exists s : socket,
         sockets st !! 0%nat = Some s
         /\ sock_event s = "constructor"
         /\ sock_open s = true /\ isBound s = true)
  /\ fst (hasReceiver "constructor" st) = Ok false.
Proof.
  vm_compute. repeat split. eexists. repeat split.
Qed.

(** ** Removal of a listener *)

Section RemoveListener.

Context {Mods : Modules} {Fns : Listeners}.


End RemoveListener.



(** The functions that [once] registers all have the same text: when the
    first one removes itself, the second goes with it. *)
Example once_wrappers_alike :
  let st :=
    fold_left (fun st a => perform (Mods := Example.modules)
                             (Fns := Example.listeners) a st)
      [AddListener "test" Example.wrapper1;
       AddListener "test" Example.wrapper2;
       Listening 0]
      Example.emitter1 in
  handlerCount "test" st = 2%nat
  /\ handlerCount "test"
       (Example.run (removeListener "test" Example.wrapper1) st) = 0%nat.
Proof. vm_compute. split; reflexivity. Qed.


(** ** The port of an event *)

Section PortOfEvent.

Context {Mods : Modules} {Fns : Listeners}.


End PortOfEvent.



(** ** Encryption *)

Section Cipher.

Context {Mods : Modules}.


End Cipher.




(** ** The origin tag *)

Lemma string_of_uint_digits (d : Decimal.uint) :
  allDigits (NilEmpty.string_of_uint d).
Proof.
  unfold allDigits. induction d; cbn; constructor; try reflexivity; assumption.
Qed.

Lemma digitsValue_string_of_uint (d : Decimal.uint) :
  forall acc : Z,
    digitsValue (NilEmpty.string_of_uint d) acc = valueOf d acc.
Proof.
  induction d; intros acc; cbn [NilEmpty.string_of_uint digitsValue valueOf];
    try reflexivity;
    (replace (isDigit _) with true by reflexivity); rewrite IHd;
    f_equal; unfold code_of; cbn; lia.
Qed.

Lemma valueOf_revapp (d : Decimal.uint) :
  forall d' : Decimal.uint,
    valueOf d (Z.of_N (Unsigned.of_lu d'))
    = Z.of_N (Unsigned.of_lu (Decimal.revapp d d')).
Proof.
  induction d; intros d'; cbn [valueOf Decimal.revapp]; try reflexivity;
    rewrite <- IHd; f_equal; cbn [Unsigned.of_lu]; lia.
Qed.

Lemma valueOf_to_uint (p : positive) : valueOf (Pos.to_uint p) 0 = Zpos p.
Proof.
  change 0 with (Z.of_N (Unsigned.of_lu Decimal.Nil)).
  rewrite valueOf_revapp. fold (Decimal.rev (Pos.to_uint p)).
  now rewrite <- Unsigned.of_uint_alt, Unsigned.of_to.
Qed.

(** The decimal text of a number that is not negative: digits, at least
    one, which read back as the number. *)
Lemma toString_digits (p : Z) :
  0 <= p ->
  allDigits (toString p)
  /\ startsWithDigit (toString p) = true
  /\ digitsValue (toString p) 0 = p.
Proof.
  intros Hp. unfold toString. destruct p as [|q|q]; [| |lia].
  - repeat split. repeat constructor.
  - cbn [Z.to_int NilZero.string_of_int].
    pose proof (Unsigned.to_uint_nonnil q) as Hnn.
    pose proof (string_of_uint_digits (Pos.to_uint q)) as Hd.
    pose proof (digitsValue_string_of_uint (Pos.to_uint q) 0) as Hv.
    rewrite valueOf_to_uint in Hv.
    unfold NilZero.string_of_uint.
    destruct (Pos.to_uint q) eqn:Hq; try contradiction;
      (split; [exact Hd|]); (split; [reflexivity | exact Hv]).
Qed.

Lemma parseDigits_digits (s : string) :
  startsWithDigit s = true -> parseDigits s = Some (digitsValue s 0).
Proof.
  destruct s as [|c s]; [discriminate|]. cbn [startsWithDigit]. intros Hc.
  unfold parseDigits.
  destruct c as [[] [] [] [] [] [] [] []]; try discriminate;
    cbn [startsWithDigit]; rewrite ?Hc; reflexivity.
Qed.

Lemma digit_no_space (c : ascii) : isDigit c = true -> isSpace c = false.
Proof.
  intros Hc. unfold isDigit, isSpace in *.
  apply andb_true_iff in Hc as [H1 H2].
  destruct (Z.eqb_spec (code_of c) 32); [lia|].
  destruct (Z.eqb_spec (code_of c) 160); [lia|].
  destruct (Z.leb_spec (code_of c) 13); [lia|].
  now rewrite andb_false_r.
Qed.

Lemma parseInt_digits (s : string) :
  startsWithDigit s = true -> parseInt s = Some (digitsValue s 0).
Proof.
  intros Hs. unfold parseInt.
  destruct s as [|c s]; [discriminate|]. cbn [trimLeft].
  rewrite (digit_no_space c Hs). now apply parseDigits_digits.
Qed.

Lemma parseInt_toString (p : Z) : 0 <= p -> parseInt (toString p) = Some p.
Proof.
  intros Hp. destruct (toString_digits p Hp) as (_ & Hs & Hv).
  now rewrite (parseInt_digits _ Hs), Hv.
Qed.

Lemma byteCode_code_of (b : byte) : byteCode b = code_of (ascii_of_byte b).
Proof. now destruct b. Qed.

(** On the bytes of ASCII characters the white space of the text is that
    of the bytes. *)
Lemma skipWhite_sevenBit (buf : list byte) :
  Forall sevenBit buf ->
  string_of_list_byte (skipWhite buf) = trimLeft (string_of_list_byte buf).
Proof.
  induction 1 as [|b r Hb Hr IH]; [reflexivity|].
  cbn [skipWhite]. unfold string_of_list_byte in *.
  cbn [map string_of_list_ascii trimLeft].
  unfold isSpace. rewrite <- byteCode_code_of.
  assert (Hlt : byteCode b < 128).
  { unfold sevenBit in Hb. unfold byteCode. lia. }
  destruct (Z.eqb_spec (byteCode b) 160); [lia|]. rewrite orb_false_r.
  destruct ((byteCode b =? 32) || ((9 <=? byteCode b) && (byteCode b <=? 13)));
    [exact IH|].
  destruct (Z.eqb_spec (byteCode b) 194); [lia|]. cbn [andb].
  destruct r as [|b1 [|b2 r2]]; try reflexivity.
  unfold wideSpace.
  destruct (Z.eqb_spec (byteCode b) 225); [lia|].
  destruct (Z.eqb_spec (byteCode b) 226); [lia|].
  destruct (Z.eqb_spec (byteCode b) 227); [lia|].
  destruct (Z.eqb_spec (byteCode b) 239); [lia|].
  reflexivity.
Qed.

Lemma parseIntUtf8_sevenBit (buf : list byte) :
  Forall sevenBit buf -> parseIntUtf8 buf = parseInt (string_of_list_byte buf).
Proof.
  intros H. unfold parseIntUtf8, parseInt. now rewrite skipWhite_sevenBit.
Qed.

Lemma digits_sevenBit (s : string) :
  allDigits s -> Forall sevenBit (list_byte_of_string s).
Proof.
  unfold allDigits, list_byte_of_string.
  induction s as [|c s IH]; intros Hd; [constructor|].
  apply Forall_cons in Hd as [Hc Hd]. cbn [list_ascii_of_string map].
  constructor; [|now apply IH].
  destruct c as [[] [] [] [] [] [] [] []]; try discriminate;
    unfold sevenBit; cbn; lia.
Qed.

Lemma parseIntUtf8_toString (p : Z) :
  0 <= p -> parseIntUtf8 (list_byte_of_string (toString p)) = Some p.
Proof.
  intros Hp. destruct (toString_digits p Hp) as (Hd & _ & _).
  rewrite parseIntUtf8_sevenBit by now apply digits_sevenBit.
  rewrite string_of_list_byte_of_string. now apply parseInt_toString.
Qed.

Lemma untag_origin (ownPid : Z) (processMessage : bool) (msg : list byte) :
  untag ownPid processMessage msg
  = match origin msg with
    | Some (Some p, rest) => (rest, negb (ownPid =? p))
    | Some (None, rest) => (rest, true)
    | None => (msg, processMessage)
    end.
Proof.
  unfold untag, origin. destruct msg as [|b msg]; [reflexivity|].
  destruct (Byte.eqb b "@"%byte); [|reflexivity].
  destruct (indexOf (b :: msg) ":"%byte >? 1); [|reflexivity].
  now destruct (parseIntUtf8 _).
Qed.

Lemma list_byte_of_string_app (s t : string) :
  list_byte_of_string (s +:+ t)
  = list_byte_of_string s ++ list_byte_of_string t.
Proof.
  unfold list_byte_of_string. induction s as [|c s IH]; [reflexivity|].
  rewrite append_String. cbn. now rewrite IH.
Qed.

Lemma indexOf_digits (s : string) (rest : list byte) :
  allDigits s ->
  indexOf (list_byte_of_string s ++ ":"%byte :: rest) ":"%byte
  = Z.of_nat (length (list_byte_of_string s)).
Proof.
  unfold allDigits, list_byte_of_string.
  induction s as [|c s IH]; intros Hd; [reflexivity|].
  apply Forall_cons in Hd as [Hc Hd]. cbn [list_ascii_of_string map app].
  cbn [indexOf length]. rewrite (IH Hd).
  assert (Hb : Byte.eqb (byte_of_ascii c) ":"%byte = false).
  { destruct c as [[] [] [] [] [] [] [] []]; try discriminate; reflexivity. }
  rewrite Hb. destruct (Z.ltb_spec (Z.of_nat (length (map byte_of_ascii
    (list_ascii_of_string s)))) 0); lia.
Qed.

(** A message that begins with the tag of [p] has origin [p], and the rest
    is what follows the tag. *)
Lemma origin_tag (p : Z) (rest : list byte) :
  0 <= p -> origin (tag p ++ rest) = Some (Some p, rest).
Proof.
  intros Hp. destruct (toString_digits p Hp) as (Hd & Hs & _).
  unfold tag. rewrite !list_byte_of_string_app.
  change (list_byte_of_string "@") with ["@"%byte].
  change (list_byte_of_string ":") with [":"%byte].
  set (digits := list_byte_of_string (toString p)).
  assert (Hlen : (0 < length digits)%nat).
  { subst digits. destruct (toString p); [discriminate | cbn; lia]. }
  cbn [app]. rewrite <- app_assoc. cbn [app].
  unfold origin. cbn [Byte.eqb]. change (Byte.eqb "@" "@") with true.
  cbn iota.
  assert (Hidx : indexOf ("@"%byte :: digits ++ ":"%byte :: rest) ":"%byte
                 = 1 + Z.of_nat (length digits)).
  { cbn [indexOf]. change (Byte.eqb "@" ":") with false. cbn iota.
    subst digits. rewrite (indexOf_digits _ rest Hd).
    destruct (Z.ltb_spec (Z.of_nat (length (list_byte_of_string
      (toString p)))) 0); lia. }
  rewrite Hidx.
  destruct (Z.gtb_spec (1 + Z.of_nat (length digits)) 1); [|lia].
  unfold slice.
  replace (Z.to_nat (1 + Z.of_nat (length digits) - 1)) with (length digits)
    by lia.
  replace (Z.to_nat (1 + Z.of_nat (length digits) + 1))
    with (S (length digits + 1)) by lia.
  replace (Z.to_nat (Z.of_nat (length ("@"%byte :: digits
                                         ++ ":"%byte :: rest))
                     - (1 + Z.of_nat (length digits) + 1)))
    with (length rest)
    by (cbn [length]; rewrite length_app; cbn [length]; lia).
  change (Z.to_nat 1) with 1%nat. cbn [skipn].
  rewrite drop_0, take_app_length.
  change (digits ++ ":"%byte :: rest) with (digits ++ [":"%byte] ++ rest).
  rewrite app_assoc, drop_app_length' by (rewrite length_app; cbn; lia).
  rewrite firstn_all. subst digits.
  now rewrite (parseIntUtf8_toString p Hp).
Qed.

(** ** Dispatch of a datagram *)



Section Dispatch.

Context {Mods : Modules} {Fns : Listeners}.

Lemma onMessage_run (sid : nat) (msg : list byte) (st : emitter) (s : socket) :
  sockets st !! sid = Some s ->
  sock_open s = true ->
  sock_listening s = true ->
  onMessage sid msg st
  = let '(payload, process) := untag (pid st) (processMessage s) msg in
    if process then
      match decrypt (this st) payload with
      | Ok decryptedMessage =>
          handleEvent (sock_event s) decryptedMessage
                      (setProcess sid true st)
      | Throw e => (Throw e, setProcess sid true st)
      end
    else (Ok [], setProcess sid false st).
Proof.
  intros Hs Ho Hl. unfold onMessage. rewrite bind_gets, Hs, Ho, Hl.
  cbn [andb]. rewrite bind_gets.
  destruct (untag (pid st) (processMessage s) msg) as [payload process].
  unfold updateSocket. rewrite bind_modify. fold (setProcess sid process st).
  destruct process; [|reflexivity].
  rewrite bind_gets. unfold lift, bind.
  now destruct (decrypt _ payload).
Qed.

Lemma handlersOf_leaving (event : string) (r : nat) (kept : list handler)
  (st : emitter) :
  handlersOf event (leaving event r kept st) = kept.
Proof.
  unfold handlersOf. destruct kept;
    cbn [leaving listeners with_listeners with_listenerKeys with_sockets].
  - now rewrite lookup_delete_eq.
  - now rewrite lookup_insert_eq.
Qed.





Lemma onMessage_discarded (sid : nat) (msg payload : list byte)
  (st : emitter) (s : socket) :
  sockets st !! sid = Some s ->
  sock_open s = true ->
  sock_listening s = true ->
  untag (pid st) (processMessage s) msg = (payload, false) ->
  onMessage sid msg st = (Ok [], setProcess sid false st).
Proof.
  intros Hs Ho Hl Hu. now rewrite (onMessage_run _ _ _ _ Hs Ho Hl), Hu.
Qed.


(** Once a datagram with the tag of this process has been dropped,
    [processMessage] stays false: the datagrams without tag that follow are
    dropped too, until one with another tag arrives. *)
Lemma processMessage_sticks (sid : nat) (msg : list byte) (st : emitter)
  (s : socket) :
  sockets st !! sid = Some s ->
  sock_open s = true ->
  sock_listening s = true ->
  processMessage s = false ->
  origin msg = None ->
  onMessage sid msg st = (Ok [], setProcess sid false st).
Proof.
  intros Hs Ho Hl Hpm Hor.
  apply (onMessage_discarded _ _ msg _ s); try assumption.
  now rewrite untag_origin, Hor, Hpm.
Qed.


End Dispatch.


Lemma follows_listening1 :
  follows (Mods := Example.modules) (Fns := Example.listeners)
    Example.emitter1 listening1.
Proof. repeat apply follows_step. apply follows_start. Qed.



(** ** Addresses that the pattern accepts *)

Lemma rests_Seq (r1 r2 : Re.t) (s x : string) :
  In x (Re.rests (Re.Seq r1 r2) s)
  <-> exists y : string, In y (Re.rests r1 s) /\ In x (Re.rests r2 y).
Proof.
  cbn [Re.rests]. rewrite in_concat. split.
  - intros (l & Hl & Hx). apply in_map_iff in Hl as (y & <- & Hy). eauto.
  - intros (y & Hy & Hx). exists (Re.rests r2 y). split; [|exact Hx].
    apply in_map_iff. eauto.
Qed.

Lemma multicastPattern_split (s x : string) :
  In x (Re.rests multicastPattern s)
  <-> In x (Re.rests (Re.Seq firstOctet threeOctets) s).
Proof.
  unfold multicastPattern, firstOctet. fold threeOctets.
  rewrite !rests_Seq. split.
  - intros (y & Hy & Hx). apply rests_Seq in Hx as (z & Hz & Hx).
    exists z. split; [|exact Hx]. apply rests_Seq. eauto.
  - intros (z & Hz & Hx). apply rests_Seq in Hz as (y & Hy & Hz).
    exists y. split; [exact Hy|]. apply rests_Seq. eauto.
Qed.

Lemma in_range (lo n : nat) (z : Z) :
  Z.of_nat lo <= z < Z.of_nat (lo + n) -> In (Z.to_nat z) (seq lo n).
Proof. intros Hz. apply in_seq. lia. Qed.

(** The decimal of every number from 0 to 255, after a dot, is matched to
    its end by the pattern of an octet. *)
Lemma dotOctet_toString (b : Z) :
  0 <= b <= 255 -> In "" (Re.rests dotOctet ("." +:+ toString b)).
Proof.
  intros Hb.
  assert (Hall : forallb
                   (fun n => existsb (String.eqb "")
                               (Re.rests dotOctet
                                  ("." +:+ toString (Z.of_nat n))))
                   (seq 0 256) = true) by (vm_compute; reflexivity).
  rewrite forallb_forall in Hall.
  specialize (Hall (Z.to_nat b) (in_range 0 256 b ltac:(lia))).
  rewrite Z2Nat.id in Hall by lia.
  apply existsb_exists in Hall as (x & Hin & Heq).
  apply String.eqb_eq in Heq. now subst x.
Qed.

Lemma firstOctet_toString (a : Z) :
  octetMin <= a <= octetMax -> In "" (Re.rests firstOctet (toString a)).
Proof.
  unfold octetMin, octetMax. intros Ha.
  assert (Hall : forallb
                   (fun n => existsb (String.eqb "")
                               (Re.rests firstOctet (toString (Z.of_nat n))))
                   (seq 224 16) = true) by (vm_compute; reflexivity).
  rewrite forallb_forall in Hall.
  specialize (Hall (Z.to_nat a) (in_range 224 16 a ltac:(lia))).
  rewrite Z2Nat.id in Hall by lia.
  apply existsb_exists in Hall as (x & Hin & Heq).
  apply String.eqb_eq in Heq. now subst x.
Qed.

Lemma append_assoc (s t u : string) : (s +:+ t) +:+ u = s +:+ (t +:+ u).
Proof.
  induction s as [|c s IH]; [reflexivity|].
  now rewrite !append_String, IH.
Qed.

Lemma dotted_syntax (a b c d : Z) :
  octetMin <= a <= octetMax ->
  0 <= b <= 255 -> 0 <= c <= 255 -> 0 <= d <= 255 ->
  multicastSyntax (dotted a b c d) = true.
Proof.
  intros Ha Hb Hc Hd. unfold multicastSyntax, Re.whole.
  apply existsb_exists. exists "". split; [|reflexivity].
  apply multicastPattern_split, rests_Seq.
  unfold dotted. cbn [map String.concat].
  exists ("." +:+ toString b +:+ "." +:+ toString c +:+ "." +:+ toString d).
  split.
  - apply (rests_app firstOctet (toString a) _ ""), firstOctet_toString, Ha.
  - unfold threeOctets. apply rests_Seq.
    exists ("." +:+ toString c +:+ "." +:+ toString d). split.
    + rewrite <- append_assoc.
      apply (rests_app dotOctet ("." +:+ toString b) _ ""),
        dotOctet_toString, Hb.
    + apply rests_Seq. exists ("." +:+ toString d). split.
      * rewrite <- append_assoc.
        apply (rests_app dotOctet ("." +:+ toString c) _ ""),
          dotOctet_toString, Hc.
      * apply dotOctet_toString, Hd.
Qed.

(** X4.  Every multicast address written as four decimal numbers with
    dots, the first from 224 to 239 and the others from 0 to 255, passes
    [isMulticastAddress]; given as group it is the address of the emitter,
    as it is, whatever the octet option says. *)
Theorem multicast_addresses_recognised :
  forall a b c d : Z,
    octetMin <= a <= octetMax ->
    0 <= b <= 255 -> 0 <= c <= 255 -> 0 <= d <= 255 ->
    isMulticastAddress (dotted a b c d) = true
    /\ (forall octet : Z, deriveAddress (dotted a b c d) octet = dotted a b c d)
    /\ forall (opts : Opts) (proc : process) (e : emitter),
         opts_group opts = Some (dotted a b c d) ->
         fst (EventEmitter opts proc) = Ok e ->
         this_address (this e) = dotted a b c d.
Proof.
  intros a b c d Ha Hb Hc Hd.
  assert (Hm : isMulticastAddress (dotted a b c d) = true)
    by (apply whole_test, dotted_syntax; assumption).
  split; [exact Hm|]. split.
  - intros octet. unfold deriveAddress. now rewrite Hm.
  - intros opts proc e Hg He.
    apply EventEmitter_Ok in He as (Hgroup & _ & -> & _).
    rewrite Hgroup, Hg. unfold orString.
    rewrite (isMulticastAddress_truthy _ Hm).
    unfold deriveAddress. now rewrite Hm.
Qed.

(** X3.  When the constructor derives the address from the digest of the
    group, the address it builds is itself a multicast address: the pattern
    of [isMulticastAddress] matches the whole of it. *)
Theorem derived_address_is_multicast :
  forall (opts : Opts) (proc : process) (e : emitter),
    fst (EventEmitter opts proc) = Ok e ->
    isMulticastAddress (this_group (this e)) = false ->
    multicastSyntax (this_address (this e)) = true
    /\ isMulticastAddress (this_address (this e)) = true.
Proof.
  intros opts proc e He Hno.
  apply EventEmitter_Ok in He as (_ & _ & Ha & _ & Ho & _).
  assert (Hs : multicastSyntax (this_address (this e)) = true).
  { rewrite Ha. unfold deriveAddress. rewrite Hno. unfold derivedOctets.
    apply dotted_syntax; try apply charCodeAt_bounds; [exact Ho|].
    pose proof (charCodeAt_bounds (md5 (this_group (this e))) 2) as Hb.
    destruct (Z.eqb_spec (charCodeAt (md5 (this_group (this e))) 2) 0);
      [cbn [orb]; lia|].
    destruct (Z.eqb_spec (charCodeAt (md5 (this_group (this e))) 2) 255);
      cbn [orb]; lia. }
  split; [exact Hs | now apply whole_test].
Qed.

(** ** What the pattern accepts *)

Lemma rests_Chr (c : ascii) (s y : string) :
  In y (Re.rests (Re.Chr c) s) <-> s = String c y.
Proof.
  cbn [Re.rests]. destruct s as [|d s']; [split; [intros [] | discriminate]|].
  destruct (Ascii.eqb_spec c d) as [->|Hne]; cbn.
  - split; [intros [->|[]]; reflexivity | intros [= ->]; now left].
  - split; [intros [] | intros [= -> _]; contradiction].
Qed.

Lemma rests_Range (lo hi : ascii) (s y : string) :
  In y (Re.rests (Re.Range lo hi) s)
  <-> exists d : ascii, s = String d y /\ Re.inRange lo hi d = true.
Proof.
  cbn [Re.rests]. destruct s as [|d s'].
  - split; [intros [] | intros (? & ? & _); discriminate].
  - destruct (Re.inRange lo hi d) eqn:Hd; cbn.
    + split; [intros [->|[]]; eauto | intros (d' & [= -> ->] & _); now left].
    + split; [intros [] | intros (d' & [= -> ->] & Hd'); congruence].
Qed.

Lemma rests_Digit (s y : string) :
  In y (Re.rests Re.Digit s)
  <-> exists d : ascii, s = String d y /\ isDigit d = true.
Proof.
  cbn [Re.rests]. destruct s as [|d s'].
  - split; [intros [] | intros (? & ? & _); discriminate].
  - destruct (isDigit d) eqn:Hd; cbn.
    + split; [intros [->|[]]; eauto | intros (d' & [= -> ->] & _); now left].
    + split; [intros [] | intros (d' & [= -> ->] & Hd'); congruence].
Qed.

Lemma rests_Alt (r1 r2 : Re.t) (s y : string) :
  In y (Re.rests (Re.Alt r1 r2) s)
  <-> In y (Re.rests r1 s) \/ In y (Re.rests r2 s).
Proof. cbn [Re.rests]. apply in_app_iff. Qed.

Lemma rests_Opt (r : Re.t) (s y : string) :
  In y (Re.rests (Re.Opt r) s) <-> In y (Re.rests r s) \/ y = s.
Proof.
  cbn [Re.rests]. rewrite in_app_iff. cbn. split.
  - intros [H|[<-|[]]]; auto.
  - intros [H| ->]; [now left | right; now left].
Qed.

(** The value of a decimal digit. *)
Lemma digit_cases (d : ascii) :
  isDigit d = true ->
  exists k : Z, 0 <= k <= 9 /\ d = char_of (48 + k).
Proof.
  intros Hd. exists (code_of d - 48).
  unfold isDigit in Hd. apply andb_true_iff in Hd as [H1 H2].
  apply Z.leb_le in H1, H2. split; [lia|].
  replace (48 + (code_of d - 48)) with (code_of d) by lia.
  unfold char_of, code_of.
  now rewrite N2Z.id, ascii_N_embedding.
Qed.


Lemma range_cases (lo hi d : ascii) :
  Re.inRange lo hi d = true ->
  exists k : Z, code_of lo - 48 <= k <= code_of hi - 48 /\ d = char_of (48 + k).
Proof.
  intros Hd. exists (code_of d - 48).
  unfold Re.inRange in Hd. apply andb_true_iff in Hd as [H1 H2].
  apply Z.leb_le in H1, H2. split; [lia|].
  replace (48 + (code_of d - 48)) with (code_of d) by lia.
  unfold char_of, code_of.
  now rewrite N2Z.id, ascii_N_embedding.
Qed.

Lemma in_digits (lo n : nat) (k : Z) :
  Z.of_nat lo <= k < Z.of_nat (lo + n) ->
  In k (map Z.of_nat (seq lo n)).
Proof.
  intros Hk. apply in_map_iff. exists (Z.to_nat k).
  split; [lia | apply in_seq; lia].
Qed.

(** The decimals of the numbers below 1000, digit by digit. *)
Lemma toString_1 (u : Z) :
  0 <= u <= 9 -> toString u = String (char_of (48 + u)) "".
Proof.
  intros Hu.
  assert (Hall : forallb
                   (fun u => String.eqb (toString u)
                                        (String (char_of (48 + u)) ""))
                   (map Z.of_nat (seq 0 10)) = true)
    by (vm_compute; reflexivity).
  rewrite forallb_forall in Hall.
  apply String.eqb_eq, Hall, (in_digits 0 10). lia.
Qed.

Lemma toString_2 (t u : Z) :
  1 <= t <= 9 -> 0 <= u <= 9 ->
  toString (10 * t + u)
  = String (char_of (48 + t)) (String (char_of (48 + u)) "").
Proof.
  intros Ht Hu.
  assert (Hall : forallb
                   (fun t =>
                      forallb
                        (fun u =>
                           String.eqb
                             (toString (10 * t + u))
                             (String (char_of (48 + t))
                                     (String (char_of (48 + u)) "")))
                        (map Z.of_nat (seq 0 10)))
                   (map Z.of_nat (seq 1 9)) = true)
    by (vm_compute; reflexivity).
  rewrite forallb_forall in Hall.
  specialize (Hall t (in_digits 1 9 t ltac:(lia))).
  rewrite forallb_forall in Hall.
  apply String.eqb_eq, Hall, (in_digits 0 10). lia.
Qed.

Lemma toString_3 (h t u : Z) :
  1 <= h <= 9 -> 0 <= t <= 9 -> 0 <= u <= 9 ->
  toString (100 * h + 10 * t + u)
  = String (char_of (48 + h))
           (String (char_of (48 + t)) (String (char_of (48 + u)) "")).
Proof.
  intros Hh Ht Hu.
  assert (Hall : forallb
                   (fun h =>
                      forallb
                        (fun t =>
                           forallb
                             (fun u =>
                                String.eqb
                                  (toString (100 * h + 10 * t + u))
                                  (String (char_of (48 + h))
                                     (String (char_of (48 + t))
                                        (String (char_of (48 + u)) ""))))
                             (map Z.of_nat (seq 0 10)))
                        (map Z.of_nat (seq 0 10)))
                   (map Z.of_nat (seq 1 9)) = true)
    by (vm_compute; reflexivity).
  rewrite forallb_forall in Hall.
  specialize (Hall h (in_digits 1 9 h ltac:(lia))).
  rewrite forallb_forall in Hall.
  specialize (Hall t (in_digits 0 10 t ltac:(lia))).
  rewrite forallb_forall in Hall.
  apply String.eqb_eq, Hall, (in_digits 0 10). lia.
Qed.

(** What the pattern of an octet takes off a string: the decimal of a
    number from 0 to 255. *)
Lemma multicastOctet_matches (s y : string) :
  In y (Re.rests multicastOctet s) ->
  exists b : Z, 0 <= b <= 255 /\ s = toString b +:+ y.
Proof.
  unfold multicastOctet. intros H.
  repeat match goal with
           | H : In _ (Re.rests (Re.Seq _ _) _) |- _ =>
               apply rests_Seq in H; destruct H as (? & ? & ?)
           | H : In _ (Re.rests (Re.Alt _ _) _) |- _ =>
               apply rests_Alt in H; destruct H as [?|?]
           | H : In _ (Re.rests (Re.Opt _) _) |- _ =>
               apply rests_Opt in H; destruct H as [?|?]
           | H : In _ (Re.rests (Re.Chr _) _) |- _ =>
               apply rests_Chr in H
           | H : In _ (Re.rests (Re.Range _ _) _) |- _ =>
               apply rests_Range in H; destruct H as (? & ? & H);
               apply range_cases in H; destruct H as (? & ? & ?)
           | H : In _ (Re.rests Re.Digit _) |- _ =>
               apply rests_Digit in H; destruct H as (? & ? & H);
               apply digit_cases in H; destruct H as (? & ? & ?)
           end; subst;
  change (code_of "0") with 48 in *; change (code_of "1") with 49 in *;
    change (code_of "4") with 52 in *; change (code_of "5") with 53 in *;
    change (code_of "9") with 57 in *.
  - match goal with
    | |- context [String "2" (String "5" (String (char_of (48 + ?u)) _))] =>
        exists (100 * 2 + 10 * 5 + u)
    end.
    split; [lia | rewrite toString_3 by lia; reflexivity].
  - match goal with
    | |- context [String "2" (String (char_of (48 + ?t))
                                     (String (char_of (48 + ?u)) _))] =>
        exists (100 * 2 + 10 * t + u)
    end.
    split; [lia | rewrite toString_3 by lia; reflexivity].
  - match goal with
    | |- context [String "1" (String (char_of (48 + ?t))
                                     (String (char_of (48 + ?u)) _))] =>
        exists (100 * 1 + 10 * t + u)
    end.
    split; [lia | rewrite toString_3 by lia; reflexivity].
  - match goal with
    | |- context [String (char_of (48 + ?t))
                         (String (char_of (48 + ?u)) _)] =>
        exists (10 * t + u)
    end.
    split; [lia | rewrite toString_2 by lia; reflexivity].
  - match goal with
    | |- context [String (char_of (48 + ?u)) _] => exists u
    end.
    split; [lia | rewrite toString_1 by lia; reflexivity].
  - exists 0. split; [lia | reflexivity].
Qed.

Lemma firstOctet_matches (s y : string) :
  In y (Re.rests firstOctet s) ->
  exists a : Z, octetMin <= a <= octetMax /\ s = toString a +:+ y.
Proof.
  unfold firstOctet, octetMin, octetMax. intros H.
  repeat match goal with
           | H : In _ (Re.rests (Re.Seq _ _) _) |- _ =>
               apply rests_Seq in H; destruct H as (? & ? & ?)
           | H : In _ (Re.rests (Re.Alt _ _) _) |- _ =>
               apply rests_Alt in H; destruct H as [?|?]
           | H : In _ (Re.rests (Re.Opt _) _) |- _ =>
               apply rests_Opt in H; destruct H as [?|?]
           | H : In _ (Re.rests (Re.Chr _) _) |- _ =>
               apply rests_Chr in H
           | H : In _ (Re.rests (Re.Range _ _) _) |- _ =>
               apply rests_Range in H; destruct H as (? & ? & H);
               apply range_cases in H; destruct H as (? & ? & ?)
           | H : In _ (Re.rests Re.Digit _) |- _ =>
               apply rests_Digit in H; destruct H as (? & ? & H);
               apply digit_cases in H; destruct H as (? & ? & ?)
           end; subst;
  change (code_of "0") with 48 in *; change (code_of "1") with 49 in *;
    change (code_of "4") with 52 in *; change (code_of "5") with 53 in *;
    change (code_of "9") with 57 in *.
  - match goal with
    | |- context [String "2" (String "2" (String (char_of (48 + ?u)) _))] =>
        exists (100 * 2 + 10 * 2 + u)
    end.
    split; [lia | rewrite toString_3 by lia; reflexivity].
  - match goal with
    | |- context [String "2" (String "3" (String (char_of (48 + ?u)) _))] =>
        exists (100 * 2 + 10 * 3 + u)
    end.
    split; [lia | rewrite toString_3 by lia; reflexivity].
Qed.

Lemma multicastPattern_matches (s y : string) :
  In y (Re.rests multicastPattern s) ->
  exists a b c d : Z,
    octetMin <= a <= octetMax
    /\ 0 <= b <= 255 /\ 0 <= c <= 255 /\ 0 <= d <= 255
    /\ s = dotted a b c d +:+ y.
Proof.
  intros H. apply multicastPattern_split in H.
  apply rests_Seq in H as (y1 & H1 & H).
  unfold threeOctets, dotOctet in H.
  apply rests_Seq in H as (y2 & H2 & H).
  apply rests_Seq in H as (y3 & H3 & H4).
  apply rests_Seq in H2 as (z2 & Hd2 & H2).
  apply rests_Seq in H3 as (z3 & Hd3 & H3).
  apply rests_Seq in H4 as (z4 & Hd4 & H4).
  apply rests_Chr in Hd2, Hd3, Hd4. subst y1 y2 y3.
  apply firstOctet_matches in H1 as (a & Ha & ->).
  apply multicastOctet_matches in H2 as (b & Hb & ->).
  apply multicastOctet_matches in H3 as (c & Hc & ->).
  apply multicastOctet_matches in H4 as (d & Hd & ->).
  exists a, b, c, d. repeat (split; [assumption|]).
  unfold dotted. cbn [map String.concat].
  rewrite !append_assoc. reflexivity.
Qed.

Lemma test_matches (r : Re.t) (s : string) :
  Re.test r s = true ->
  exists pre t y : string, s = pre +:+ t /\ In y (Re.rests r t).
Proof.
  induction s as [|c s IH]; cbn [Re.test]; intros Ht.
  - rewrite orb_false_r in Ht. unfold Re.matchesAt in Ht.
    destruct (Re.rests r "") as [|y l] eqn:Hr; [discriminate|].
    exists "", "", y. rewrite Hr. split; [reflexivity | now left].
  - apply orb_true_iff in Ht as [Ht|Ht].
    + unfold Re.matchesAt in Ht.
      destruct (Re.rests r (String c s)) as [|y l] eqn:Hr; [discriminate|].
      exists "", (String c s), y. rewrite Hr. split; [reflexivity | now left].
    + destruct (IH Ht) as (pre & t & y & -> & Hy).
      exists (String c pre), t, y. split; [reflexivity | exact Hy].
Qed.

(** X21.  What [isMulticastAddress] accepts, exactly: the strings that hold,
    anywhere, four decimal numbers joined by dots, the first from 224 to
    239 and the others from 0 to 255, written without sign or leading
    zero.  The pattern matches the whole of a string exactly when the
    string is such an address. *)
Theorem isMulticastAddress_exactly :
  forall s : string,
    (isMulticastAddress s = true
     <-> exists (pre suf : string) (a b c d : Z),
           octetMin <= a <= octetMax
           /\ 0 <= b <= 255 /\ 0 <= c <= 255 /\ 0 <= d <= 255
           /\ s = pre +:+ dotted a b c d +:+ suf)
    /\ (multicastSyntax s = true
        <-> exists a b c d : Z,
              octetMin <= a <= octetMax
              /\ 0 <= b <= 255 /\ 0 <= c <= 255 /\ 0 <= d <= 255
              /\ s = dotted a b c d).
Proof.
  intros s. split; split.
  - intros Ht. apply test_matches in Ht as (pre & t & y & -> & Hy).
    apply multicastPattern_matches in Hy
      as (a & b & c & d & Ha & Hb & Hc & Hd & ->).
    exists pre, y, a, b, c, d. auto 6.
  - intros (pre & suf & a & b & c & d & Ha & Hb & Hc & Hd & ->).
    apply isMulticastAddress_substring. now apply dotted_syntax.
  - unfold multicastSyntax, Re.whole. intros Hw.
    apply existsb_exists in Hw as (y & Hy & Hempty).
    destruct y; [|discriminate].
    apply multicastPattern_matches in Hy
      as (a & b & c & d & Ha & Hb & Hc & Hd & ->).
    exists a, b, c, d. repeat (split; [assumption|]).
    clear. induction (dotted a b c d) as [|ch t IH]; [reflexivity|].
    now rewrite append_String, IH.
  - intros (a & b & c & d & Ha & Hb & Hc & Hd & ->).
    now apply dotted_syntax.
Qed.

(** ** The interface *)

Lemma verifyAddress_spec (proc : process) (a : string) :
  verifyAddress proc a = true
  <-> exists (nic : string) (addresses : list nic_address)
             (entry : nic_address),
        In (nic, addresses) (networkInterfaces proc)
        /\ In entry addresses
        /\ nic_address_address entry = a
        /\ nic_address_internal entry = false.
Proof.
  unfold verifyAddress. rewrite existsb_exists. split.
  - intros ([nic addresses] & Hnic & Hex). cbn [snd] in Hex.
    apply existsb_exists in Hex as (entry & Hentry & Hb).
    apply andb_true_iff in Hb as [Heq Hint].
    apply String.eqb_eq in Heq. apply negb_true_iff in Hint.
    eauto 8.
  - intros (nic & addresses & entry & Hnic & Hentry & Heq & Hint).
    exists (nic, addresses). split; [exact Hnic|]. cbn [snd].
    apply existsb_exists. exists entry. split; [exact Hentry|].
    rewrite Hint. cbn [negb]. rewrite andb_true_r.
    now apply String.eqb_eq.
Qed.

(** X5.  [verifyAddress] and the constructor: with a non-empty
    [interface] option the constructor returns only if some network
    interface of the machine lists that address as an external one, and it
    keeps the option as it is; an address that the machine has only as an
    internal one (or not at all) is refused with the interface error,
    unless the ttl was refused first. *)
Theorem interface_is_external_address :
  forall (opts : Opts) (proc : process) (a : string),
    opts_interface opts = Some a ->
    truthy a = true ->
    (forall e : emitter,
        fst (EventEmitter opts proc) = Ok e ->
        this_interface (this e) = Some a
        /\ exists (nic : string) (addresses : list nic_address)
                  (entry : nic_address),
             In (nic, addresses) (networkInterfaces proc)
             /\ In entry addresses
             /\ nic_address_address entry = a
             /\ nic_address_internal entry = false)
    /\ ((forall (nic : string) (addresses : list nic_address)
                (entry : nic_address),
            In (nic, addresses) (networkInterfaces proc) ->
            In entry addresses ->
            nic_address_address entry = a ->
            nic_address_internal entry = true) ->
        fst (EventEmitter opts proc) = Throw InvalidInterface
        \/ fst (EventEmitter opts proc) = Throw TtlOutOfRange).
Proof.
  intros opts proc a Hi Ha. split.
  - intros e. unfold EventEmitter. rewrite Hi. cbn [fst truthyOpt from_option Datatypes.id].
    rewrite Ha. cbn [andb].
    destruct (parseIntOf _) as [t|]; [|discriminate].
    destruct ((t <? ttlMin) || (t >? ttlMax)); [discriminate|].
    destruct (verifyAddress proc a) eqn:Hv; cbn [negb]; [|discriminate].
    destruct (negb _ && _); [discriminate|].
    destruct ((orZ (opts_octet opts) octet <? octetMin) || _); [discriminate|].
    destruct ((orZ (opts_port opts) port <? portMin) || _); [discriminate|].
    intros [= <-]. split; [reflexivity|]. now apply verifyAddress_spec.
  - intros Hint.
    assert (Hv : verifyAddress proc a = false).
    { destruct (verifyAddress proc a) eqn:Hv; [|reflexivity].
      apply verifyAddress_spec in Hv
        as (nic & addresses & entry & Hnic & Hentry & Heq & Hext).
      rewrite (Hint nic addresses entry Hnic Hentry Heq) in Hext.
      discriminate. }
    unfold EventEmitter. rewrite Hi. cbn [fst truthyOpt from_option Datatypes.id].
    rewrite Ha, Hv. cbn [andb negb].
    destruct (parseIntOf _) as [t|]; [|now right].
    destruct ((t <? ttlMin) || (t >? ttlMax)); [now right | now left].
Qed.

(** ** A port that another event holds *)

(** X16.  The octet and the port options.  A first octet outside 224..239
    and a base port outside 1024..16384 are refused with a configuration
    error, except for 0, which stands for the default as an absent option
    does: 239 and 1967. *)
Theorem EventEmitter_refuses_out_of_range :
  forall (opts : Opts) (proc : process),
    (forall o : Z,
        opts_octet opts = Some o -> o <> 0 ->
        o < octetMin \/ octetMax < o ->
        exists err : error,
          fst (EventEmitter opts proc) = Throw err
          /\ classify err = ConfigError)
    /\ (forall p : Z,
           opts_port opts = Some p -> p <> 0 ->
           p < portMin \/ portMax < p ->
           exists err : error,
             fst (EventEmitter opts proc) = Throw err
             /\ classify err = ConfigError)
    /\ (forall e : emitter,
           fst (EventEmitter opts proc) = Ok e ->
           (opts_octet opts = Some 0 \/ opts_octet opts = None ->
            this_octet (this e) = octet)
           /\ (opts_port opts = Some 0 \/ opts_port opts = None ->
               this_port (this e) = port)).
Proof.
  intros opts proc. split; [|split].
  - intros o Ho Hnz Hrange. unfold EventEmitter. cbn [fst]. rewrite Ho.
    destruct (parseIntOf _) as [t|]; [|eauto].
    destruct ((t <? ttlMin) || (t >? ttlMax)); [eauto|].
    destruct (truthyOpt _ && negb _); [eauto|].
    destruct (negb _ && _); [eauto|].
    assert (Hbad : (orZ (Some o) octet <? octetMin)
                   || (orZ (Some o) octet >? octetMax) = true).
    { unfold orZ, truthyZ. destruct (Z.eqb_spec o 0); [contradiction|].
      cbn [negb]. apply orb_true_iff. lia. }
    rewrite Hbad. eauto.
  - intros p Hp Hnz Hrange. unfold EventEmitter. cbn [fst]. rewrite Hp.
    destruct (parseIntOf _) as [t|]; [|eauto].
    destruct ((t <? ttlMin) || (t >? ttlMax)); [eauto|].
    destruct (truthyOpt _ && negb _); [eauto|].
    destruct (negb _ && _); [eauto|].
    destruct ((orZ (opts_octet opts) octet <? octetMin) || _); [eauto|].
    assert (Hbad : (orZ (Some p) port <? portMin)
                   || (orZ (Some p) port >? portMax) = true).
    { unfold orZ, truthyZ. destruct (Z.eqb_spec p 0); [contradiction|].
      cbn [negb]. apply orb_true_iff. lia. }
    rewrite Hbad. eauto.
  - intros e. unfold EventEmitter. cbn [fst].
    destruct (parseIntOf _) as [t|]; [|discriminate].
    destruct ((t <? ttlMin) || (t >? ttlMax)); [discriminate|].
    destruct (truthyOpt _ && negb _); [discriminate|].
    destruct (negb _ && _); [discriminate|].
    destruct ((orZ (opts_octet opts) octet <? octetMin) || _); [discriminate|].
    destruct ((orZ (opts_port opts) port <? portMin) || _); [discriminate|].
    intros [= <-]. cbn [this this_octet this_port].
    split; intros [->| ->]; reflexivity.
Qed.

(** ** The properties on the example emitters *)

Lemma derived_address_is_multicast_witness :
  isMulticastAddress "events" = false
  /\ multicastSyntax (this_address (this Example.emitter1)) = true.
Proof.
  split; [vm_compute; reflexivity|].
  apply (derived_address_is_multicast Example.noOpts Example.proc
           Example.emitter1);
    vm_compute; reflexivity.
Defined.

Lemma multicast_addresses_recognised_witness :
  dotted 239 1 1 1 = "239.1.1.1"
  /\ isMulticastAddress (dotted 239 1 1 1) = true.
Proof.
  split; [vm_compute; reflexivity|].
  apply (multicast_addresses_recognised 239 1 1 1);
    unfold octetMin, octetMax; lia.
Defined.

Lemma interface_is_external_address_witness :
  this_interface (this (Example.built interfaceOpts Example.proc))
  = Some "192.168.2.37".
Proof.
  apply (interface_is_external_address interfaceOpts Example.proc
           "192.168.2.37");
    vm_compute; reflexivity.
Defined.


Lemma isMulticastAddress_exactly_witness :
  isMulticastAddress "x239.1.1.1" = true
  /\ multicastSyntax "x239.1.1.1" = false.
Proof.
  split; [|vm_compute; reflexivity].
  apply (proj1 (isMulticastAddress_exactly "x239.1.1.1")).
  exists "x", "", 239, 1, 1, 1. unfold octetMin, octetMax.
  repeat (split; [lia|]). vm_compute. reflexivity.
Defined.


(** * Further properties *)

(** ** The configuration *)

Section Configuration.

Context {Mods : Modules} {Fns : Listeners}.

(** X1.  No method changes what the constructor has set: in every state of
    a constructed emitter the configuration and the pid are those of the
    start, so the ttl lies between 1 and 255, the first octet between 224
    and 239, the base port between 1024 and 16384, foreign-only mode is on
    only together with loopback, and the address is the one computed from
    the group and the octet. *)
Theorem configuration_kept :
  forall st0 st : emitter,
    constructed st0 ->
    follows st0 st ->
    this st = this st0
    /\ pid st = pid st0
    /\ ttlMin <= this_ttl (this st) <= ttlMax
    /\ octetMin <= this_octet (this st) <= octetMax
    /\ portMin <= this_port (this st) <= portMax
    /\ (this_foreignOnly (this st) = true -> this_loopback (this st) = true)
    /\ this_address (this st)
       = deriveAddress (this_group (this st)) (this_octet (this st)).
Proof.
  intros st0 st Hc Hf. pose proof (wf_follows _ _ Hc Hf) as Hwf.
  destruct Hc as (opts & proc & Hc).
  apply EventEmitter_Ok in Hc as (_ & _ & Ha & ? & ? & ? & ? & _).
  rewrite (wf_this _ _ Hwf), (wf_pid _ _ Hwf). auto 10.
Qed.

(** X2.  The base port is at most [portMax] and the offset at most 32767:
    every port that [generatePort] gives lies between 1024 and 49151, below
    the first ephemeral port.  So does, in every state of a constructed
    emitter, the port that the table holds for an event that the table
    given to the constructor does not list, and the port that [getPort]
    returns for such an event, other than ['__proto__'], while the table
    has no key ['hasOwnProperty']. *)
Theorem generated_ports_registered_range :
  forall st0 st : emitter,
    constructed st0 ->
    follows st0 st ->
    generatedPortMax = 49151
    /\ (forall e : string,
           portMin <= generatePort (this st) e <= generatedPortMax)
    /\ (forall (e : string) (p : Z),
           unlisted st0 e ->
           Obj.get e (events st) = Some p ->
           portMin <= p <= generatedPortMax)
    /\ (forall e : string,
           truthy e = true ->
           unlisted st0 e ->
           e <> "__proto__" ->
           sound st ->
           exists (p : Z) (st' : emitter),
             getPort e st = (Ok (JNumber p), st')
             /\ portMin <= p <= generatedPortMax).
Proof.
  intros st0 st Hc Hf. pose proof (wf_follows _ _ Hc Hf) as Hwf.
  pose proof (wf_table _ _ Hwf) as Hta.
  destruct Hc as (opts & proc & Hc).
  apply EventEmitter_Ok in Hc as (_ & _ & _ & _ & _ & Hp & _).
  rewrite <- (wf_this _ _ Hwf) in Hp.
  assert (Hgen : forall e : string,
             portMin <= generatePort (this st) e <= generatedPortMax).
  { intros e. destruct (generatePort_offset (this st) e) as (-> & _ & _ & ?).
    unfold generatedPortMax. lia. }
  split; [reflexivity|]. split; [exact Hgen|]. split.
  - intros e p Hu Hg. rewrite (table_value _ _ Hta e p Hu Hg). apply Hgen.
  - intros e Ht Hu Hne Hs. exists (portOf e st), (cache e st).
    split; [now rewrite (getPort_run _ _ Ht Hs), portValue_stored|].
    unfold portOf. destruct (Obj.get e (events st)) as [p|] eqn:Hg.
    + rewrite (table_value _ _ Hta e p Hu Hg). apply Hgen.
    + apply Hgen.
Qed.

End Configuration.

Lemma configuration_kept_witness :
  this listening1 = this Example.emitter1
  /\ this_ttl (this listening1) = 64
  /\ this_address (this listening1) = "239.22.144.139".
Proof.
  destruct (configuration_kept (Mods := Example.modules)
              (Fns := Example.listeners)
              Example.emitter1 listening1 constructed_emitter1
              follows_listening1)
    as (Hthis & _).
  split; [exact Hthis|]. split; vm_compute; reflexivity.
Defined.

Lemma generated_ports_registered_range_witness :
  Obj.get "test" (events listening1) = Some 27634
  /\ portMin <= 27634 <= generatedPortMax.
Proof.
  destruct (generated_ports_registered_range (Mods := Example.modules)
              (Fns := Example.listeners)
              Example.emitter1 listening1 constructed_emitter1
              follows_listening1)
    as (_ & _ & Hlisted & _).
  assert (Hget : Obj.get "test" (events listening1) = Some 27634)
    by (vm_compute; reflexivity).
  split; [exact Hget|].
  apply (Hlisted "test" 27634); [reflexivity | exact Hget].
Defined.

(** ** Emission *)

Section Sending.

Context {Mods : Modules} {Fns : Listeners}.

Lemma cache_with_sent (event : string) (d : list datagram) (st : emitter) :
  cache event (with_sent d st) = with_sent d (cache event st).
Proof. unfold cache. cbn. now destruct (Obj.get event (events st)). Qed.

Lemma portValue_number (event : string) (p : Z) (st : emitter) :
  portValue event st = JNumber p ->
  Obj.get event (events (cache event st)) = Some p.
Proof.
  unfold portValue, Obj.read.
  destruct (Obj.get event (events (cache event st))) as [q|];
    [now intros [= ->]|].
  now destruct (Obj.isInherited event).
Qed.

(** The datagram that [_emit] sends: the encrypted message, after the tag
    of the process in foreign-only mode, to the port of the event. *)
Lemma _emit_run (event : string) (args : list value) (st : emitter)
  (enc : list byte) (p : Z) :
  truthy event = true ->
  sound st ->
  event <> "hasOwnProperty" ->
  encrypt (this st) (pack (VString event :: args)) = Ok enc ->
  portValue event st = JNumber p ->
  1 <= p <= 65535 ->
  _emit event args st
  = (Ok tt,
     with_sent
       (sent st
        ++ [Datagram (if this_foreignOnly (this st)
                      then tag (pid st) ++ enc else enc)
                     p (this_address (this st))])
       (cache event st)).
Proof.
  intros Ht Hs Hhop Henc Hp Hr. unfold _emit.
  rewrite bind_gets, Henc, bind_lift, bind_gets.
  rewrite (bind_Ok _ _ _ _ _ (getPort_run _ _ Ht Hs)), Hp.
  unfold getAddress. rewrite bind_gets. unfold send.
  destruct (Z.leb_spec 1 p); [|lia]. destruct (Z.leb_spec p 65535); [|lia].
  cbn [andb]. rewrite bind_modify.
  assert (Hs' : sound (cache event st)) by now apply sound_cache.
  rewrite (bind_Ok _ _ _ _ _
             (getPort_run _ (with_sent _ (cache event st)) Ht Hs')).
  unfold ret. f_equal.
  rewrite cache_with_sent, (cache_own event (cache event st)),
    ?cache_this, ?cache_sent, ?cache_pid
    by (rewrite (portValue_number _ _ _ Hp); eauto).
  reflexivity.
Qed.

Lemma portValue_with_ticks (event : string) (t : list (list value))
  (st : emitter) :
  portValue event (with_ticks t st) = portValue event st.
Proof.
  unfold portValue, cache. cbn [events with_ticks this generated].
  now destruct (Obj.get event (events st)).
Qed.

Lemma nextTick_run (event : string) (args : list value)
  (rest : list (list value)) (st : emitter) :
  ticks st = (VString event :: args) :: rest ->
  nextTick st = _emit event args (with_ticks rest st).
Proof.
  intros Hq. unfold nextTick. rewrite bind_gets, Hq, bind_modify.
  reflexivity.
Qed.

(** X9.  [emit] sends nothing itself: it returns normally, whatever the
    event, and queues the call.  The datagram leaves on the next tick: the
    encrypted message, after the tag of the process in foreign-only mode,
    to the port of the event, which is recorded in the table, and to the
    address of the emitter (for a port that [send] takes, from 1 to 65535,
    and an event other than ['hasOwnProperty']).  An empty event name or a
    cipher that fails shows only on the tick, as the error thrown there,
    and nothing is sent. *)
Theorem emit_is_deferred :
  forall (st : emitter) (event : string) (args : list value),
    ticks st = [] ->
    (exists st1 : emitter,
        emit event args st = (Ok tt, st1)
        /\ sent st1 = sent st
        /\ events st1 = events st
        /\ ticks st1 = [VString event :: args])
    /\ (forall (enc : list byte) (p : Z),
           encrypt (this st) (pack (VString event :: args)) = Ok enc ->
           fst (getPort event st) = Ok (JNumber p) ->
           1 <= p <= 65535 ->
           event <> "hasOwnProperty" ->
           exists st2 : emitter,
             (emit event args ;;; nextTick) st = (Ok tt, st2)
             /\ sent st2
                = sent st
                  ++ [Datagram (if this_foreignOnly (this st)
                                then tag (pid st) ++ enc else enc)
                               p (this_address (this st))]
             /\ ticks st2 = []
             /\ Obj.get event (events st2) = Some p
             /\ listeners st2 = listeners st
             /\ sockets st2 = sockets st)
    /\ (forall enc : list byte,
           encrypt (this st) (pack (VString event :: args)) = Ok enc ->
           truthy event = false ->
           exists st2 : emitter,
             (emit event args ;;; nextTick) st = (Throw RequiresEvent, st2)
             /\ sent st2 = sent st /\ ticks st2 = [])
    /\ (forall err : error,
           encrypt (this st) (pack (VString event :: args)) = Throw err ->
           exists st2 : emitter,
             (emit event args ;;; nextTick) st = (Throw err, st2)
             /\ sent st2 = sent st /\ ticks st2 = []).
Proof.
  intros st event args Hq.
  assert (Hrun : (emit event args ;;; nextTick) st
                 = _emit event args (with_ticks [] st)).
  { unfold emit. rewrite bind_modify.
    rewrite (nextTick_run event args []) by (cbn; now rewrite Hq).
    reflexivity. }
  split; [|split; [|split]].
  - eexists. split; [reflexivity|]. cbn. now rewrite Hq.
  - intros enc p Henc Hp Hr Hhop.
    destruct (getPort_cases event st)
      as [(Ht & Hs & Hg)|[(Ht & Hs & Hg)|(-> & Hg)]];
      rewrite Hg in Hp; try discriminate.
    injection Hp as Hp.
    rewrite <- (portValue_with_ticks event [] st) in Hp.
    eexists. split;
      [rewrite Hrun;
       apply (_emit_run event args (with_ticks [] st) enc p Ht Hs Hhop Henc
                Hp Hr)|].
    cbn [sent with_sent ticks with_ticks listeners sockets this pid].
    rewrite cache_ticks, cache_listeners, cache_sockets.
    split; [reflexivity|]. split; [reflexivity|]. split; [|auto].
    apply (portValue_number event p (with_ticks [] st) Hp).
  - intros enc Henc Ht. destruct event; [|discriminate].
    eexists. split.
    + rewrite Hrun. unfold _emit. rewrite bind_gets.
      cbn [this with_ticks]. rewrite Henc, bind_lift, bind_gets.
      reflexivity.
    + split; reflexivity.
  - intros err Henc.
    eexists. split.
    + rewrite Hrun. unfold _emit. rewrite bind_gets.
      cbn [this with_ticks]. rewrite Henc, bind_lift. reflexivity.
    + split; reflexivity.
Qed.

Lemma setProcess_lookup (sid i : nat) (b : bool) (st : emitter) :
  sockets (setProcess sid b st) !! i
  = if decide (sid = i)
    then (fun s => Socket (sock_event s) (sock_port s) (sock_address s)
                          (sock_open s) (sock_listening s) (sock_member s) b)
           <$> sockets st !! sid
    else sockets st !! i.
Proof. unfold setProcess. cbn. apply list_lookup_alter. Qed.

(** X13.  A datagram with the tag of the own process silences the
    receiver: it is dropped, and so is every datagram without tag that
    arrives after it on that receiver, whatever it holds, since the
    variable [processMessage] of the receiver stays false.  The channels
    are not touched. *)
Theorem own_datagram_silences_receiver :
  forall (st0 st : emitter) (sid : nat) (s : socket) (rest next : list byte),
    constructed st0 ->
    follows st0 st ->
    sockets st !! sid = Some s ->
    sock_open s = true ->
    sock_listening s = true ->
    0 <= pid st ->
    origin next = None ->
    onMessage sid (tag (pid st) ++ rest) st
    = (Ok [], setProcess sid false st)
    /\ onMessage sid next (setProcess sid false st)
       = (Ok [], setProcess sid false st)
    /\ listeners (setProcess sid false st) = listeners st.
Proof.
  intros st0 st sid s rest next Hc Hf Hs Ho Hl Hpid Hnext. split; [|split].
  - apply (onMessage_discarded _ _ rest _ s); try assumption.
    now rewrite untag_origin, (origin_tag _ _ Hpid), Z.eqb_refl.
  - pose proof (setProcess_lookup sid sid false st) as Hlook.
    rewrite Hs in Hlook. destruct (decide (sid = sid)); [|congruence].
    cbn in Hlook.
    rewrite (processMessage_sticks sid next (setProcess sid false st) _
               Hlook Ho Hl eq_refl Hnext).
    f_equal. unfold setProcess. cbn [sockets with_sockets].
    apply emitter_ext; cbn; try reflexivity.
    rewrite list_alter_alter_eq. reflexivity.
  - reflexivity.
Qed.

End Sending.

Lemma emit_is_deferred_witness :
  exists st2 : emitter,
    (emit "test" [VString "message"] ;;; nextTick (Mods := Example.modules))
      Example.emitter1
    = (Ok tt, st2)
    /\ sent st2
       = [Datagram (Example.encode [VString "test"; VString "message"])
                   27634 "239.22.144.139"].
Proof.
  destruct (emit_is_deferred (Mods := Example.modules) Example.emitter1
              "test" [VString "message"] eq_refl)
    as (_ & Hsend & _).
  destruct (Hsend (Example.encode [VString "test"; VString "message"]) 27634)
    as (st2 & Hrun & Hsent & _);
    try (vm_compute; reflexivity); [lia | discriminate|].
  exists st2. split; [exact Hrun|]. rewrite Hsent. vm_compute. reflexivity.
Defined.

Lemma own_datagram_silences_receiver_witness :
  let next := Example.encode [VString "test"; VString "message"] in
  onMessage (Mods := Example.modules) (Fns := Example.listeners)
    0 next listening1
  = (Ok [Call Example.handler1 [VString "message"]],
     setProcess 0 true listening1)
  /\ onMessage (Mods := Example.modules) (Fns := Example.listeners) 0 next
               (setProcess 0 false listening1)
     = (Ok [], setProcess 0 false listening1).
Proof.
  intros next. split; [vm_compute; reflexivity|].
  apply (own_datagram_silences_receiver (Mods := Example.modules)
           (Fns := Example.listeners)
           Example.emitter1 listening1 0
           (Socket "test" (JNumber 27634) "239.22.144.139"
                   true true true true)
           [] next constructed_emitter1 follows_listening1);
    try (vm_compute; reflexivity).
  vm_compute. discriminate.
Defined.

(** ** What becomes of a socket *)

Section Lasting.

Context {Mods : Modules} {Fns : Listeners}.

Lemma lasting_refl (st : emitter) : lasting st st.
Proof. intros sid s Hs. exists s. auto 6. Qed.

Lemma lasting_trans (st1 st2 st3 : emitter) :
  lasting st1 st2 -> lasting st2 st3 -> lasting st1 st3.
Proof.
  intros H12 H23 sid s Hs.
  destruct (H12 sid s Hs) as (s2 & Hs2 & He & Hp & Ha & Ho & Hl).
  destruct (H23 sid s2 Hs2) as (s3 & Hs3 & He' & Hp' & Ha' & Ho' & Hl').
  exists s3. rewrite He', Hp', Ha'. auto 8.
Qed.

Lemma lasting_frame (st st' : emitter) :
  sockets st' = sockets st -> lasting st st'.
Proof. intros Hs sid s. rewrite Hs. apply lasting_refl. Qed.

Lemma lasting_alter (sid : nat) (f : socket -> socket) (st : emitter) :
  (forall s : socket,
      sock_event (f s) = sock_event s /\ sock_port (f s) = sock_port s
      /\ sock_address (f s) = sock_address s
      /\ (sock_open s = false -> sock_open (f s) = false)
      /\ (sock_listening s = true -> sock_listening (f s) = true)) ->
  lasting st (with_sockets (alter f sid (sockets st)) st).
Proof.
  intros Hf i s Hs. cbn [sockets with_sockets].
  destruct (decide (sid = i)) as [->|Hne].
  - exists (f s). rewrite list_lookup_alter_eq, Hs.
    split; [reflexivity | apply Hf].
  - exists s. rewrite list_lookup_alter_ne by exact Hne. auto 6.
Qed.

Lemma lasting_app (st st' : emitter) (new : list socket) :
  sockets st' = sockets st ++ new -> lasting st st'.
Proof.
  intros Hs sid s Hsid. exists s. rewrite Hs.
  split; [now apply lookup_app_l_Some | auto 6].
Qed.

Lemma lasting_step (st st' : emitter) : step st st' -> lasting st st'.
Proof.
  destruct 1.
  - apply lasting_frame, cache_sockets.
  - now apply lasting_frame.
  - apply (lasting_app _ _ [fresh e]). unfold stuck, assigned.
    destruct (Obj.isInherited e); [destruct (String.eqb e "__proto__")|];
      reflexivity.
  - eapply lasting_app. apply opened_sockets.
  - now apply lasting_frame.
  - apply (lasting_alter (receiver ch) closeSocket).
    intros s0. cbn. auto.
  - apply (lasting_alter sid). intros s0. cbn. auto.
  - apply (lasting_alter sid). intros s0. cbn. auto.
  - now apply lasting_frame.
  - now apply lasting_frame.
Qed.

Lemma lasting_steps (st st' : emitter) : steps st st' -> lasting st st'.
Proof.
  induction 1 as [|x y z Hstep Hrest IH]; [apply lasting_refl|].
  apply (lasting_trans x y z); [now apply lasting_step | exact IH].
Qed.

(** X22.  What becomes of a socket.  Whatever is done to an emitter, a
    receive socket that it has made stays in its place, for the same
    event, port and address; once closed it is never opened again, and
    once bound it stays bound. *)
Theorem sockets_last :
  forall st st' : emitter,
    follows st st' ->
    forall (sid : nat) (s : socket),
      sockets st !! sid = Some s ->
      exists s' : socket,
        sockets st' !! sid = Some s'
        /\ sock_event s' = sock_event s
        /\ sock_port s' = sock_port s
        /\ sock_address s' = sock_address s
        /\ (sock_open s = false -> sock_open s' = false)
        /\ (sock_listening s = true -> sock_listening s' = true).
Proof.
  intros st st' Hf. apply lasting_steps. now apply follows_steps.
Qed.

End Lasting.

Lemma sockets_last_witness :
  sockets closed1 !! 0%nat
  = Some (Socket "test" (JNumber 27634) "239.22.144.139"
                 false true false true)
  /\ exists s' : socket,
       sockets reopened1 !! 0%nat = Some s'
       /\ sock_port s' = JNumber 27634
       /\ sock_open s' = false.
Proof.
  assert (Hs : sockets closed1 !! 0%nat
               = Some (Socket "test" (JNumber 27634) "239.22.144.139"
                              false true false true))
    by (vm_compute; reflexivity).
  split; [exact Hs|].
  destruct (sockets_last (Mods := Example.modules) (Fns := Example.listeners)
              closed1 reopened1
              (follows_step _ _ _ (follows_start _)) 0%nat _ Hs)
    as (s' & Hs' & _ & Hport & _ & Hopen & _).
  exists s'. split; [exact Hs'|]. split; [exact Hport|].
  now apply Hopen.
Defined.

(** ** One socket for each event *)

Section OneSocket.

Context {Mods : Modules} {Fns : Listeners}.

(** X17.  One socket for each event.  In every state of a constructed
    emitter the receiver of a channel is an open socket made for that
    event, two events never share a receiver, and an open socket made for
    an event whose name is no member of [Object.prototype] is the receiver
    of the channel of that event. *)
Theorem receivers_are_not_shared :
  forall st0 st : emitter,
    constructed st0 ->
    follows st0 st ->
    (forall (e : string) (ch : channel),
        listeners st !! e = Some ch ->
        exists s : socket,
          sockets st !! receiver ch = Some s
          /\ sock_event s = e /\ sock_open s = true)
    /\ (forall (e1 e2 : string) (c1 c2 : channel),
           listeners st !! e1 = Some c1 ->
           listeners st !! e2 = Some c2 ->
           receiver c1 = receiver c2 -> e1 = e2)
    /\ (forall (sid : nat) (s : socket),
           sockets st !! sid = Some s ->
           sock_open s = true ->
           Obj.isInherited (sock_event s) = false ->
           exists ch : channel,
             listeners st !! sock_event s = Some ch /\ receiver ch = sid).
Proof.
  intros st0 st Hc Hf. pose proof (wf_follows _ _ Hc Hf) as Hwf.
  pose proof (wf_shape _ _ Hwf) as Hsh.
  split; [|split].
  - intros e ch Hch.
    destruct (shape_channel _ Hsh _ _ Hch) as (_ & _ & _ & s & Hs & Ho & He).
    eauto.
  - intros e1 e2 c1 c2. now apply receiver_inj.
  - intros sid s Hs. now apply (shape_socket _ Hsh).
Qed.

End OneSocket.

Lemma follows_sharing :
  follows (Mods := Example.modules) (Fns := Example.listeners)
    Example.emitter1 sharing.
Proof. repeat apply follows_step. apply follows_start. Qed.

Lemma receivers_are_not_shared_witness :
  exists s : socket,
    sockets sharing !! 1%nat = Some s
    /\ sock_event s = "debug23" /\ sock_open s = true.
Proof.
  destruct (receivers_are_not_shared (Mods := Example.modules)
              (Fns := Example.listeners)
              Example.emitter1 sharing constructed_emitter1 follows_sharing)
    as (Hsock & _).
  apply (Hsock "debug23" (Channel 1 [Example.handler2])).
  vm_compute. reflexivity.
Defined.

(** ** The prefix that a receiver takes off *)

Lemma indexOf_first (b : byte) (pre post : list byte) :
  ~ In b pre -> indexOf (pre ++ b :: post) b = Z.of_nat (length pre).
Proof.
  induction pre as [|c pre IH]; intros Hnot; cbn [app indexOf length].
  - assert (Hbb : Byte.eqb b b = true) by now apply Byte.byte_dec_lb.
    now rewrite Hbb.
  - destruct (Byte.eqb c b) eqn:Hcb.
    + apply Byte.byte_dec_bl in Hcb. subst c. contradiction Hnot. now left.
    + rewrite IH by (intros Hin; apply Hnot; now right).
      destruct (Z.ltb_spec (Z.of_nat (length pre)) 0); lia.
Qed.

Lemma indexOf_split (b : byte) (msg : list byte) :
  0 <= indexOf msg b ->
  exists pre post : list byte,
    msg = pre ++ b :: post
    /\ Z.of_nat (length pre) = indexOf msg b
    /\ ~ In b pre.
Proof.
  induction msg as [|c msg IH]; cbn [indexOf]; [lia|].
  destruct (Byte.eqb c b) eqn:Hcb.
  - intros _. apply Byte.byte_dec_bl in Hcb. subst c.
    exists [], msg. repeat split. intros [].
  - destruct (Z.ltb_spec (indexOf msg b) 0) as [|Hge]; [lia|]. intros _.
    destruct (IH Hge) as (pre & post & -> & Hlen & Hnot).
    exists (c :: pre), post. cbn [app length]. repeat split; [lia|].
    intros [->|Hin]; [|contradiction].
    assert (Hbb : Byte.eqb b b = true) by now apply Byte.byte_dec_lb.
    congruence.
Qed.

Lemma slice_middle (pre x post : list byte) :
  slice (pre ++ x ++ post) (Z.of_nat (length pre))
        (Z.of_nat (length pre + length x)) = x.
Proof.
  unfold slice. rewrite Nat2Z.id.
  replace (Z.to_nat (Z.of_nat (length pre + length x) - Z.of_nat (length pre)))
    with (length x) by lia.
  rewrite drop_app_length. apply take_app_length.
Qed.

(** What the callback does with an ['@'], bytes without colon and a
    colon. *)
Lemma untag_tagged (ownPid : Z) (processMessage : bool) (x rest : list byte) :
  x <> [] -> ~ In ":"%byte x ->
  untag ownPid processMessage ("@"%byte :: x ++ ":"%byte :: rest)
  = (rest,
     match parseIntUtf8 x with
     | Some p => negb (ownPid =? p)
     | None => true
     end).
Proof.
  intros Hx Hnot. unfold untag.
  change (Byte.eqb "@" "@") with true. cbn iota.
  assert (Hidx : indexOf ("@"%byte :: x ++ ":"%byte :: rest) ":"%byte
                 = Z.of_nat (length ("@"%byte :: x))).
  { apply (indexOf_first ":"%byte ("@"%byte :: x) rest).
    intros [Heq|Hin]; [discriminate | contradiction]. }
  rewrite Hidx.
  assert (Hlen : (0 < length x)%nat)
    by (destruct x; [contradiction | cbn; lia]).
  assert (Hgt : (Z.of_nat (length ("@"%byte :: x)) >? 1) = true)
    by (cbn [length]; destruct (Z.gtb_spec (Z.of_nat (S (length x))) 1);
        [reflexivity | lia]).
  rewrite Hgt.
  assert (Hx' : slice ("@"%byte :: x ++ ":"%byte :: rest) 1
                      (Z.of_nat (length ("@"%byte :: x))) = x).
  { apply (slice_middle ["@"%byte] x (":"%byte :: rest)). }
  assert (Hrest : slice ("@"%byte :: x ++ ":"%byte :: rest)
                        (Z.of_nat (length ("@"%byte :: x)) + 1)
                        (Z.of_nat (length ("@"%byte :: x
                                             ++ ":"%byte :: rest)))
                  = rest).
  { pose proof (slice_middle ("@"%byte :: x ++ [":"%byte]) rest []) as Hs.
    rewrite app_nil_r in Hs. cbn [app] in Hs. rewrite <- app_assoc in Hs.
    cbn [app] in Hs. rewrite <- Hs at 3. f_equal.
    - cbn [length]. rewrite length_app. cbn [length]. lia.
    - cbn [length]. rewrite !length_app. cbn [length]. lia. }
  rewrite Hx', Hrest. reflexivity.
Qed.

(** X18.  What the ['message'] callback takes for an origin tag: an ['@'],
    at least one byte that is not a colon, and a colon.  It cuts such a
    prefix off at its first colon, whoever sent the datagram, and processes
    the rest unless the bytes between read as the pid of the own process
    (for bytes of ASCII characters, as [parseInt] reads them).  Any other
    message is left as it is, together with the variable
    [processMessage]. *)
Theorem untag_takes_off_a_tag :
  forall (ownPid : Z) (processMessage : bool),
    (forall x rest : list byte,
        x <> [] -> ~ In ":"%byte x ->
        Forall sevenBit x ->
        untag ownPid processMessage ("@"%byte :: x ++ ":"%byte :: rest)
        = (rest,
           match parseInt (string_of_list_byte x) with
           | Some p => negb (ownPid =? p)
           | None => true
           end))
    /\ (forall msg : list byte,
           untag ownPid processMessage msg = (msg, processMessage)
           \/ exists x rest : list byte,
                msg = "@"%byte :: x ++ ":"%byte :: rest
                /\ x <> [] /\ ~ In ":"%byte x).
Proof.
  intros ownPid processMessage.
  split;
    [intros x rest Hx Hnot H7;
     now rewrite (untag_tagged _ _ _ _ Hx Hnot), parseIntUtf8_sevenBit|].
  intros msg. unfold untag. destruct msg as [|b msg]; [now left|].
  destruct (Byte.eqb b "@"%byte) eqn:Hb; [|now left].
  destruct (Z.gtb_spec (indexOf (b :: msg) ":"%byte) 1) as [Hgt|]; [|now left].
  right. apply Byte.byte_dec_bl in Hb. subst b.
  assert (Hge : 0 <= indexOf ("@"%byte :: msg) ":"%byte) by lia.
  destruct (indexOf_split ":"%byte ("@"%byte :: msg) Hge)
    as (pre & post & Hmsg & Hlen & Hnot).
  destruct pre as [|c x]; [cbn [length] in Hlen; lia|].
  cbn [app] in Hmsg. injection Hmsg as <- ->.
  exists x, post. split; [reflexivity|]. split.
  - intros ->. cbn [length] in Hlen. lia.
  - intros Hin. apply Hnot. now right.
Qed.

Lemma untag_takes_off_a_tag_witness :
  untag 4242 true
        (list_byte_of_string "@4243:" ++ Example.encode [VString "test"])
  = (Example.encode [VString "test"], true).
Proof.
  apply (proj1 (untag_takes_off_a_tag 4242 true)
           (list_byte_of_string "4243") (Example.encode [VString "test"])).
  - discriminate.
  - cbn. intros [H|[H|[H|[H|[]]]]]; discriminate H.
  - repeat constructor.
Defined.

(** A no-break space before the digits, in its two bytes of UTF-8: the
    text reads as the pid all the same, and the datagram of the own
    process is dropped. *)
Example untag_no_break_space :
  untag 4242 true
        ("@"%byte :: "194"%byte :: "160"%byte
           :: list_byte_of_string "4242:"
           ++ Example.encode [VString "test"])
  = (Example.encode [VString "test"], false).
Proof. vm_compute. reflexivity. Qed.

(** ** Errors *)

Section Errors.

Context {Mods : Modules} {Fns : Listeners}.

(** X15.  The empty event name.  [getPort], [hasReceiver], [hasListeners],
    [addListener] and [once] throw the error that asks for an event, and
    [removeListener] the one that asks for an event and a listener; the
    emitter is left as it was, no socket is made.  [removeAllListeners]
    takes the empty name for no name at all, and [emit] returns normally.
    So, in every state of a constructed emitter, the empty name has no
    channel and no open socket. *)
Theorem methods_require_an_event :
  forall st0 st : emitter,
    constructed st0 ->
    follows st0 st ->
    (forall (st' : emitter) (listener : handler) (args : list value),
        getPort "" st' = (Throw RequiresEvent, st')
        /\ hasReceiver "" st' = (Throw RequiresEvent, st')
        /\ hasListeners "" st' = (Throw RequiresEvent, st')
        /\ addListener "" listener st' = (Throw RequiresEvent, st')
        /\ once "" listener 0 st' = (Throw RequiresEvent, st')
        /\ removeListener "" listener st'
           = (Throw RequiresEventAndListener, st')
        /\ removeAllListeners (Some "") st' = removeAllListeners None st'
        /\ fst (emit "" args st') = Ok tt)
    /\ listeners st !! "" = None
    /\ (forall (sid : nat) (s : socket),
           sockets st !! sid = Some s ->
           sock_open s = true -> sock_event s <> "").
Proof.
  intros st0 st Hc Hf. pose proof (wf_follows _ _ Hc Hf) as Hwf.
  pose proof (wf_shape _ _ Hwf) as Hsh.
  split; [intros st' listener args; repeat split|]. split.
  - destruct (listeners st !! "") as [ch|] eqn:Hch; [|reflexivity].
    now destruct (shape_channel _ Hsh _ _ Hch).
  - intros sid s Hs Ho Hempty.
    destruct (shape_socket _ Hsh _ _ Hs) as (Ht & _).
    now rewrite Hempty in Ht.
Qed.

End Errors.

Lemma methods_require_an_event_witness :
  addListener "" Example.handler1 listening1
  = (Throw RequiresEvent, listening1)
  /\ listeners listening1 !! "" = None.
Proof.
  destruct (methods_require_an_event (Mods := Example.modules)
              (Fns := Example.listeners)
              Example.emitter1 listening1 constructed_emitter1
              follows_listening1)
    as (Hthrow & Hnone & _).
  split; [|exact Hnone].
  apply (Hthrow listening1 Example.handler1 []).
Defined.

(** ** Receivers and emitters *)

Section Tuning.

Context {Mods : Modules} {Fns : Listeners}.



End Tuning.





(** ** Listeners registered with once *)

Section OnceAndOff.

Context {Mods : Modules} {Fns : Listeners}.

Lemma bind_Ok_inv {A B} (m : M A) (k : A -> M B) (st st1 : emitter) (b : B) :
  bind m k st = (Ok b, st1) ->
  exists (a : A) (st' : emitter), m st = (Ok a, st') /\ k a st' = (Ok b, st1).
Proof.
  unfold bind. destruct (m st) as [[a|e] st']; [eauto | discriminate].
Qed.

(** After a call of [addListener] that returned, the listener is the last
    handler of the event, and the table has its method. *)
Lemma addListener_Ok (event : string) (listener : handler)
  (st st1 : emitter) :
  event <> "hasOwnProperty" ->
  addListener event listener st = (Ok tt, st1) ->
  truthy event = true
  /\ sound st1
  /\ exists (r : nat) (hs : list handler),
       listeners st1 !! event = Some (Channel r (hs ++ [listener])).
Proof.
  unfold addListener. intros Hne Hrun.
  apply bind_Ok_inv in Hrun as (p & sta & _ & Hrun).
  apply bind_Ok_inv in Hrun as (d & stb & _ & Hrun).
  apply bind_Ok_inv in Hrun as (u1 & stc & _ & Hrun).
  apply bind_Ok_inv in Hrun as (r & std & _ & Hrun).
  apply bind_Ok_inv in Hrun as (u2 & ste & _ & Hrun).
  apply bind_Ok_inv in Hrun as (ch & stf & Hch & Hrun).
  injection Hch as <- <-.
  apply bind_Ok_inv in Hrun as (u3 & stg & Hpush & Hrun).
  apply bind_Ok_inv in Hrun as (q & sth & Hport & Hret).
  injection Hret as <-.
  destruct (listeners ste !! event) as [c|] eqn:Hc; [|discriminate].
  destruct (getPort_cases event stg)
    as [(Ht & Hs & Hg)|[(Ht & Hs & Hg)|(-> & Hg)]];
    rewrite Hg in Hport; try discriminate.
  injection Hport as _ <-.
  split; [exact Ht|]. split; [now apply sound_cache|].
  exists (receiver c), (handlers c).
  rewrite cache_listeners.
  apply (f_equal snd) in Hpush. cbn [snd modify] in Hpush. subst stg.
  cbn [listeners with_listeners]. apply lookup_insert_eq.
Qed.

(** X19.  A listener given to [once] cannot be taken back with
    [removeListener]: what is registered is the function made by [once],
    whose text is not that of the listener.  In every state of a
    constructed emitter, after [once(event, listener)] the call
    [removeListener(event, listener)] returns normally and the function of
    [once] is still a handler of the event. *)
Theorem once_listener_outlives_removeListener :
  forall (st0 st st1 : emitter) (event : string) (listener : handler)
         (ref : nat),
    constructed st0 ->
    follows st0 st ->
    once event listener ref st = (Ok tt, st1) ->
    fn_source listener <> onceListenerSource ->
    exists st2 : emitter,
      removeListener event listener st1 = (Ok tt, st2)
      /\ In (Handler ref onceListenerSource) (handlersOf event st2)
      /\ fst (hasListeners event st2) = Ok true.
Proof.
  intros st0 st st1 event listener ref Hc Hf Honce Hsrc.
  assert (Hwf : wf st0 st1).
  { apply (wf_follows _ _ Hc).
    replace st1 with (perform (AddListener event
                                 (Handler ref onceListenerSource)) st)
      by (cbn [perform]; unfold once in Honce; now rewrite Honce).
    now apply follows_step. }
  pose proof (wf_shape _ _ Hwf) as Hsh.
  assert (Hne : event <> "hasOwnProperty").
  { intros ->. unfold once in Honce.
    destruct (listeners st !! "hasOwnProperty") as [c|] eqn:Hc0.
    - pose proof (wf_follows _ _ Hc Hf) as Hwf0.
      now destruct (shape_channel _ (wf_shape _ _ Hwf0) _ _ Hc0) as (_ & ? & _).
    - destruct (decide (sound st)) as [Hs|Hs].
      + now rewrite addListener_inherited in Honce.
      + now rewrite addListener_poisoned in Honce. }
  destruct (addListener_Ok _ _ _ _ Hne Honce) as (Ht & Hso & r & hs & Hch).
  destruct (shape_channel _ Hsh _ _ Hch) as (_ & _ & _ & s & Hs & _).
  pose proof (channel_cached _ _ _ Hsh (wf_tuned _ _ Hwf) Hso Hch) as Hcached.
  cbn [receiver] in Hs.
  set (kept := filter (differs (fn_source listener))
                      (hs ++ [Handler ref onceListenerSource])).
  assert (Hin : In (Handler ref onceListenerSource) kept).
  { apply list_elem_of_In, list_elem_of_filter. split.
    - unfold differs. cbn [fn_source]. congruence.
    - apply elem_of_app. right. now apply list_elem_of_singleton. }
  exists (leaving event r kept st1).
  assert (Hnil : hs ++ [Handler ref onceListenerSource] <> [])
    by (destruct hs; discriminate).
  split.
  { rewrite (removeListener_run event listener r _ s st1 Ht Hso Hcached
               Hnil Hch Hs).
    fold kept. destruct kept; [destruct Hin | reflexivity]. }
  split; [now rewrite handlersOf_leaving|].
  rewrite (hasListeners_run _ _ Ht). cbn [fst].
  destruct kept as [|k kept']; [destruct Hin|].
  cbn [leaving listeners with_listeners]. now rewrite lookup_insert_eq.
Qed.

End OnceAndOff.

Lemma once_listener_outlives_removeListener_witness :
  let st1 := snd (once "test" Example.handler1 11 Example.emitter1) in
  exists st2 : emitter,
    removeListener "test" Example.handler1 st1 = (Ok tt, st2)
    /\ In Example.wrapper1 (handlersOf "test" st2).
Proof.
  intros st1.
  destruct (once_listener_outlives_removeListener (Mods := Example.modules)
              (Fns := Example.listeners)
              Example.emitter1 Example.emitter1 st1 "test" Example.handler1
              11 constructed_emitter1 (follows_start _))
    as (st2 & Hrun & Hin & _).
  - vm_compute. reflexivity.
  - vm_compute. discriminate.
  - exists st2. split; [exact Hrun | exact Hin].
Defined.

Section OnceListeners.

Context {Mods : Modules} {Fns : Listeners}.

(** The functions with the text of [onceListener] are those that [once]
    made. *)
Hypothesis wrapped_text :
  forall h : handler,
    is_Some (wrapped h) <-> fn_source h = onceListenerSource.




End OnceListeners.




(** ** A port that another event holds *)

Lemma insertIndex_perm (i : Z) (k : string) (l : list (Z * string)) :
  Obj.insertIndex i k l ≡ₚ (i, k) :: l.
Proof.
  induction l as [|[j k'] l IH]; cbn [Obj.insertIndex]; [reflexivity|].
  destruct (i <? j); [reflexivity|].
  rewrite IH. apply Permutation_swap.
Qed.

(** The enumeration lists every key once: it is a permutation of the keys
    in the order of their creation. *)
Lemma ordered_perm (ks : list string) : Obj.ordered ks ≡ₚ ks.
Proof.
  unfold Obj.ordered. induction ks as [|k ks IH]; [reflexivity|].
  cbn [fold_right List.filter].
  destruct (Obj.index k) as [i|].
  - rewrite insertIndex_perm. cbn [map snd app]. now rewrite IH.
  - rewrite <- Permutation_middle. now rewrite IH.
Qed.

Lemma elem_of_ordered (k : string) (ks : list string) :
  k ∈ Obj.ordered ks <-> k ∈ ks.
Proof. now rewrite ordered_perm. Qed.

Lemma keys_own {V} (k : string) (o : Obj.t V) :
  k ∈ Obj.keys o <-> is_Some (Obj.get k o).
Proof.
  unfold Obj.keys. rewrite elem_of_ordered.
  induction o as [|[k' v] o IH]; cbn [map fst Obj.get].
  - split; [intros H; now apply elem_of_nil in H | intros [? ?]; discriminate].
  - rewrite elem_of_cons. destruct (String.eqb_spec k' k) as [->|Hne].
    + split; eauto.
    + rewrite IH. split; [intros [->|H]; [contradiction | exact H] | auto].
Qed.

Lemma find_first {A} (f : A -> bool) (l : list A) (x : A) :
  find f l = Some x ->
  exists pre post : list A,
    l = pre ++ x :: post /\ f x = true /\ forall y, In y pre -> f y = false.
Proof.
  induction l as [|a l IH]; cbn [find]; [discriminate|].
  destruct (f a) eqn:Hfa.
  - intros [= <-]. exists [], l. repeat split; [exact Hfa | intros y []].
  - intros Hfind. destruct (IH Hfind) as (pre & post & -> & Hx & Hpre).
    exists (a :: pre), post. repeat split; [exact Hx|].
    intros y [<-|Hy]; [exact Hfa | now apply Hpre].
Qed.

Section PortOwner.

Context {Mods : Modules} {Fns : Listeners}.

Lemma hasEventWithPort_run (event : string) (port : jsval) (st : emitter) :
  sound st ->
  hasEventWithPort event port st
  = if truthyVal port then (Ok (owner port st), st)
    else (Ok (owner (JNumber (generatePort (this st) event)) st),
          logged event st).
Proof.
  intros Hs. unfold hasEventWithPort.
  assert (Hown : forall st' : emitter,
             events st' = events st ->
             Forall (fun k => Obj.has k (events st') = true)
                    (Obj.keys (events st'))).
  { intros st' He. apply Forall_forall. intros k Hk.
    now apply has_get, keys_own. }
  destruct (truthyVal port).
  - rewrite bind_ret, bind_gets.
    now rewrite (forIn_run _ _ Hs _ (Hown st eq_refl)).
  - rewrite bind_bind. unfold generatePortCall at 1. unfold bind at 1.
    rewrite bind_ret, bind_gets.
    assert (Hs' : sound (logged event st)) by exact Hs.
    now rewrite (forIn_run _ _ Hs' _ (Hown (logged event st) eq_refl)).
Qed.

(** X7.  [hasEventWithPort(event, port)], on a table that has no key
    ['hasOwnProperty'], returns and leaves the table and the channels
    alone.  It looks for the port given or, when that is 0 or undefined,
    for the generated port of [event], and returns the first key of
    [this.events], in the order in which [for ... in] lists the keys
    (array indices first, in ascending order, then the others as they
    were created), that holds it: undefined exactly when no key does.  On
    a table with the key ['hasOwnProperty'] it throws at the first key. *)
Theorem hasEventWithPort_first_owner :
  forall (st : emitter) (event : string) (port : jsval),
    let p :=
      if truthyVal port then port
      else JNumber (generatePort (this st) event) in
    (sound st ->
     exists (r : option string) (st' : emitter),
       hasEventWithPort event port st = (Ok r, st')
       /\ events st' = events st
       /\ listeners st' = listeners st
       /\ match r with
          | Some prp =>
              is_Some (Obj.get prp (events st))
              /\ strictEq (Obj.read prp (events st)) p = true
              /\ exists pre post : list string,
                   Obj.keys (events st) = pre ++ prp :: post
                   /\ forall k : string,
                        In k pre ->
                        strictEq (Obj.read k (events st)) p = false
          | None =>
              forall k : string,
                is_Some (Obj.get k (events st)) ->
                strictEq (Obj.read k (events st)) p = false
          end)
    /\ (~ sound st ->
        fst (hasEventWithPort event port st) = Throw TypeError).
Proof.
  intros st event port p. split.
  - intros Hs.
    assert (Hrun : exists st' : emitter,
               hasEventWithPort event port st = (Ok (owner p st), st')
               /\ events st' = events st /\ listeners st' = listeners st).
    { rewrite (hasEventWithPort_run _ _ _ Hs). subst p.
      destruct (truthyVal port); eauto. }
    destruct Hrun as (st' & Hrun & He & Hl).
    exists (owner p st), st'. repeat split; try assumption.
    unfold owner. destruct (find _ _) as [prp|] eqn:Hfind.
    + apply find_first in Hfind as (pre & post & Hkeys & Hp & Hpre).
      split.
      { apply keys_own. rewrite Hkeys. apply elem_of_app. right.
        now left. }
      split; [exact Hp|]. exists pre, post. split; [exact Hkeys | exact Hpre].
    + intros k Hk. apply keys_own, list_elem_of_In in Hk.
      apply (find_none _ _ Hfind k Hk).
  - intros Hs. unfold hasEventWithPort.
    assert (Hkeys : forall st' : emitter,
               events st' = events st -> ~ sound st'
               /\ Obj.keys (events st') <> []).
    { intros st' He. split; [unfold sound; now rewrite He|].
      rewrite He. intros Hnil.
      assert (Hin : "hasOwnProperty" ∈ Obj.keys (events st)).
      { apply keys_own. unfold sound in Hs.
        destruct (Obj.get "hasOwnProperty" (events st)); [eauto|].
        now contradiction Hs. }
      rewrite Hnil in Hin. now apply elem_of_nil in Hin. }
    destruct (truthyVal port).
    + rewrite bind_ret, bind_gets.
      destruct (Hkeys st eq_refl) as [Hs' Hne].
      rewrite (forIn_poisoned _ _ _ Hs').
      now destruct (Obj.keys (events st)).
    + rewrite bind_bind. unfold generatePortCall at 1. unfold bind at 1.
      rewrite bind_ret, bind_gets.
      destruct (Hkeys (logged event st) eq_refl) as [Hs' Hne].
      rewrite (forIn_poisoned _ _ _ Hs'). cbn [fst].
      change (events (with_generated (generated st ++ [event]) st))
        with (events st).
      change (events (logged event st)) with (events st) in Hne.
      now destruct (Obj.keys (events st)).
Qed.

Lemma addListener_existing (event : string) (listener : handler)
  (st : emitter) (ch : channel) (p : Z) :
  truthy event = true ->
  sound st ->
  listeners st !! event = Some ch ->
  handlers ch <> [] ->
  Obj.get event (events st) = Some p ->
  p <> 0 ->
  addListener event listener st
  = if refused (owner (JNumber p) st) event
    then (Throw (PortAssigned event (JNumber p)
                              (default "" (owner (JNumber p) st))), st)
    else (Ok tt, keeping event (receiver ch) (handlers ch ++ [listener]) st).
Proof.
  intros Ht Hs Hch Hne Hp Hnz. unfold addListener.
  rewrite bind_gets, (read_own _ _ _ Hp).
  assert (Htruthy : truthyVal (JNumber p) = true)
    by (cbn; unfold truthyZ; now destruct (Z.eqb_spec p 0)).
  assert (Hfd : fullDefined event (JNumber p) st
                = (Ok (owner (JNumber p) st), st)).
  { rewrite (fullDefined_run _ _ _ Ht), Hch.
    destruct (handlers ch); [contradiction|]. cbn [length Nat.ltb Nat.leb].
    now rewrite (hasEventWithPort_run _ _ _ Hs), Htruthy. }
  rewrite (bind_Ok _ _ _ _ _ Hfd).
  assert (Hport : getPort event st = (Ok (JNumber p), st)).
  { rewrite (getPort_run _ _ Ht Hs), (portValue_own _ _ _ Hp).
    rewrite cache_own by eauto. reflexivity. }
  unfold refused. destruct (owner (JNumber p) st) as [d|].
  - destruct (truthy d && negb (String.eqb d event)).
    + rewrite bind_bind, (bind_Ok _ _ _ _ _ Hport). reflexivity.
    + rewrite bind_ret.
      rewrite (bind_Ok _ _ _ _ _ (hasReceiver_run _ _ Ht)), Hch.
      cbn [negb]. rewrite bind_ret, bind_gets, Hch, bind_modify.
      fold (keeping event (receiver ch) (handlers ch ++ [listener]) st).
      assert (Hs' : sound (keeping event (receiver ch)
                                   (handlers ch ++ [listener]) st))
        by exact Hs.
      rewrite (bind_Ok _ _ _ _ _ (getPort_run _ _ Ht Hs')).
      rewrite cache_keeping, cache_own by eauto. reflexivity.
  - rewrite bind_ret.
    rewrite (bind_Ok _ _ _ _ _ (hasReceiver_run _ _ Ht)), Hch.
    cbn [negb]. rewrite bind_ret, bind_gets, Hch, bind_modify.
    fold (keeping event (receiver ch) (handlers ch ++ [listener]) st).
    assert (Hs' : sound (keeping event (receiver ch)
                                 (handlers ch ++ [listener]) st))
      by exact Hs.
    rewrite (bind_Ok _ _ _ _ _ (getPort_run _ _ Ht Hs')).
    rewrite cache_keeping, cache_own by eauto. reflexivity.
Qed.

(** X6.  When the port test of [addListener] does fire.  For an event that
    has listeners already and a non-zero port in the table, which has no
    key ['hasOwnProperty'], [hasEventWithPort] is asked for the first
    event with that port, in the order of [for ... in]: if it names
    another event, [addListener] throws the port error and the emitter is
    left as it was; if it names the event itself, the listener is appended
    to the handlers, on the same receiver. *)
Theorem addListener_port_assigned :
  forall (st : emitter) (event : string) (listener : handler) (ch : channel)
         (p : Z) (d : string),
    truthy event = true ->
    sound st ->
    listeners st !! event = Some ch ->
    handlers ch <> [] ->
    Obj.get event (events st) = Some p ->
    p <> 0 ->
    fst (hasEventWithPort event (JNumber p) st) = Ok (Some d) ->
    (truthy d = true -> d <> event ->
     addListener event listener st
     = (Throw (PortAssigned event (JNumber p) d), st))
    /\ (d = event ->
        addListener event listener st
        = (Ok tt,
           with_listeners
             (<[event := Channel (receiver ch) (handlers ch ++ [listener])]>
                (listeners st)) st)).
Proof.
  intros st event listener ch p d Ht Hs Hch Hne Hp Hnz Hd.
  assert (Htruthy : truthyVal (JNumber p) = true)
    by (cbn; unfold truthyZ; now destruct (Z.eqb_spec p 0)).
  rewrite (hasEventWithPort_run _ _ _ Hs), Htruthy in Hd. cbn [fst] in Hd.
  injection Hd as Hd.
  pose proof (addListener_existing event listener st ch p Ht Hs Hch Hne Hp
                Hnz) as Hrun.
  rewrite Hd in Hrun. cbn [refused default] in Hrun.
  split.
  - intros Htd Hde. rewrite Hrun, Htd.
    now destruct (String.eqb_spec d event) as [|_]; [contradiction|].
  - intros ->. rewrite Hrun, Ht, String.eqb_refl. reflexivity.
Qed.

End PortOwner.

(** The table [{b: 5000, '1': 5000}]: [for ... in] lists ['1'] first, so
    a second listener for ['b'] is refused, the port being assigned to
    ['1']. *)
Lemma addListener_port_assigned_witness :
  let opts :=
    Build_Opts None None None None None None None None None None None
               (Some [("b", 5000); ("1", 5000)]) in
  let st := Example.run (addListener "b" Example.handler1)
                        (Example.built opts Example.proc) in
  addListener "b" Example.handler2 st
  = (Throw (PortAssigned "b" (JNumber 5000) "1"), st).
Proof.
  intros opts st.
  apply (addListener_port_assigned st "b" Example.handler2
           (Channel 0 [Example.handler1]) 5000 "1");
    try (vm_compute; reflexivity); discriminate.
Defined.

(** The order of [for ... in]: the array indices first, in ascending
    order, then the other keys as they were created. *)
Example keys_enumeration :
  Obj.keys [("b", 5000); ("10", 5000); ("9", 5000); ("a", 5000);
            ("01", 5000)]
  = ["9"; "10"; "b"; "a"; "01"].
Proof. reflexivity. Qed.

Lemma hasEventWithPort_first_owner_witness :
  exists st' : emitter,
    hasEventWithPort "debug23" (JNumber 19079) sharing
    = (Ok (Some "test7"), st').
Proof.
  destruct (hasEventWithPort_first_owner sharing "debug23" (JNumber 19079))
    as (Hrun & _).
  destruct (Hrun eq_refl) as (r & st' & Hr & _).
  exists st'. rewrite Hr. f_equal. f_equal.
  vm_compute in Hr. now injection Hr as <- _.
Defined.

(** ** From the emitter to the handlers *)

Section EndToEnd.

Context {Mods : Modules} {Fns : Listeners}.





End EndToEnd.




(** ** The end of the channels *)

Section Closing.

Context {Mods : Modules} {Fns : Listeners}.

Lemma filter_differs_shorter (h : handler) (hs : list handler) :
  (length (filter (differs (fn_source h)) (h :: hs)) <= length hs)%nat.
Proof.
  rewrite filter_cons_False by (unfold differs; tauto).
  apply length_filter.
Qed.

(** The loop of [removeAllListeners(event)], on a receiver that has joined
    the group: it ends within as many turns as the event has handlers and
    closes the channel. *)
Lemma removeWhile_state (event : string) (r : nat) (s : socket) :
  truthy event = true ->
  sock_member s = true ->
  forall (bound : nat) (st : emitter) (hs : list handler),
    sound st ->
    is_Some (Obj.get event (events st)) ->
    listeners st !! event = Some (Channel r hs) ->
    hs <> [] ->
    sockets st !! r = Some s ->
    (length hs <= bound)%nat ->
    removeWhile bound event st = (Ok tt, leaving event r [] st).
Proof.
  intros Ht Hm. induction bound as [|n IH]; intros st hs Hso Hc Hch Hne Hs Hlen.
  - destruct hs; [contradiction | cbn in Hlen; lia].
  - destruct hs as [|h hs]; [contradiction|].
    cbn [removeWhile].
    rewrite (bind_Ok _ _ _ _ _ (hasListeners_run _ _ Ht)), Hch.
    cbn [handlers length Nat.ltb Nat.leb]. rewrite bind_gets, Hch.
    pose proof (removeListener_run _ h r (h :: hs) s st Ht Hso Hc Hne Hch Hs)
      as Hrun.
    rewrite Hm in Hrun.
    pose proof (filter_differs_shorter h hs) as Hshort.
    destruct (filter (differs (fn_source h)) (h :: hs)) as [|k kept].
    + rewrite (bind_Ok _ _ _ _ _ Hrun).
      destruct n; cbn [removeWhile];
        rewrite (bind_Ok _ _ _ _ _ (hasListeners_run _ _ Ht));
        cbn [leaving listeners with_listeners with_listenerKeys with_sockets];
        now rewrite lookup_delete_eq.
    + rewrite (bind_Ok _ _ _ _ _ Hrun).
      rewrite (IH _ (k :: kept)); try assumption.
      * cbn [leaving]. apply f_equal.
        apply (leaving_insert event r [] (Channel r (k :: kept)) st).
      * cbn [leaving listeners with_listeners]. apply lookup_insert_eq.
      * discriminate.
      * cbn [length] in *. lia.
Qed.

Lemma removeAllOf_state (st0 : emitter) (event : string) (st : emitter) :
  truthy event = true ->
  wf st0 st ->
  sound st ->
  settled st ->
  removeAllOf event st
  = (Ok tt,
     match listeners st !! event with
     | Some ch => leaving event (receiver ch) [] st
     | None => st
     end).
Proof.
  intros Ht Hwf Hso Hse. unfold removeAllOf. rewrite bind_gets.
  unfold handlerCount.
  destruct (listeners st !! event) as [[r hs]|] eqn:Hch.
  - destruct (Hse _ _ Hch) as (Hne & s & Hs & Hm).
    apply (removeWhile_state event r s Ht Hm _ st hs); try assumption;
      [|reflexivity].
    apply (channel_cached _ _ _ (wf_shape _ _ Hwf) (wf_tuned _ _ Hwf) Hso Hch).
  - cbn [removeWhile].
    now rewrite (bind_Ok _ _ _ _ _ (hasListeners_run _ _ Ht)), Hch.
Qed.

(** What [removeAllOf] leaves is again settled. *)
Lemma closed_invariants (st0 : emitter) (event : string) (st : emitter) :
  wf st0 st ->
  sound st ->
  settled st ->
  let st1 := match listeners st !! event with
             | Some ch => leaving event (receiver ch) [] st
             | None => st
             end in
  wf st0 st1 /\ sound st1 /\ settled st1
  /\ listeners st1 = delete event (listeners st)
  /\ events st1 = events st /\ sent st1 = sent st /\ ticks st1 = ticks st
  /\ length (sockets st1) = length (sockets st)
  /\ lasting st st1.
Proof.
  intros Hwf Hso Hse. cbn zeta.
  destruct (listeners st !! event) as [ch|] eqn:Hch.
  - destruct (Hse _ _ Hch) as (Hne & s & Hs & Hm).
    pose proof (step_closed event ch s st Hch Hs Hm) as Hstep.
    split; [now apply (wf_step st0 st)|]. split; [exact Hso|].
    split.
    { intros ev ch'. unfold leaving.
      cbn [listeners sockets with_listeners with_listenerKeys with_sockets].
      rewrite lookup_delete_Some. intros [Hev Hch'].
      destruct (Hse _ _ Hch') as (Hne' & s' & Hs' & Hm').
      split; [exact Hne'|]. exists s'. split; [|exact Hm'].
      rewrite list_lookup_alter_ne; [exact Hs'|].
      intros Heq. apply Hev.
      now apply (receiver_inj st event ev ch ch' (wf_shape _ _ Hwf)). }
    split; [reflexivity|]. do 3 (split; [reflexivity|]).
    split; [apply length_alter|]. now apply lasting_step.
  - split; [exact Hwf|]. split; [exact Hso|]. split; [exact Hse|].
    split; [symmetry; now apply delete_id|].
    do 4 (split; [reflexivity|]). apply lasting_refl.
Qed.

Lemma forEach_removeAllOf (st0 : emitter) (keys : list string) :
  forall st : emitter,
    wf st0 st ->
    sound st ->
    settled st ->
    Forall (fun e => truthy e = true) keys ->
    exists st' : emitter,
      forEach (fun e => if truthy e then removeAllOf e else throw RangeError)
              keys st = (Ok tt, st')
      /\ wf st0 st'
      /\ listeners st' = foldr delete (listeners st) keys
      /\ events st' = events st
      /\ sent st' = sent st
      /\ ticks st' = ticks st
      /\ length (sockets st') = length (sockets st)
      /\ lasting st st'.
Proof.
  induction keys as [|e keys IH]; intros st Hwf Hso Hse Hkeys.
  - exists st. split; [reflexivity|]. split; [exact Hwf|].
    do 5 (split; [reflexivity|]). apply lasting_refl.
  - apply Forall_cons in Hkeys as [He Hkeys]. cbn [forEach]. rewrite He.
    rewrite (bind_Ok _ _ _ _ _ (removeAllOf_state st0 e st He Hwf Hso Hse)).
    destruct (closed_invariants st0 e st Hwf Hso Hse)
      as (Hwf1 & Hso1 & Hse1 & Hl1 & He1 & Hsent1 & Ht1 & Hlen1 & Hlast1).
    destruct (IH _ Hwf1 Hso1 Hse1 Hkeys)
      as (st' & Hrun' & Hwf' & Hl' & He' & Hsent' & Ht' & Hlen' & Hlast').
    exists st'. split; [exact Hrun'|]. split; [exact Hwf'|].
    split.
    { rewrite Hl', Hl1. cbn [foldr].
      clear. induction keys as [|k keys IHk]; [reflexivity|].
      cbn [foldr]. rewrite IHk. apply delete_delete. }
    rewrite He', Hsent', Ht', Hlen'. do 4 (split; [assumption|]).
    eapply lasting_trans; eassumption.
Qed.

Lemma foldr_delete_None (m : gmap string channel) (keys : list string)
  (k : string) :
  (is_Some (m !! k) -> k ∈ keys) -> foldr delete m keys !! k = None.
Proof.
  induction keys as [|e keys IH]; intros Hin; cbn [foldr].
  - destruct (m !! k) eqn:Hk; [|reflexivity].
    exfalso. eapply elem_of_nil. apply Hin. eauto.
  - destruct (decide (e = k)) as [->|Hne]; [apply lookup_delete_eq|].
    rewrite lookup_delete_ne by exact Hne. apply IH.
    intros Hk. apply Hin, elem_of_cons in Hk as [->|Hk];
      [contradiction | exact Hk].
Qed.

(** X8.  In every state of a constructed emitter where the table has no
    key ['hasOwnProperty'], every channel has a handler and every receiver
    of a channel has joined the group, [removeAllListeners] returns
    normally.  With an event that has a channel, the channel is deleted
    and its socket leaves the group and is closed, the rest being left as
    it is; with an event without channel nothing changes.  Without event,
    or with the empty name, no channel is left and every socket made for
    an event whose name is no member of [Object.prototype] is closed and
    out of the group; the sockets are as many as before, and the ports,
    the datagrams sent and the queued calls are untouched. *)
Theorem removeAllListeners_closes :
  forall st0 st : emitter,
    constructed st0 ->
    follows st0 st ->
    sound st ->
    settled st ->
    (forall (e : string) (ch : channel),
        listeners st !! e = Some ch ->
        removeAllListeners (Some e) st
        = (Ok tt, leaving e (receiver ch) [] st))
    /\ (forall e : string,
           truthy e = true ->
           listeners st !! e = None ->
           removeAllListeners (Some e) st = (Ok tt, st))
    /\ (exists st' : emitter,
           removeAllListeners None st = (Ok tt, st')
           /\ removeAllListeners (Some "") st = (Ok tt, st')
           /\ listeners st' = ∅
           /\ (forall (sid : nat) (s : socket),
                  sockets st' !! sid = Some s ->
                  Obj.isInherited (sock_event s) = false ->
                  sock_open s = false /\ sock_member s = false)
           /\ length (sockets st') = length (sockets st)
           /\ events st' = events st
           /\ sent st' = sent st
           /\ ticks st' = ticks st).
Proof.
  intros st0 st Hc Hf Hso Hse. pose proof (wf_follows _ _ Hc Hf) as Hwf.
  pose proof (wf_shape _ _ Hwf) as Hsh.
  split; [|split].
  - intros e ch Hch.
    destruct (shape_channel _ Hsh _ _ Hch) as (Ht & _).
    unfold removeAllListeners. cbn [truthyOpt default from_option Datatypes.id].
    rewrite Ht, (removeAllOf_state st0 e st Ht Hwf Hso Hse), Hch. reflexivity.
  - intros e Ht Hno.
    unfold removeAllListeners. cbn [truthyOpt default from_option Datatypes.id].
    now rewrite Ht, (removeAllOf_state st0 e st Ht Hwf Hso Hse), Hno.
  - destruct (forEach_removeAllOf st0 (Obj.ordered (listenerKeys st)) st
                Hwf Hso Hse)
      as (st' & Hrun & Hwf' & Hl & He & Hsent & Hticks & Hlen & Hlast).
    { apply Forall_forall. intros e Hin. rewrite elem_of_ordered in Hin.
      now destruct (proj2 (shape_keys _ Hsh) e Hin). }
    assert (Hempty : listeners st' = ∅).
    { rewrite Hl. apply map_eq. intros k. rewrite lookup_empty.
      apply foldr_delete_None. intros [ch Hch].
      rewrite elem_of_ordered.
      now destruct (shape_channel _ Hsh _ _ Hch) as (_ & _ & ? & _). }
    assert (Hrun' : removeAllListeners None st = (Ok tt, st')).
    { unfold removeAllListeners. cbn [truthyOpt]. now rewrite bind_gets. }
    exists st'. split; [exact Hrun'|]. split; [exact Hrun'|].
    split; [exact Hempty|]. split; [|auto].
    intros sid s Hs Hi.
    destruct (shape_socket _ (wf_shape _ _ Hwf') _ _ Hs)
      as (_ & Hmem & _ & Hchan).
    assert (Hopen : sock_open s = false).
    { destruct (sock_open s) eqn:Ho; [|reflexivity].
      destruct (Hchan eq_refl Hi) as (ch & Hch & _).
      now rewrite Hempty, lookup_empty in Hch. }
    split; [exact Hopen|]. now rewrite Hmem, Hopen.
Qed.

End Closing.

Lemma settled_listening1 : settled listening1.
Proof.
  intros ev ch Hch.
  destruct (String.eqb_spec ev "test") as [->|Hne].
  - vm_compute in Hch. injection Hch as <-. split; [discriminate|].
    eexists. split; [vm_compute; reflexivity | reflexivity].
  - exfalso. revert Hch.
    change (listeners listening1)
      with (<["test" := Channel 0 [Example.handler1]]>
              (∅ : gmap string channel)).
    rewrite lookup_insert_ne by congruence. now rewrite lookup_empty.
Qed.

Lemma removeAllListeners_closes_witness :
  exists st' : emitter,
    removeAllListeners None listening1 = (Ok tt, st')
    /\ listeners st' = ∅
    /\ length (sockets st') = 1%nat.
Proof.
  destruct (removeAllListeners_closes (Mods := Example.modules)
              (Fns := Example.listeners)
              Example.emitter1 listening1 constructed_emitter1
              follows_listening1 eq_refl settled_listening1)
    as (_ & _ & st' & Hrun & _ & Hl & _ & Hlen & _).
  exists st'. split; [exact Hrun|]. split; [exact Hl|].
  rewrite Hlen. vm_compute. reflexivity.
Defined.
